(** * Feature extraction core: structural parsers, aggregators, extraction

  A shallow embedding of the format-aware feature extractor
  (featurizers/extract.py, features_a.py, features_b.py, features_c.py,
  sniff.py and the structural parsers under parsers_A/) together with the
  properties stated about it.

  Conventions of the embedding:
  - a file is the list of its bytes (the file is assumed readable; I/O
    errors of [open] are outside the model);
  - a Python [int] is a [Z]; a Python [dict] with string keys is a
    [gmap string _];
  - a Python exception inside a [try] block is [None] in the option monad;
    what the [except] clause returns is written where the source has it;
  - a Python [float] is kept as the arithmetic term that computes it
    ([pyfloat]); rounding is not modelled, and the float comparisons of the
    source are decided on the exact rational value of the term. *)

From Stdlib Require Import ZArith List String Ascii Lia Bool QArith.
From Stdlib.Strings Require Import Byte.
From stdpp Require Import gmap strings list fin_maps.

Set Warnings "-clear-no-such-hyp".

Local Open Scope string_scope.
Local Open Scope list_scope.
Local Open Scope Z_scope.

(** ** Bytes *)

#[global] Instance byte_eq_decision : EqDecision byte := Byte.byte_eq_dec.

Module Bytes.

Abbreviation bytes := (list byte).

(** Value of one byte, [0 <= bv b < 256]. *)
Definition bv (b : byte) : Z := Z.of_N (Byte.to_N b).

(** [len(b)] *)
Definition len (b : bytes) : Z := Z.of_nat (length b).

(** [b[lo:hi]] for [0 <= lo]; an empty result when [hi <= lo]. *)
Definition slice (b : bytes) (lo hi : Z) : bytes :=
  take (Z.to_nat (hi - lo)) (drop (Z.to_nat lo) b).

(** [b[i]] for [0 <= i]; [None] is Python's IndexError. *)
Definition index (b : bytes) (i : Z) : option Z :=
  if i <? 0 then None else bv <$> (b !! Z.to_nat i).

(** Little-endian and big-endian value of a byte string. *)
Fixpoint le_value (b : bytes) : Z :=
  match b with
  | [] => 0
  | x :: r => bv x + 256 * le_value r
  end.

Definition be_value (b : bytes) : Z := le_value (rev b).

(** [struct.unpack_from(fmt, b, off)[0]] for one unsigned field of [w]
    bytes and [0 <= off]; [None] is [struct.error] (buffer too small). *)
Definition unpack_le (w : Z) (b : bytes) (off : Z) : option Z :=
  if (off <? 0) || (len b <? off + w) then None
  else Some (le_value (slice b off (off + w))).

Definition unpack_be (w : Z) (b : bytes) (off : Z) : option Z :=
  if (off <? 0) || (len b <? off + w) then None
  else Some (be_value (slice b off (off + w))).

Definition bytes_eqb (a b : bytes) : bool := bool_decide (a = b).

(** [b.startswith(p)] *)
Definition startswith (b p : bytes) : bool :=
  bytes_eqb (take (length p) b) p.

(** The bytes of an ASCII literal such as [b"ftyp"]. *)
Definition lit (s : string) : bytes := list_byte_of_string s.

End Bytes.
Import Bytes.

(** ** Python values *)

(** A float is the term that computes it. *)
Inductive pyfloat : Type :=
| FLit (q : Q)                 (* a literal: 0.0, 256.0, ... *)
| FOfInt (z : Z)               (* int converted in mixed arithmetic *)
| FDivInt (a b : Z)            (* int / int, true division *)
| FAdd (x y : pyfloat)
| FSub (x y : pyfloat)
| FMul (x y : pyfloat)
| FDiv (x y : pyfloat)
| FNeg (x : pyfloat)
| FLog2 (x : pyfloat)          (* math.log2 *)
| FLog10 (x : pyfloat)         (* math.log10 *)
| FRound6 (x : pyfloat).       (* round(x, 6) *)

(** Exact rational value of a term without logarithm or rounding. *)
Fixpoint fl_val (x : pyfloat) : option Q :=
match x with
| FLit q => Some q
| FOfInt z => Some (inject_Z z)
| FDivInt a b => Some (Qmake a 1 / Qmake b 1)%Q
| FAdd a b => p ← fl_val a; q ← fl_val b; Some (p + q)%Q
| FSub a b => p ← fl_val a; q ← fl_val b; Some (p - q)%Q
| FMul a b => p ← fl_val a; q ← fl_val b; Some (p * q)%Q
| FDiv a b => p ← fl_val a; q ← fl_val b; Some (p / q)%Q
| FNeg a => p ← fl_val a; Some (- p)%Q
| FLog2 _ | FLog10 _ | FRound6 _ => None
end.

(** [x == 0] and [x >= q] on floats. *)
Definition fl_is_zero (x : pyfloat) : bool :=
match fl_val x with Some q => Qeq_bool q 0 | None => false end.

Definition fl_ge (x : pyfloat) (q : Q) : bool :=
match fl_val x with Some v => Qle_bool q v | None => false end.

(** Targets of the conversions of [normalize_value]. *)
Inductive conv : Type := ToInt | ToFloat | ToStr.

(** Feature values. [VConv c v] is the value of the [try] block of
  [normalize_value] for a conversion the model does not evaluate:
  [int(v)], [float(v)] or [str(v)], or [v] itself when that call raises.
  It is never [None]. *)
Inductive pyval : Type :=
| VNone
| VBool (b : bool)
| VInt (z : Z)
| VFloat (x : pyfloat)
| VStr (s : string)
| VConv (c : conv) (v : pyval).

(** What a parser call can do: raise, return [None], or return a dict. *)
Inductive presult : Type :=
| PRaise
| PNone
| PDict (d : gmap string pyval).

(** A parser takes the file's bytes. *)
Definition parser : Type := list byte → presult.


(** ** Outcomes of code that can raise or loop *)

(** [Ret a]: the code returns [a]; [Raise]: it raises an exception;
    [Diverge]: the fuel given to a [while] loop of the model ran out. *)
Inductive run (A : Type) : Type :=
| Ret (a : A)
| Raise
| Diverge.
Arguments Ret {A} a.
Arguments Raise {A}.
Arguments Diverge {A}.

#[global] Instance run_ret : MRet run := λ A a, Ret a.
#[global] Instance run_bind : MBind run := λ A B f m,
  match m with
  | Ret a => f a
  | Raise => Raise
  | Diverge => Diverge
  end.

#[global] Instance run_fmap : FMap run := λ A B f m,
  match m with
  | Ret a => Ret (f a)
  | Raise => Raise
  | Diverge => Diverge
  end.

(** A [struct.unpack_from] that raises [struct.error]. *)
Definition of_option {A : Type} (o : option A) : run A :=
  match o with Some a => Ret a | None => Raise end.

(** [struct.unpack_from("<%dI" % count, b, off)]: [count] little-endian
    32-bit fields; a negative count is a bad format string, a short buffer
    a [struct.error]. *)
Definition unpack_u32s (count : Z) (b : bytes) (off : Z) : run (list Z) :=
  if (count <? 0) || (off <? 0) || (len b <? off + 4 * count) then Raise
  else Ret ((λ i, le_value (slice b (off + 4 * i) (off + 4 * i + 4)))
              <$> seqZ 0 count).

(** ** parsers_A/gzip_feat.py *)

Module Gzip.

Definition _ID1 : Z := 0x1F.
Definition _ID2 : Z := 0x8B.
Definition _CM_DEFLATE : Z := 8.

Definition _FHCRC : Z := 0x02.
Definition _FEXTRA : Z := 0x04.
Definition _FNAME : Z := 0x08.
Definition _FCOMMENT : Z := 0x10.

Definition _BASE_HDR_LEN : Z := 10.
Definition _MAX_READ : Z := 64 * 1024.

Definition DEF_RETURN : gmap string pyval :=
  {[ "gzip_header_ok" := VBool false;
     "gzip_mtime_present" := VBool false;
     "gzip_name_present" := VBool false;
     "parser_ok" := VBool false;
     "structure_consistent" := VBool false ]}.

(** The record built at each of the three [return {...}] sites. *)
Definition record (header_ok mtime_present name_present : bool)
  : gmap string pyval :=
  {[ "gzip_header_ok" := VBool header_ok;
     "gzip_mtime_present" := VBool mtime_present;
     "gzip_name_present" := VBool name_present;
     "parser_ok" := VBool header_ok;
     "structure_consistent" := VBool header_ok ]}.

(** [while pos < n and data[pos] != 0: pos += 1], on [rest = data[pos:]]. *)
Fixpoint scan_to_nul (rest : bytes) (pos : Z) : Z :=
  match rest with
  | [] => pos
  | b :: rest' => if bv b =? 0 then pos else scan_to_nul rest' (pos + 1)
  end.

(** [ID1 == 0x1F and ID2 == 0x8B and CM == 8] *)
Definition header_valid (id1 id2 cm : Z) : bool :=
  (id1 =? _ID1) && (id2 =? _ID2) && (cm =? _CM_DEFLATE).

(** The optional fields after FEXTRA: FNAME, FCOMMENT, FHCRC. *)
Definition after_extra (data : bytes) (flg pos n : Z)
    (header_ok mtime_present : bool) : gmap string pyval :=
  let '(name_present, pos) :=
    if negb (Z.land flg _FNAME =? 0) then
      let start := pos in
      let pos := scan_to_nul (drop (Z.to_nat pos) data) pos in
      let name_present := (pos <? n) && (start <? pos) in
      let pos := if pos <? n then pos + 1 else pos in
      (name_present, pos)
    else (false, pos) in
  let pos :=
    if negb (Z.land flg _FCOMMENT =? 0) then
      let pos := scan_to_nul (drop (Z.to_nat pos) data) pos in
      if pos <? n then pos + 1 else pos
    else pos in
  let pos := if negb (Z.land flg _FHCRC =? 0) then pos + 2 else pos in
  record header_ok mtime_present name_present.

(** The body of the [try] block; [None] is a raised exception. *)
Definition parse_gzip_try (file : bytes) : option (gmap string pyval) :=
  let data := take (Z.to_nat _MAX_READ) file in
  if len data <? _BASE_HDR_LEN then Some DEF_RETURN
  else
    id1 ← index data 0;
    id2 ← index data 1;
    cm ← index data 2;
    flg ← index data 3;
    let header_ok := header_valid id1 id2 cm in
    let mtime := default 0 (unpack_le 4 data 4) in
    let mtime_present := negb (mtime =? 0) in
    let pos := _BASE_HDR_LEN in
    let n := len data in
    if negb (Z.land flg _FEXTRA =? 0) then
      if n <? pos + 2 then Some (record header_ok mtime_present false)
      else
        xlen ← unpack_le 2 data pos;
        let pos := pos + (2 + xlen) in
        if n <? pos then Some (record header_ok mtime_present false)
        else Some (after_extra data flg pos n header_ok mtime_present)
    else Some (after_extra data flg pos n header_ok mtime_present).

Definition parse_gzip (file : bytes) : presult :=
  match parse_gzip_try file with
  | Some d => PDict d
  | None => PDict DEF_RETURN
  end.

End Gzip.


(** ** parsers_A/mp4_feat.py *)

Module Mp4.

Definition max_steps : Z := 1000000.

Definition DEF_RETURN : gmap string pyval :=
  {[ "mp4_ftyp_present" := VBool false;
     "mp4_moov_present" := VBool false;
     "mp4_mdat_present" := VBool false;
     "mp4_brand" := VStr "";
     "mp4_box_tree_ok" := VBool false;
     "parser_ok" := VBool false;
     "structure_consistent" := VBool false ]}.

(** One [fp.read]: the offset sought, the count asked for and the number of
    bytes obtained; the bytes touched are [r_off .. r_off + r_got - 1]. *)
Record read_ev : Type := Read { r_off : Z; r_asked : Z; r_got : Z }.

Definition fsize (fp : bytes) : Z := len fp.

(** [read_at(fp, off, n)] for [0 <= n]. *)
Definition read_at (fp : bytes) (off n : Z) : bytes :=
  let end_ := len fp in
  if (off <? 0) || (end_ <=? off) then []
  else slice fp off (off + Z.min n (end_ - off)).

(** [read_u32], [read_u64]: [None] is the Python value [None]. *)
Definition read_u32 (b : bytes) (off : Z) : option Z :=
  if len b <? off + 4 then None else unpack_be 4 b off.

Definition read_u64 (b : bytes) (off : Z) : option Z :=
  if len b <? off + 8 then None else unpack_be 8 b off.

(** [t.decode("ascii", errors="ignore")]: bytes above 0x7F are dropped. *)
Definition decode_ascii_ignore (t : bytes) : string :=
  string_of_list_byte (filter (λ b, bv b < 128) t).

Definition read_type (b : bytes) (off : Z) : option string :=
  if len b <? off + 4 then None
  else Some (decode_ascii_ignore (slice b off (off + 4))).

(** A yielded box: [(btype, pos, box_size, hdr_size)]. *)
Record box : Type :=
  Box { b_type : option string; b_start : Z; b_size : Z; b_hdr : Z }.

(** What one pass through the loop body of [iter_boxes] does at [pos]:
    [None] for each [break], otherwise the box that is yielded. *)
Definition box_at (head : bytes) (limit pos : Z) : option box :=
  if len head <? 8 then None
  else
    match read_u32 head 0 with
    | None => None
    | Some size32 =>
      let btype := read_type head 4 in
      let sized : option (Z * Z) :=
        if size32 =? 1 then
          if len head <? 16 then None
          else
            match read_u64 head 8 with
            | None => None
            | Some largesize =>
              if largesize <? 16 then None else Some (largesize, 16)
            end
        else if size32 =? 0 then Some (limit - pos, 8)
        else Some (size32, 8) in
      match sized with
      | None => None
      | Some (box_size, hdr_size) =>
        if box_size <? hdr_size then None
        else if limit <? pos + box_size then None
        else Some (Box btype pos box_size hdr_size)
      end
    end.

(** The generator [iter_boxes(fp, start, end)], as the sequence of its
    resumptions: each box yielded with the header read that produced it,
    and the read (if any) of the pass that ended the iteration.
    [fuel] is [max_steps - steps]: the loop condition [steps < max_steps]
    is the match on [fuel]. *)
Fixpoint iter_boxes_from (fuel : nat) (fp : bytes) (limit pos : Z)
  : list (read_ev * box) * option read_ev :=
  match fuel with
  | O => ([], None)
  | S fuel' =>
    if pos + 8 <=? limit then
      let head := read_at fp pos 16 in
      let r := Read pos 16 (len head) in
      match box_at head limit pos with
      | None => ([], Some r)
      | Some b =>
        let '(ys, fin) := iter_boxes_from fuel' fp limit (pos + b_size b) in
        ((r, b) :: ys, fin)
      end
    else ([], None)
  end.

Definition iter_boxes (fp : bytes) (start end_ : Z)
  : list (read_ev * box) * option read_ev :=
  iter_boxes_from (Z.to_nat max_steps) fp end_ start.

(** The [for] loop of [validate_box_range] over the generator; a [break]
    leaves the rest of the generator unconsumed. Returns the reads made and
    [ok]. *)
Fixpoint validate_loop (ys : list (read_ev * box)) (fin : option read_ev)
    (pos steps : Z) : list read_ev * bool :=
  match ys with
  | [] => (option_list fin, true)
  | (r, b) :: ys' =>
    let steps := steps + 1 in
    if negb (b_start b =? pos) then ([r], false)
    else
      let pos := pos + b_size b in
      if max_steps <? steps then ([r], false)
      else
        let '(log, ok) := validate_loop ys' fin pos steps in
        (r :: log, ok)
  end.

Definition validate_box_range (fp : bytes) (start end_ : Z)
  : list read_ev * bool :=
  let '(ys, fin) := iter_boxes fp start end_ in
  validate_loop ys fin start 0.

(** Loop state of [parse_mp4]. *)
Record scan : Type :=
  Scan { ftyp_present : bool; moov_present : bool; mdat_present : bool;
         brand : string; toplevel_ok : bool }.

(** The body of the [for] loop of [parse_mp4] for one box. *)
Definition scan_box (fp : bytes) (b : box) (s : scan) : list read_ev * scan :=
  if bool_decide (b_type b = Some "ftyp") then
    let head := read_at fp (b_start b + b_hdr b) 8 in
    let r := Read (b_start b + b_hdr b) 8 (len head) in
    let brand' :=
      if 4 <=? len head then decode_ascii_ignore (slice head 0 4)
      else brand s in
    ([r], Scan true (moov_present s) (mdat_present s) brand' (toplevel_ok s))
  else if bool_decide (b_type b = Some "moov") then
    let '(log, moov_ok) :=
      validate_box_range fp (b_start b + b_hdr b) (b_start b + b_size b) in
    (log, Scan (ftyp_present s) true (mdat_present s) (brand s)
               (toplevel_ok s && moov_ok))
  else if bool_decide (b_type b = Some "mdat") then
    ([], Scan (ftyp_present s) (moov_present s) true (brand s) (toplevel_ok s))
  else ([], s).

Fixpoint scan_boxes (fp : bytes) (ys : list (read_ev * box))
    (fin : option read_ev) (s : scan) : list read_ev * scan :=
  match ys with
  | [] => (option_list fin, s)
  | (r, b) :: ys' =>
    let '(log1, s1) := scan_box fp b s in
    let '(log2, s2) := scan_boxes fp ys' fin s1 in
    (r :: log1 ++ log2, s2)
  end.

(** [parse_mp4] with the reads it makes. No statement of the [try] block
    raises in this model, so the [except] clause is not reached. *)
Definition parse_mp4_io (fp : bytes) : list read_ev * presult :=
  let size := fsize fp in
  if size <? 8 then ([], PDict DEF_RETURN)
  else
    let '(log0, top_ok) := validate_box_range fp 0 size in
    let '(ys, fin) := iter_boxes fp 0 size in
    let '(log1, s) := scan_boxes fp ys fin (Scan false false false "" top_ok) in
    let parser_ok :=
      ftyp_present s && toplevel_ok s && (moov_present s || mdat_present s) in
    let structure_consistent :=
      ftyp_present s && toplevel_ok s && moov_present s && mdat_present s in
    (log0 ++ log1,
     PDict {[ "mp4_ftyp_present" := VBool (ftyp_present s);
              "mp4_moov_present" := VBool (moov_present s);
              "mp4_mdat_present" := VBool (mdat_present s);
              "mp4_brand" := VStr (brand s);
              "mp4_box_tree_ok" := VBool (toplevel_ok s);
              "parser_ok" := VBool parser_ok;
              "structure_consistent" := VBool structure_consistent ]}).

Definition parse_mp4 (fp : bytes) : presult := snd (parse_mp4_io fp).

(** The size and header size a box header declares, in the words of the
    format: [size == 1] announces a 64-bit size after the type (16-byte
    header), [size == 0] a box reaching the end of the container, any other
    value the size itself. [None] when the bytes of the header are not all
    there. Used to state properties; the parser is [box_at]. *)
Definition declared_extent (head : bytes) (limit pos : Z) : option (Z * Z) :=
  match read_u32 head 0 with
  | None => None
  | Some size32 =>
    if size32 =? 1 then
      match read_u64 head 8 with
      | None => None
      | Some largesize => Some (largesize, 16)
      end
    else if size32 =? 0 then Some (limit - pos, 8)
    else Some (size32, 8)
  end.

End Mp4.

(** ** parsers_A/ole2_feat.py *)

Module Ole2.

Definition HEADER_SIZE : Z := 512.
Definition FREESECT : Z := 0xFFFFFFFF.
Definition ENDOFCHAIN : Z := 0xFFFFFFFE.
Definition FATSECT : Z := 0xFFFFFFFD.
Definition DIFSECT : Z := 0xFFFFFFFC.

Definition DIR_ENTRY_SIZE : Z := 128.
Definition MAX_SECTORS_READ : Z := 8192.

Definition DEF_RETURN : gmap string pyval :=
  {[ "ole_dir_ok" := VBool false;
     "ole_stream_count" := VInt 0;
     "ole_fat_ok" := VBool false;
     "ole_mini_fat_ok" := VBool false;
     "ole_root_entry_present" := VBool false;
     "ole_summaryinfo_present" := VBool false;
     "ole_expected_streams_present" := VBool false;
     "parser_ok" := VBool false;
     "structure_consistent" := VBool false ]}.

Definition u16 (b : bytes) (off : Z) : run Z := of_option (unpack_le 2 b off).
Definition u32 (b : bytes) (off : Z) : run Z := of_option (unpack_le 4 b off).

Definition sector_offset (sector_size sector_index : Z) : Z :=
  HEADER_SIZE + sector_index * sector_size.

Definition read_sector (data : bytes) (sector_size sector_index : Z) : bytes :=
  let off := sector_offset sector_size sector_index in
  let end_ := off + sector_size in
  if (off <? 0) || (len data <? end_) then [] else slice data off end_.

(** The dict returned by [parse_header]. *)
Record header : Type := Header {
  sector_size : Z;
  mini_sector_size : Z;
  num_dir_sectors : Z;
  num_fat_sectors : Z;
  first_dir_sector : Z;
  mini_stream_cutoff : Z;
  first_minifat : Z;
  num_minifat_sectors : Z;
  first_difat : Z;
  num_difat_sectors : Z;
  difat0 : list Z
}.

Definition CFB_SIGNATURE : bytes := [xd0; xcf; x11; xe0; xa1; xb1; x1a; xe1].

(** [parse_header]; [Ret None] is the Python value [None]. *)
Definition parse_header (data : bytes) : run (option header) :=
  if len data <? HEADER_SIZE then Ret None
  else if negb (bytes_eqb (slice data 0 8) CFB_SIGNATURE) then Ret None
  else
    sector_shift ← u16 data 0x1E;
    mini_sector_shift ← u16 data 0x20;
    num_dir_sectors ← u32 data 0x28;
    num_fat_sectors ← u32 data 0x2C;
    first_dir_sector ← u32 data 0x30;
    mini_stream_cutoff ← u32 data 0x38;
    first_minifat ← u32 data 0x3C;
    num_minifat_sectors ← u32 data 0x40;
    first_difat ← u32 data 0x44;
    num_difat_sectors ← u32 data 0x48;
    difat0 ← unpack_u32s 109 data 0x4C;
    Ret (Some (Header (Z.shiftl 1 sector_shift) (Z.shiftl 1 mini_sector_shift)
                 num_dir_sectors num_fat_sectors first_dir_sector
                 mini_stream_cutoff first_minifat num_minifat_sectors
                 first_difat num_difat_sectors difat0)).

(** [[s for s in entries if s != FREESECT]] *)
Definition not_free (entries : list Z) : list Z :=
  filter (λ s, s ≠ FREESECT) entries.

(** State of the DIFAT loop of [build_fat]. The set [visited] is kept as
    the list of its elements in the order they were added. *)
Record difat_state : Type := DifatState {
  difat_sect : Z;
  difat_remaining : Z;
  visited : list Z;
  fat_sector_indices : list Z
}.

(** The [while] loop over the chain of DIFAT sectors. *)
Fixpoint difat_walk (fuel : nat) (data : bytes) (sector_size : Z)
    (st : difat_state) : run difat_state :=
  match fuel with
  | O => Diverge
  | S fuel' =>
    if negb (bool_decide (difat_sect st = FREESECT ∨ difat_sect st = ENDOFCHAIN))
       && (0 <? difat_remaining st)
       && (Z.of_nat (length (visited st)) <? MAX_SECTORS_READ)
    then
      if bool_decide (difat_sect st ∈ visited st) then Ret st
      else
        let visited' := visited st ++ [difat_sect st] in
        let buf := read_sector data sector_size (difat_sect st) in
        if negb (len buf =? sector_size) then
          Ret (DifatState (difat_sect st) (difat_remaining st) visited'
                 (fat_sector_indices st))
        else
          let count := sector_size `div` 4 - 1 in
          entries ← unpack_u32s count buf 0;
          next ← u32 buf (sector_size - 4);
          difat_walk fuel' data sector_size
            (DifatState next (difat_remaining st - 1) visited'
               (fat_sector_indices st ++ not_free entries))
    else Ret st
  end.

(** The [for] loop reading the FAT sectors: [(fat, fat_ok)]. *)
Fixpoint read_fat_sectors (data : bytes) (sector_size : Z)
    (indices : list Z) (fat : list Z) : run (list Z * bool) :=
  match indices with
  | [] => Ret (fat, true)
  | sidx :: rest =>
    let sbuf := read_sector data sector_size sidx in
    if negb (len sbuf =? sector_size) then Ret (fat, false)
    else
      let cnt := sector_size `div` 4 in
      entries ← unpack_u32s cnt sbuf 0;
      read_fat_sectors data sector_size rest (fat ++ entries)
  end.

(** Fuel for the two sector walks: more than the cap on visited sectors. *)
Definition walk_fuel : nat := Z.to_nat (MAX_SECTORS_READ + 1).

Definition build_fat (data : bytes) (H : header) : run (list Z * bool) :=
  let st0 := DifatState (first_difat H) (num_difat_sectors H) []
                        (not_free (difat0 H)) in
  st ← difat_walk walk_fuel data (sector_size H) st0;
  '(fat, fat_ok) ← read_fat_sectors data (sector_size H)
                     (fat_sector_indices st) [];
  Ret (fat, if bool_decide (fat = []) then false else fat_ok).

(** State of the loop of [follow_chain]; [seen] in insertion order. *)
Record chain_state : Type := ChainState {
  cur : Z;
  hops : Z;
  seen : list Z;
  out : bytes
}.

Fixpoint chain_walk (fuel : nat) (data : bytes) (sector_size : Z)
    (fat : list Z) (st : chain_state) : run chain_state :=
  match fuel with
  | O => Diverge
  | S fuel' =>
    if negb (bool_decide (cur st = FREESECT ∨ cur st = ENDOFCHAIN))
       && (hops st <? MAX_SECTORS_READ)
    then
      if bool_decide (cur st ∈ seen st) || (Z.of_nat (length fat) <=? cur st)
      then Ret st
      else
        let seen' := seen st ++ [cur st] in
        let sec := read_sector data sector_size (cur st) in
        if negb (len sec =? sector_size) then
          Ret (ChainState (cur st) (hops st) seen' (out st))
        else
          nxt ← of_option (fat !! Z.to_nat (cur st));
          chain_walk fuel' data sector_size fat
            (ChainState nxt (hops st + 1) seen' (out st ++ sec))
    else Ret st
  end.

(** [follow_chain], with the final loop state. *)
Definition follow_chain_state (data : bytes) (sector_size : Z)
    (fat : list Z) (start : Z) : run chain_state :=
  if bool_decide (start = FREESECT ∨ start = ENDOFCHAIN)
  then Ret (ChainState start 0 [] [])
  else chain_walk walk_fuel data sector_size fat (ChainState start 0 [] []).

Definition follow_chain (data : bytes) (sector_size : Z)
    (fat : list Z) (start : Z) : run bytes :=
  st ← follow_chain_state data sector_size fat start; Ret (out st).

(** UTF-16 code units of an even-length byte string, little-endian. *)
Fixpoint utf16_units (b : bytes) : list Z :=
  match b with
  | lo :: hi :: r => (bv lo + 256 * bv hi) :: utf16_units r
  | _ => []
  end.

Definition is_high_surrogate (u : Z) : bool := (0xD800 <=? u) && (u <=? 0xDBFF).
Definition is_low_surrogate (u : Z) : bool := (0xDC00 <=? u) && (u <=? 0xDFFF).

(** [bytes.decode("utf-16le", errors="ignore")] as code points: a
    surrogate pair is combined, a surrogate without its partner is
    dropped. *)
Fixpoint decode_units (us : list Z) : list Z :=
  match us with
  | [] => []
  | u :: r =>
    if is_high_surrogate u then
      match r with
      | u2 :: r2 =>
        if is_low_surrogate u2
        then (0x10000 + (u - 0xD800) * 0x400 + (u2 - 0xDC00)) :: decode_units r2
        else decode_units r
      | [] => []
      end
    else if is_low_surrogate u then decode_units r
    else u :: decode_units r
  end.

(** [s.rstrip("\x00")] *)
Fixpoint lstrip_nul (s : list Z) : list Z :=
  match s with
  | c :: r => if c =? 0 then lstrip_nul r else s
  | [] => []
  end.

Definition rstrip_nul (s : list Z) : list Z := rev (lstrip_nul (rev s)).

(** Code points of an ASCII literal. *)
Definition codepoints (s : string) : list Z := bv <$> list_byte_of_string s.

Definition SUMMARY_INFORMATION : list Z := 5 :: codepoints "SummaryInformation".

Definition EXPECTED_STREAMS : list (list Z) :=
  [codepoints "WordDocument"; codepoints "Workbook";
   codepoints "PowerPoint Document"].

(** The tuple returned by [parse_directory_stream]. *)
Record dir_info : Type := DirInfo {
  ole_dir_ok : bool;
  ole_stream_count : Z;
  ole_root_entry_present : bool;
  ole_summaryinfo_present : bool;
  ole_expected_streams_present : bool
}.

(** [dir_bytes[i*128:(i+1)*128]] for [i] in [range(n)]. *)
Fixpoint dir_entries (n : nat) (dir_bytes : bytes) : list bytes :=
  match n with
  | O => []
  | S n' =>
    take (Z.to_nat DIR_ENTRY_SIZE) dir_bytes
      :: dir_entries n' (drop (Z.to_nat DIR_ENTRY_SIZE) dir_bytes)
  end.

(** The [for] loop over the directory entries. *)
Fixpoint scan_entries (entries : list bytes) (acc : dir_info) : run dir_info :=
  match entries with
  | [] =>
    Ret (DirInfo true (ole_stream_count acc) (ole_root_entry_present acc)
           (ole_summaryinfo_present acc) (ole_expected_streams_present acc))
  | entry :: rest =>
    if negb (len entry =? DIR_ENTRY_SIZE) then
      Ret (DirInfo true (ole_stream_count acc) (ole_root_entry_present acc)
             (ole_summaryinfo_present acc) (ole_expected_streams_present acc))
    else
      let name_raw := slice entry 0 128 in
      name_len ← u16 entry 0x40;
      let name_len := if 128 <? name_len then 128 else name_len in
      let name_len := if name_len `mod` 2 =? 1 then name_len - 1 else name_len in
      let name_len := if name_len <? 0 then 0 else name_len in
      obj_type ← of_option (index entry 0x42);
      if negb (bool_decide (obj_type ∈ [0; 1; 2; 5])) then
        Ret (DirInfo false (ole_stream_count acc) (ole_root_entry_present acc)
               (ole_summaryinfo_present acc) (ole_expected_streams_present acc))
      else
        let root := if obj_type =? 5 then true else ole_root_entry_present acc in
        let count := if obj_type =? 2 then ole_stream_count acc + 1
                     else ole_stream_count acc in
        let name :=
          if 0 <? name_len
          then rstrip_nul (decode_units (utf16_units (slice name_raw 0 name_len)))
          else [] in
        let summary := if bool_decide (name = SUMMARY_INFORMATION) then true
                       else ole_summaryinfo_present acc in
        let expected := if bool_decide (name ∈ EXPECTED_STREAMS) then true
                        else ole_expected_streams_present acc in
        scan_entries rest (DirInfo (ole_dir_ok acc) count root summary expected)
  end.

Definition parse_directory_stream (dir_bytes : bytes) : run dir_info :=
  if len dir_bytes <? DIR_ENTRY_SIZE then Ret (DirInfo false 0 false false false)
  else
    let n_entries := len dir_bytes `div` DIR_ENTRY_SIZE in
    scan_entries (dir_entries (Z.to_nat n_entries) dir_bytes)
      (DirInfo false 0 false false false).

Definition mini_fat_ok (data : bytes) (H : header) (fat : list Z) : bool :=
  if (num_minifat_sectors H =? 0)
     || bool_decide (first_minifat H = FREESECT ∨ first_minifat H = ENDOFCHAIN)
  then true
  else
    let buf := read_sector data (sector_size H) (first_minifat H) in
    if negb (len buf =? sector_size H) || negb (len buf `mod` 4 =? 0)
    then false else true.

(** The body of the [try] block of [parse_ole2]. *)
Definition parse_ole2_try (data : bytes) : run presult :=
  oH ← parse_header data;
  match oH with
  | None => Ret PNone
  | Some H =>
    '(fat, fat_ok) ← build_fat data H;
    dir_stream ← follow_chain data (sector_size H) fat (first_dir_sector H);
    d ← parse_directory_stream dir_stream;
    let ole_mini_fat_ok := mini_fat_ok data H fat in
    let parser_ok :=
      ole_dir_ok d && ole_root_entry_present d && fat_ok
      && (1 <=? ole_stream_count d) in
    let structure_consistent :=
      parser_ok
      && (ole_expected_streams_present d || ole_summaryinfo_present d)
      && (ole_mini_fat_ok || (ole_stream_count d <=? 1)) in
    Ret (PDict
      {[ "ole_dir_ok" := VBool (ole_dir_ok d);
         "ole_stream_count" := VInt (ole_stream_count d);
         "ole_fat_ok" := VBool fat_ok;
         "ole_mini_fat_ok" := VBool ole_mini_fat_ok;
         "ole_root_entry_present" := VBool (ole_root_entry_present d);
         "ole_summaryinfo_present" := VBool (ole_summaryinfo_present d);
         "ole_expected_streams_present" := VBool (ole_expected_streams_present d);
         "parser_ok" := VBool parser_ok;
         "structure_consistent" := VBool structure_consistent ]})
  end.

(** [parse_ole2]: the [except] clause returns the default record. The loops
    of the [try] block never run out of fuel (shown below), so the last case
    does not arise. *)
Definition parse_ole2 (data : bytes) : presult :=
  match parse_ole2_try data with
  | Ret r => r
  | Raise => PDict DEF_RETURN
  | Diverge => PRaise
  end.

End Ole2.

(** ** parsers_A/zip_feat.py *)

Module Zip.

Definition EOCD_SIG : Z := 0x06054B50.
Definition CDH_SIG : Z := 0x02014B50.
Definition LFH_SIG : Z := 0x04034B50.

Definition MAX_EOCD_SEARCH : Z := 0x10000 + 22.

Definition DEF_RETURN : gmap string pyval :=
  {[ "zip_central_dir_ok" := VBool false;
     "zip_cd_offset_ok" := VBool false;
     "zip_entry_count" := VInt 0;
     "zip_has_content_types" := VBool false;
     "zip_comment_len" := VInt 0;
     "zip_names_utf8_fraction" := VFloat (FLit 0);
     "zip_crc_present_fraction" := VFloat (FLit 0);
     "parser_ok" := VBool false;
     "structure_consistent" := VBool false ]}.

(** [read_bytes(path, offset, size)] for [0 <= size]. *)
Definition read_bytes (file : bytes) (offset size : Z) : bytes :=
  let end_ := len file in
  if (offset <? 0) || (end_ <=? offset) then []
  else slice file offset (offset + Z.min size (end_ - offset)).

Definition file_size (file : bytes) : Z := len file.

(** [b'PK\x05\x06'] *)
Definition EOCD_MAGIC : bytes := [x50; x4b; x05; x06].

(** [hay.rfind(needle)] for a non-empty [needle]: the highest index at
    which [needle] occurs, [None] for Python's [-1]. [i] is the index of the
    head of [hay], [last] the highest match before it. *)
Fixpoint rfind_from (hay needle : bytes) (i : Z) (last : option Z) : option Z :=
  match hay with
  | [] => last
  | _ :: rest =>
    rfind_from rest needle (i + 1)
      (if startswith hay needle then Some i else last)
  end.

Definition rfind (hay needle : bytes) : option Z := rfind_from hay needle 0 None.

(** [find_eocd]: [None] is the pair [(None, None)]. *)
Definition find_eocd (file : bytes) (fsize : Z) : option (Z * bytes) :=
  let search := Z.min MAX_EOCD_SEARCH fsize in
  let tail := read_bytes file (fsize - search) search in
  match rfind tail EOCD_MAGIC with
  | None => None
  | Some idx =>
    let pos := fsize - search + idx in
    let eocd := read_bytes file pos 22 in
    if len eocd <? 22 then None else Some (pos, eocd)
  end.

(** The dict returned by [parse_eocd]. *)
Record eocd_fields : Type := Eocd {
  entries_total : Z;
  cd_size : Z;
  cd_offset : Z;
  comment_len : Z
}.

Definition parse_eocd (eocd : bytes) : run (option eocd_fields) :=
  sig ← of_option (unpack_le 4 eocd 0);
  if negb (sig =? EOCD_SIG) then Ret None
  else
    _ ← of_option (unpack_le 18 eocd 4);
    entries_total ← of_option (unpack_le 2 eocd 10);
    cd_size ← of_option (unpack_le 4 eocd 12);
    cd_offset ← of_option (unpack_le 4 eocd 16);
    comment_len ← of_option (unpack_le 2 eocd 20);
    Ret (Some (Eocd entries_total cd_size cd_offset comment_len)).

(** One yielded tuple [(ok, name, gpbf, crc)]; [ok] is always [True]. *)
Record cd_entry : Type := CdEntry { e_name : bytes; e_gpbf : Z; e_crc : Z }.

(** The [while] loop of the generator [iter_central_directory] over the
    central directory bytes [data]. *)
Fixpoint cd_walk (fuel : nat) (data : bytes) (expected_entries : Z)
    (pos count : Z) : run (list cd_entry) :=
  match fuel with
  | O => Diverge
  | S fuel' =>
    if pos + 46 <=? len data then
      sig ← of_option (unpack_le 4 data pos);
      if negb (sig =? CDH_SIG) then Ret []
      else
        _ ← of_option (unpack_le 42 data (pos + 4));
        gpbf ← of_option (unpack_le 2 data (pos + 8));
        crc32 ← of_option (unpack_le 4 data (pos + 16));
        fname_len ← of_option (unpack_le 2 data (pos + 28));
        extra_len ← of_option (unpack_le 2 data (pos + 30));
        comment_len ← of_option (unpack_le 2 data (pos + 32));
        let name_start := pos + 46 in
        let name_end := name_start + fname_len in
        if len data <? name_end then Ret []
        else
          let name := slice data name_start name_end in
          let total_len := 46 + fname_len + extra_len + comment_len in
          let pos := pos + total_len in
          let count := count + 1 in
          let e := CdEntry name gpbf crc32 in
          if negb (expected_entries =? 0) && (expected_entries <=? count)
          then Ret [e]
          else
            rest ← cd_walk fuel' data expected_entries pos count;
            Ret (e :: rest)
    else Ret []
  end.

(** Every pass moves [pos] forward by at least 46 bytes, so one unit of
    fuel per byte of the directory is more than enough. *)
Definition iter_central_directory (file : bytes)
    (cd_offset cd_size expected_entries : Z) : run (list cd_entry) :=
  let data := read_bytes file cd_offset cd_size in
  cd_walk (S (length data)) data expected_entries 0 0.

(** [b'[Content_Types].xml'] *)
Definition CONTENT_TYPES : bytes := lit "[Content_Types].xml".

(** Counters of the [for] loop of [parse_zip]. *)
Record zip_counts : Type := ZipCounts {
  entry_count : Z;
  utf8_count : Z;
  crc_present_count : Z;
  has_content_types : bool
}.

Definition count_entry (c : zip_counts) (e : cd_entry) : zip_counts :=
  ZipCounts (entry_count c + 1)
    (if negb (Z.land (e_gpbf e) 0x0800 =? 0) then utf8_count c + 1
     else utf8_count c)
    (if negb (e_crc e =? 0) then crc_present_count c + 1
     else crc_present_count c)
    (if bytes_eqb (e_name e) CONTENT_TYPES then true else has_content_types c).

(** The body of the [try] block of [parse_zip]. *)
Definition parse_zip_try (file : bytes) : run presult :=
  let fsize := file_size file in
  match find_eocd file fsize with
  | None => Ret PNone
  | Some (eocd_pos, eocd) =>
    oe ← parse_eocd eocd;
    match oe with
    | None => Ret PNone
    | Some e =>
      zip_cd_offset_ok ←
        (if cd_offset e + cd_size e <=? fsize then
           sig ← of_option (unpack_le 4 (read_bytes file (cd_offset e) 4) 0);
           Ret (sig =? CDH_SIG)
         else Ret false);
      entries ← iter_central_directory file (cd_offset e) (cd_size e)
                  (entries_total e);
      let c := foldl count_entry (ZipCounts 0 0 0 false) entries in
      let zip_central_dir_ok :=
        ((entries_total e =? 0) && (entry_count c =? 0))
        || (entry_count c =? entries_total e) in
      let utf8_fraction :=
        if 0 <? entry_count c then FDivInt (utf8_count c) (entry_count c)
        else FLit 0 in
      let crc_fraction :=
        if 0 <? entry_count c then FDivInt (crc_present_count c) (entry_count c)
        else FLit 0 in
      let parser_ok :=
        zip_central_dir_ok && zip_cd_offset_ok && (1 <=? entry_count c) in
      let structure_consistent := parser_ok && fl_ge crc_fraction (65 # 100) in
      Ret (PDict
        {[ "zip_central_dir_ok" := VBool zip_central_dir_ok;
           "zip_cd_offset_ok" := VBool zip_cd_offset_ok;
           "zip_entry_count" := VInt (entry_count c);
           "zip_has_content_types" := VBool (has_content_types c);
           "zip_comment_len" := VInt (comment_len e);
           "zip_names_utf8_fraction" := VFloat (FRound6 utf8_fraction);
           "zip_crc_present_fraction" := VFloat (FRound6 crc_fraction);
           "parser_ok" := VBool parser_ok;
           "structure_consistent" := VBool structure_consistent ]})
    end
  end.

(** [parse_zip]: the [except] clause returns the default record. The loop
    of the [try] block never runs out of fuel (shown below). *)
Definition parse_zip (file : bytes) : presult :=
  match parse_zip_try file with
  | Ret r => r
  | Raise => PDict DEF_RETURN
  | Diverge => PRaise
  end.

End Zip.

(** ** The file and the configuration *)

(** A file as the extractor sees it: its bytes and, for the OOXML probe of
    the sniffer, what [zipfile.ZipFile(path).namelist()] reports ([None]
    when [zipfile] raises, as it does on anything that is not an archive). *)
Record file : Type := File {
  content : bytes;
  namelist : option (list string)
}.

(** An entry of a section of [cfg["features"]]: a dict with its [name] and
    [type] keys ([None] when absent), or something that is not a dict. *)
Inductive yitem : Type :=
| YItem (name typ : option string)
| YOther.

(** The value of a section: a list of entries, another iterable value (a
    mapping or a string, whose elements are not dicts), or a value that
    cannot be iterated ([null], a number). *)
Inductive ysection : Type :=
| SecList (items : list yitem)
| SecIterable
| SecScalar.

#[global] Instance yitem_eq_decision : EqDecision yitem.
Proof. solve_decision. Defined.

#[global] Instance ysection_eq_decision : EqDecision ysection.
Proof. solve_decision. Defined.

(** The parsed configuration. An absent key of [global.*] is [None]; the
    sections of [features] are in the order of the mapping, whose keys are
    distinct. *)
Record config : Type := Config {
  head_bytes : option Z;
  tail_bytes : option Z;
  enabled_families : list string;
  fallback_max_attempts : option Z;
  features : list (string * ysection)
}.

(** ** sniff.py *)

Module Sniff.

Definition _is_pdf (h : bytes) : bool := startswith h (lit "%PDF-").
Definition _is_png (h : bytes) : bool :=
  startswith h [x89; x50; x4e; x47; x0d; x0a; x1a; x0a].
Definition _is_jpeg (h : bytes) : bool := startswith h [xff; xd8; xff].
Definition _is_gzip (h : bytes) : bool :=
  (3 <=? len h) && bytes_eqb (slice h 0 3) [x1f; x8b; x08].
Definition _is_ole2 (h : bytes) : bool :=
  startswith h [xd0; xcf; x11; xe0; xa1; xb1; x1a; xe1].
Definition _is_zip (h : bytes) : bool :=
  startswith h [x50; x4b; x03; x04] || startswith h [x50; x4b; x05; x06]
  || startswith h [x50; x4b; x07; x08].
Definition _is_rar (h : bytes) : bool :=
  startswith h (lit "Rar!" ++ [x1a; x07; x00])
  || startswith h (lit "Rar!" ++ [x1a; x07; x01; x00]).
Definition _is_mp4 (h : bytes) : bool :=
  (12 <=? len h) && bytes_eqb (slice h 4 8) (lit "ftyp").

Definition _is_gif (h : bytes) : bool :=
  startswith h (lit "GIF87a") || startswith h (lit "GIF89a").
Definition _is_webp (h : bytes) : bool :=
  (12 <=? len h) && bytes_eqb (slice h 0 4) (lit "RIFF")
  && bytes_eqb (slice h 8 12) (lit "WEBP").
Definition _is_mp3 (h : bytes) : bool :=
  if startswith h (lit "ID3") then true
  else (2 <=? len h)
       && bool_decide (index h 0 = Some 0xFF)
       && bool_decide ((λ b, Z.land b 0xE0) <$> index h 1 = Some 0xE0).
Definition _is_wav (h : bytes) : bool :=
  (12 <=? len h) && bytes_eqb (slice h 0 4) (lit "RIFF")
  && bytes_eqb (slice h 8 12) (lit "WAVE").
Definition _is_flac (h : bytes) : bool := startswith h (lit "fLaC").
Definition _is_bzip2 (h : bytes) : bool := startswith h (lit "BZh").
Definition _is_lz4 (h : bytes) : bool := startswith h [x04; x22; x4d; x18].
Definition _is_zstd (h : bytes) : bool := startswith h [x28; xb5; x2f; xfd].
Definition _is_sqlite (h : bytes) : bool :=
  startswith h (lit "SQLite format 3" ++ [x00]).
Definition _is_pe (h : bytes) : bool := startswith h (lit "MZ").
Definition _is_elf (h : bytes) : bool := startswith h (x7f :: lit "ELF").
(** The second literal of the source, [b"\x37\x7A\xBC\AF\x27\x1C"], holds a
    backslash followed by the letters A and F. *)
Definition _is_7z (h : bytes) : bool :=
  startswith h [x37; x7a; xbc; xaf; x27; x1c]
  || startswith h [x37; x7a; xbc; x5c; x41; x46; x27; x1c].
Definition _is_tar (head whole : bytes) : bool :=
  let blob := if 265 <=? len head then head else head ++ whole in
  (265 <=? len blob)
  && (bytes_eqb (slice blob 257 263) (lit "ustar" ++ [x00])
      || bytes_eqb (slice blob 257 263) (lit "ustar" ++ [x20])).

(** [s.startswith(p)] on strings. *)
Definition str_startswith (s p : string) : bool :=
  bool_decide (String.substring 0 (String.length p) s = p).

Definition _zip_looks_like_ooxml (f : file) : bool :=
  match namelist f with
  | None => false
  | Some names =>
    if bool_decide ("[Content_Types].xml" ∈ names) then
      existsb (λ n, str_startswith n "word/" || str_startswith n "xl/"
                    || str_startswith n "ppt/") names
    else false
  end.

(** [f.read(n)]: everything when [n] is negative. *)
Definition read_n (b : bytes) (n : Z) : bytes :=
  if n <? 0 then b else take (Z.to_nat n) b.

Definition family (enabled : list string) (head : bytes) (f : file) : string :=
  let on (fam : string) := bool_decide (fam ∈ enabled) in
  if on "pdf" && _is_pdf head then "pdf"
  else if on "png" && _is_png head then "png"
  else if on "jpeg" && _is_jpeg head then "jpeg"
  else if on "gzip" && _is_gzip head then "gzip"
  else if on "ole2" && _is_ole2 head then "ole2"
  else if on "rar" && _is_rar head then "rar"
  else if on "mp4" && _is_mp4 head then "mp4"
  else if (on "zip" || on "ooxml") && _is_zip head then
    if on "ooxml" && _zip_looks_like_ooxml f then "ooxml"
    else if on "zip" then "zip" else "other"
  else "other".

Definition magic (head tail : bytes) (f : file) : bool * string :=
  if _is_pdf head then (true, "pdf")
  else if _is_png head then (true, "png")
  else if _is_jpeg head then (true, "jpeg")
  else if _is_gzip head then (true, "gzip")
  else if _is_ole2 head then (true, "ole2")
  else if _is_rar head then (true, "rar")
  else if _is_mp4 head then (true, "mp4")
  else if _is_zip head then
    (true, if _zip_looks_like_ooxml f then "ooxml" else "zip")
  else
    let whole := if 265 <=? len head then head else head ++ tail in
    if _is_gif head || _is_webp head || _is_mp3 head || _is_wav head
       || _is_flac head || _is_bzip2 head || _is_lz4 head || _is_zstd head
       || _is_sqlite head || _is_tar head whole || _is_pe head
       || _is_elf head || _is_7z head
    then
      (true,
       if _is_gif head then "gif"
       else if _is_webp head then "webp"
       else if _is_mp3 head then "mp3"
       else if _is_wav head then "wav"
       else if _is_flac head then "flac"
       else if _is_bzip2 head then "bzip2"
       else if _is_lz4 head then "lz4"
       else if _is_zstd head then "zstd"
       else if _is_sqlite head then "sqlite"
       else if _is_tar head whole then "tar"
       else if _is_pe head then "pe"
       else if _is_elf head then "elf"
       else if _is_7z head then "7z"
       else "unknown")
    else (false, "unknown").

(** [sniff(path, cfg)] *)
Definition sniff (f : file) (cfg : config) : gmap string pyval :=
  let head_bytes := default 16384 (head_bytes cfg) in
  let tail_bytes := default 16384 (tail_bytes cfg) in
  let enabled := enabled_families cfg in
  let fallback := default 0 (fallback_max_attempts cfg) in
  let size := len (content f) in
  let head := read_n (content f) head_bytes in
  let tail :=
    if tail_bytes <=? size
    then read_n (drop (Z.to_nat (size - tail_bytes)) (content f)) tail_bytes
    else head in
  let fam := family enabled head f in
  let '(magic_ok, magic_family) := magic head tail f in
  let log_size :=
    if 0 <? size then FLog10 (FOfInt (size + 1)) else FLit 0 in
  {[ "format_family" := VStr fam;
     "magic_ok" := VBool magic_ok;
     "magic_family" := VStr magic_family;
     "size_bytes" := VInt size;
     "log_size" := VFloat log_size;
     "fallback_max_attempts" := VInt fallback ]}.

End Sniff.

(** ** Schema collection *)

(** Python truthiness of [it.get("name")] and [it.get("type")]: [None] and
    the empty string are false. *)
Definition truthy (o : option string) : option string :=
  match o with
  | Some s => if bool_decide (s = "") then None else Some s
  | None => None
  end.

(** State of the loops of [collect_schema]: the columns in order (the set
    [seen] holds the same names) and the types. *)
Definition schema_acc : Type := list string * gmap string string.

(** One entry of a section, as in [collect_schema] of extract.py and
    [_collect_schema] of features_a.py. *)
Definition collect_item (acc : schema_acc) (it : yitem) : schema_acc :=
  match it with
  | YOther => acc
  | YItem name typ =>
    match truthy name with
    | None => acc
    | Some name =>
      if bool_decide (name ∈ acc.1) then acc
      else (acc.1 ++ [name],
            match truthy typ with
            | Some t => <[name := t]> acc.2
            | None => acc.2
            end)
    end
  end.

Definition collect_section (acc : schema_acc) (sec : string * ysection)
  : schema_acc :=
  match sec.2 with
  | SecList items => foldl collect_item acc items
  | _ => acc
  end.

(** [collect_schema(cfg)] of extract.py: [(cols, types)]. *)
Definition collect_schema (cfg : config) : schema_acc :=
  foldl collect_section ([], ∅) (features cfg).

(** ** features_a.py *)

Module AggregatorA.

Definition _COMMON_KEYS : list string :=
  ["size_bytes"; "log_size"; "magic_ok"; "format_family"; "magic_family"].

(** The same function as [collect_schema] of extract.py. *)
Definition _collect_schema (cfg : config) : schema_acc :=
  foldl collect_section ([], ∅) (features cfg).

(** [d.get(k)] *)
Definition get (d : gmap string pyval) (k : string) : pyval :=
  default VNone (d !! k).

(** [d.setdefault(k, None)] *)
Definition setdefault_none (k : string) (d : gmap string pyval)
  : gmap string pyval :=
  match d !! k with Some _ => d | None => <[k := VNone]> d end.

(** [{**common, **parser_feats}] after the two [setdefault] calls. *)
Definition merged (sniffer parser_feats : gmap string pyval)
  : gmap string pyval :=
  let common : gmap string pyval :=
    list_to_map ((λ k, (k, get sniffer k)) <$> _COMMON_KEYS) in
  let parser_feats :=
    setdefault_none "structure_consistent"
      (setdefault_none "parser_ok" parser_feats) in
  parser_feats ∪ common.

(** [AggregatorA(cfg).collect(path, sniffer=..., parser_feats=...)] *)
Definition collect (cfg : config) (sniffer parser_feats : gmap string pyval)
  : gmap string pyval :=
  let m := merged sniffer parser_feats in
  let cols := (_collect_schema cfg).1 in
  list_to_map ((λ name, (name, get m name)) <$> cols).

End AggregatorA.

(** ** features_b.py *)

Module AggregatorB.

(** [s.endswith("_enc")] *)
Definition ends_with_enc (s : string) : bool :=
  let n := String.length s in
  bool_decide (String.substring (n - 4) 4 s = "_enc") && (4 <=? n)%nat.

(** The three results of [_collect_schema]. *)
Record schema : Type := Schema {
  family_columns : gmap string (list string);
  columns : list string;
  column_types : gmap string string
}.

(** The inner loop: the columns of the section, and the global ones. *)
Definition collect_item (acc : list string * schema_acc) (it : yitem)
  : list string * schema_acc :=
  match it with
  | YOther => acc
  | YItem name typ =>
    match truthy name with
    | None => acc
    | Some name =>
      let cols := acc.1 ++ [name] in
      if bool_decide (name ∈ acc.2.1) then (cols, acc.2)
      else (cols,
            (acc.2.1 ++ [name],
             match truthy typ with
             | Some t => <[name := t]> acc.2.2
             | None => acc.2.2
             end))
    end
  end.

Definition collect_section (acc : schema) (sec : string * ysection) : schema :=
  match sec.2 with
  | SecList items =>
    if ends_with_enc sec.1 then
      let '(cols, (all, types)) :=
        foldl collect_item ([], (columns acc, column_types acc)) items in
      Schema (<[sec.1 := cols]> (family_columns acc)) all types
    else acc
  | _ => acc
  end.

Definition _collect_schema (cfg : config) : schema :=
  foldl collect_section (Schema ∅ [] ∅) (features cfg).

(** [AggregatorB(cfg).collect(family, enc_feats=...)] *)
Definition collect (s : schema) (family : string)
    (enc_feats : gmap string pyval) : gmap string pyval :=
  let cols := default [] (family_columns s !! family) in
  match cols with
  | [] => ∅
  | _ => list_to_map ((λ name, (name, AggregatorA.get enc_feats name)) <$> cols)
  end.

End AggregatorB.

(** ** features_c.py *)

Module AggregatorC.

Definition CHUNK_SIZE : Z := 64 * 1024.
Definition SEGMENT_SIZE : Z := 32 * 1024.

(** [(cfg.get("features", {}) or {}).get("statistic", [])] *)
Definition statistic_section (cfg : config) : ysection :=
  default (SecList [])
    ((list_to_map (features cfg) : gmap string ysection) !! "statistic").

Definition collect_item (acc : schema_acc) (it : yitem) : schema_acc :=
  match it with
  | YOther => acc
  | YItem name typ =>
    match truthy name with
    | None => acc
    | Some name =>
      (acc.1 ++ [name],
       match truthy typ with
       | Some t => <[name := t]> acc.2
       | None => acc.2
       end)
    end
  end.

(** [collect_schema(cfg)]; [None] is the [TypeError] of iterating a value
    that is not iterable. *)
Definition collect_schema (cfg : config) : option schema_acc :=
  match statistic_section cfg with
  | SecList items => Some (foldl collect_item ([], ∅) items)
  | SecIterable => Some ([], ∅)
  | SecScalar => None
  end.

(** [entropy_from_counts] *)
Definition entropy_from_counts (counts : list Z) (total : Z) : option pyfloat :=
  if total =? 0 then None
  else
    Some (foldl (λ entropy cnt,
                   if cnt =? 0 then entropy
                   else let p := FDivInt cnt total in
                        FSub entropy (FMul p (FLog2 p)))
                (FLit 0) counts).

(** [counts = [0] * 256; for b in data: counts[b] += 1] *)
Definition count_bytes (counts : list Z) (data : bytes) : list Z :=
  foldl (λ counts b, alter (λ c, c + 1) (Z.to_nat (bv b)) counts) counts data.

Definition entropy_from_bytes (data : bytes) : option pyfloat :=
  let n := len data in
  if n =? 0 then None
  else entropy_from_counts (count_bytes (replicate 256 0) data) n.

(** [max(counts)] of a list of counts, which are not negative. *)
Definition max_count (counts : list Z) : Z := foldr Z.max 0 counts.

Definition min_entropy (counts : list Z) (total : Z) : option pyfloat :=
  if total =? 0 then None
  else
    let m := max_count counts in
    if m =? 0 then None
    else Some (FNeg (FLog2 (FDivInt m total))).

Definition chi_square (counts : list Z) (total : Z) : option pyfloat :=
  if total =? 0 then None
  else
    let expected := FDiv (FOfInt total) (FLit 256) in
    if fl_is_zero expected then None
    else
      Some (foldl (λ chi2 cnt,
                     let diff := FSub (FOfInt cnt) expected in
                     FAdd chi2 (FDiv (FMul diff diff) expected))
                  (FLit 0) counts).

Definition index_of_coincidence (counts : list Z) (total : Z)
  : option pyfloat :=
  if total <=? 1 then None
  else
    let numerator := foldr Z.add 0 ((λ cnt, cnt * (cnt - 1)) <$> counts) in
    let denominator := total * (total - 1) in
    if denominator =? 0 then None
    else Some (FDivInt numerator denominator).

(** The successive results of [f.read(CHUNK_SIZE)] up to the empty one;
    [n] bounds their number. *)
Fixpoint file_chunks (n : nat) (rest : bytes) : list bytes :=
  match n with
  | O => []
  | S n' =>
    match rest with
    | [] => []
    | _ =>
      take (Z.to_nat CHUNK_SIZE) rest
        :: file_chunks n' (drop (Z.to_nat CHUNK_SIZE) rest)
    end
  end.

(** Loop state of [byte_statistics]: [(counts, total, head, tail)]. *)
Record stats : Type := Stats {
  counts : list Z;
  total : Z;
  head : bytes;
  tail : bytes
}.

(** [tail.extend(chunk)] on a [deque] of bounded length. *)
Definition deque_extend (maxlen : Z) (d chunk : bytes) : bytes :=
  let all := d ++ chunk in
  drop (Z.to_nat (len all - maxlen)) all.

Definition read_chunk (s : stats) (chunk : bytes) : stats :=
  Stats (count_bytes (counts s) chunk)
        (total s + len chunk)
        (if len (head s) <? SEGMENT_SIZE
         then head s ++ slice chunk 0 (SEGMENT_SIZE - len (head s))
         else head s)
        (deque_extend SEGMENT_SIZE (tail s) chunk).

Definition byte_statistics (f : file) : stats :=
  foldl read_chunk (Stats (replicate 256 0) 0 [] [])
        (file_chunks (length (content f)) (content f)).

(** [stats[name] = value] under [if name in stats]. *)
Definition set_if_declared (name : string) (value : option pyfloat)
    (stats : gmap string pyval) : gmap string pyval :=
  match stats !! name with
  | Some _ => <[name := from_option VFloat VNone value]> stats
  | None => stats
  end.

(** [AggregatorC(cfg).collect(path)] for the columns computed by
    [__init__]. Reading the file does not fail in this model. *)
Definition collect (columns : list string) (f : file) : gmap string pyval :=
  match columns with
  | [] => ∅
  | _ =>
    let stats : gmap string pyval :=
      list_to_map ((λ name, (name, VNone)) <$> columns) in
    let s := byte_statistics f in
    let stats := set_if_declared "entropy_global"
                   (entropy_from_counts (counts s) (total s)) stats in
    let stats := set_if_declared "min_entropy_global"
                   (min_entropy (counts s) (total s)) stats in
    let stats := set_if_declared "entropy_head"
                   (entropy_from_bytes (head s)) stats in
    let stats := set_if_declared "entropy_tail"
                   (entropy_from_bytes (tail s)) stats in
    let stats := set_if_declared "byte_chi2"
                   (chi_square (counts s) (total s)) stats in
    let stats := set_if_declared "ic_index"
                   (index_of_coincidence (counts s) (total s)) stats in
    stats
  end.

End AggregatorC.

(** ** parser_registry.py *)

(** A registered parser is called on the path of the file. *)
Definition file_parser : Type := file → presult.

(** The two registries [PARSERS_A] and [PARSERS_B], filled at import time
    from the modules found under parsers_A/ and parsers_B/. *)
Record registry : Type := Registry {
  PARSERS_A : gmap string file_parser;
  PARSERS_B : gmap string file_parser
}.

Definition get_parser (reg : registry) (family : string) : option file_parser :=
  PARSERS_A reg !! family.

Definition get_parser_enc (reg : registry) (family : string)
  : option file_parser :=
  PARSERS_B reg !! family.

(** ** extract.py *)

Module Extract.

(** ASCII lower case; on the type names compared below it agrees with
    [str.lower]. *)
Definition ascii_lower (c : ascii) : ascii :=
  let n := nat_of_ascii c in
  if (65 <=? n)%nat && (n <=? 90)%nat then ascii_of_nat (n + 32) else c.

Fixpoint lower (s : string) : string :=
  match s with
  | EmptyString => EmptyString
  | String c r => String (ascii_lower c) (lower r)
  end.

(** [int(val)], [float(val)] and [str(val)] inside the [try] block, keeping
    [val] when the call raises. Conversions between bool, int and str that
    have an evident value are computed; the others stay as [VConv]. *)
Definition to_int (val : pyval) : pyval :=
  match val with
  | VBool b => VInt (if b then 1 else 0)
  | VInt z => VInt z
  | _ => VConv ToInt val
  end.

Definition to_float (val : pyval) : pyval :=
  match val with
  | VFloat x => VFloat x
  | _ => VConv ToFloat val
  end.

Definition to_str (val : pyval) : pyval :=
  match val with
  | VStr s => VStr s
  | VBool b => VStr (if b then "True" else "False")
  | _ => VConv ToStr val
  end.

Definition normalize_value (val : pyval) (typ : string) : pyval :=
  match val with
  | VNone => VNone
  | _ =>
    let t := lower typ in
    if bool_decide (t = "bool") then val
    else if bool_decide (t = "int") then to_int val
    else if bool_decide (t = "float") then to_float val
    else if bool_decide (t = "string") then to_str val
    else val
  end.

(** The fields of [ExtractContext] that [extract_feats] reads. *)
Record context : Type := Context {
  cfg : config;
  columns : list string;
  column_types : gmap string string;
  agg_b : AggregatorB.schema;
  agg_c_columns : list string
}.

(** [ExtractContext(cfg)]; [None] when [AggregatorC(cfg)] raises. *)
Definition ExtractContext (cfg : config) : option context :=
  c ← AggregatorC.collect_schema cfg;
  Some (Context cfg (collect_schema cfg).1 (collect_schema cfg).2
          (AggregatorB._collect_schema cfg) c.1).

(** Calls made to registered parsers, in order. *)
Inductive event : Type :=
| CallParser (family : string)
| CallEncParser (family : string).

(** How [extract_feats] ends. The lists of a mismatch are the ones of the
    error message (the keys of [extra] in no particular order). *)
Inductive outcome : Type :=
| Ok (record : gmap string pyval)
| SchemaMismatch (missing extra : list string)
| ConfigError.

(** The substitute for the features of a parser that is missing or
    failed. *)
Definition NO_PARSER_FEATS : gmap string pyval :=
  {[ "parser_ok" := VNone; "structure_consistent" := VNone ]}.

(** Step 2: [dict(parser(file_path)) or {}] under [try]. *)
Definition structural_feats (reg : registry) (fam : string) (f : file)
  : list event * gmap string pyval :=
  match get_parser reg fam with
  | None => ([], NO_PARSER_FEATS)
  | Some parser =>
    ([CallParser fam],
     match parser f with
     | PDict d => d
     | PNone | PRaise => NO_PARSER_FEATS
     end)
  end.

(** Step 3: the encryption parser runs only under
    [agg_feats.get("parser_ok") is True]. *)
Definition encryption_feats (reg : registry) (enc_family : string) (f : file)
    (agg_feats : gmap string pyval) : list event * gmap string pyval :=
  match agg_feats !! "parser_ok" with
  | Some (VBool true) =>
    match get_parser_enc reg enc_family with
    | None => ([], ∅)
    | Some enc_parser =>
      ([CallEncParser enc_family],
       match enc_parser f with
       | PDict d => d
       | PNone | PRaise => ∅
       end)
    end
  | _ => ([], ∅)
  end.

(** [for name in columns: agg_feats.setdefault(name, None)] *)
Definition setdefaults (columns : list string) (d : gmap string pyval)
  : gmap string pyval :=
  foldl (λ d name, AggregatorA.setdefault_none name d) d columns.

(** The merged features before reconciliation (steps 1 to 4). *)
Definition merge_feats (reg : registry) (ctx : context) (f : file)
  : list event * gmap string pyval :=
  let snf := Sniff.sniff f (cfg ctx) in
  let fam :=
    match snf !! "format_family" with
    | Some (VStr s) => s
    | _ => "other"
    end in
  let '(ev1, parser_feats) := structural_feats reg fam f in
  let agg_feats := AggregatorA.collect (cfg ctx) snf parser_feats in
  let enc_family := (fam +:+ "_enc")%string in
  let '(ev2, enc_parser_feats) := encryption_feats reg enc_family f agg_feats in
  let agg_enc_feats :=
    AggregatorB.collect (agg_b ctx) enc_family enc_parser_feats in
  let agg_feats := agg_enc_feats ∪ agg_feats in
  let agg_feats := setdefaults (AggregatorB.columns (agg_b ctx)) agg_feats in
  let stat_feats := AggregatorC.collect (agg_c_columns ctx) f in
  let agg_feats := stat_feats ∪ agg_feats in
  let agg_feats := setdefaults (agg_c_columns ctx) agg_feats in
  (ev1 ++ ev2, agg_feats).

(** Steps 5 and 6. *)
Definition reconcile (ctx : context) (agg_feats : gmap string pyval) : outcome :=
  let missing :=
    filter (λ c, c ∉ dom agg_feats) (columns ctx) in
  let extra :=
    filter (λ k, k ∉ columns ctx) (elements (dom agg_feats)) in
  match missing, extra with
  | [], [] =>
    Ok (list_to_map
          ((λ name,
              (name,
               normalize_value (AggregatorA.get agg_feats name)
                 (default "" (column_types ctx !! name))))
             <$> columns ctx))
  | _, _ => SchemaMismatch missing extra
  end.

(** [extract_feats(file_path, cfg)] with the calls it makes. *)
Definition extract_feats (reg : registry) (cfg : config) (f : file)
  : list event * outcome :=
  match ExtractContext cfg with
  | None => ([], ConfigError)
  | Some ctx =>
    let '(ev, agg_feats) := merge_feats reg ctx f in
    (ev, reconcile ctx agg_feats)
  end.

End Extract.

(** ** parsers_A/png_feat.py *)

Module Png.

Definition PNG_SIG : bytes := [x89; x50; x4e; x47; x0d; x0a; x1a; x0a].
Definition MAX_CHUNKS : Z := 100000.
Definition HEADER_LEN : Z := 8.

Definition DEF_RETURN : gmap string pyval :=
  {[ "png_header_ok" := VBool false;
     "png_ihdr_ok" := VBool false;
     "png_chunks_count" := VInt 0;
     "png_idat_count" := VInt 0;
     "png_end_iend_ok" := VBool false;
     "parser_ok" := VBool false;
     "structure_consistent" := VBool false ]}.

(** The dict of the two early [return] statements after the signature
    check, which carries neither [parser_ok] nor [structure_consistent]. *)
Definition short_record (chunks : Z) : gmap string pyval :=
  {[ "png_header_ok" := VBool true;
     "png_ihdr_ok" := VBool false;
     "png_chunks_count" := VInt chunks;
     "png_idat_count" := VInt 0;
     "png_end_iend_ok" := VBool false ]}.

(** [struct.unpack(">I", b)[0]]: [None] is [struct.error], raised when [b]
    is not 4 bytes long. *)
Definition unpack_u32_be (b : bytes) : option Z :=
  if len b =? 4 then Some (be_value b) else None.

(** State of the chunk loop. *)
Record chunks : Type := Chunks {
  pos : Z;
  chunks_count : Z;
  idat_count : Z;
  iend_ok : bool
}.

(** The [while] loop over the chunks after IHDR; [fuel] is
    [MAX_CHUNKS - steps]. *)
Fixpoint chunk_loop (fuel : nat) (data : bytes) (s : chunks) : chunks :=
  match fuel with
  | O => s
  | S fuel' =>
    if pos s + 8 <=? len data then
      match unpack_u32_be (slice data (pos s) (pos s + 4)) with
      | None => s
      | Some length =>
        let ctype := slice data (pos s + 4) (pos s + 8) in
        let next_pos := pos s + 8 + length + 4 in
        if len data <? next_pos then s
        else
          let count := chunks_count s + 1 in
          if bytes_eqb ctype (lit "IDAT") then
            chunk_loop fuel' data
              (Chunks next_pos count (idat_count s + 1) (iend_ok s))
          else if bytes_eqb ctype (lit "IEND") then
            Chunks next_pos count (idat_count s) true
          else
            chunk_loop fuel' data
              (Chunks next_pos count (idat_count s) (iend_ok s))
      end
    else s
  end.

(** The body of the outer [try] block, for a file that could be read. *)
Definition parse_png_try (data : bytes) : gmap string pyval :=
  let png_header_ok := startswith data PNG_SIG in
  if negb png_header_ok || (len data <? HEADER_LEN + 12) then DEF_RETURN
  else
    let pos := HEADER_LEN in
    if pos + 8 <=? len data then
      match unpack_u32_be (slice data pos (pos + 4)) with
      | None => short_record 1
      | Some ihdr_len =>
        let ihdr_type := slice data (pos + 4) (pos + 8) in
        let ihdr_ok :=
          bytes_eqb ihdr_type (lit "IHDR") && (ihdr_len =? 13)
          && (pos + 12 + ihdr_len <=? len data) in
        let seen_ihdr := ihdr_ok in
        let pos := pos + (8 + ihdr_len + 4) in
        let s := chunk_loop (Z.to_nat MAX_CHUNKS) data (Chunks pos 1 0 false) in
        let parser_ok := png_header_ok && ihdr_ok && (2 <=? chunks_count s) in
        let structure_consistent :=
          parser_ok && (1 <=? idat_count s) && iend_ok s in
        {[ "png_header_ok" := VBool png_header_ok;
           "png_ihdr_ok" := VBool (ihdr_ok && seen_ihdr);
           "png_chunks_count" := VInt (chunks_count s);
           "png_idat_count" := VInt (idat_count s);
           "png_end_iend_ok" := VBool (iend_ok s);
           "parser_ok" := VBool parser_ok;
           "structure_consistent" := VBool structure_consistent ]}
      end
    else short_record 0.

(** [parse_png] on a readable file; nothing in the [try] block raises out
    of it in this model. *)
Definition parse_png (data : bytes) : presult := PDict (parse_png_try data).

End Png.

(** ** parsers_A/jpeg_feat.py *)

Module Jpeg.

Definition SOI : Z := 0xD8.
Definition EOI : Z := 0xD9.
Definition SOS : Z := 0xDA.
Definition TEM : Z := 0x01.
Definition RST0 : Z := 0xD0.
Definition RST7 : Z := 0xD7.

Definition SOF_MARKERS : list Z :=
  [0xC0; 0xC1; 0xC2; 0xC3; 0xC5; 0xC6; 0xC7; 0xC9; 0xCA; 0xCB;
   0xCD; 0xCE; 0xCF].

Definition MAX_SEGMENTS : Z := 200000.

Definition DEF_RETURN : gmap string pyval :=
  {[ "jpeg_header_ok" := VBool false;
     "jpeg_sof_present" := VBool false;
     "jpeg_sos_present" := VBool false;
     "jpeg_exif_present" := VBool false;
     "jpeg_segments_count" := VInt 0;
     "parser_ok" := VBool false;
     "structure_consistent" := VBool false ]}.

(** [data.find(b"\xFF", start)] on [rest = data[start:]]: the first index
    from [start] on that holds 0xFF, or -1. *)
Fixpoint find_ff (rest : bytes) (i : Z) : Z :=
  match rest with
  | [] => -1
  | b :: rest' => if bv b =? 0xFF then i else find_ff rest' (i + 1)
  end.

(** [find_next_marker(start)] *)
Definition find_next_marker (data : bytes) (start : Z) : Z :=
  if len data <=? start then -1
  else find_ff (drop (Z.to_nat start) data) start.

(** [while pos < n and data[pos] == 0xFF: pos += 1] on [rest = data[pos:]]. *)
Fixpoint skip_ff (rest : bytes) (pos : Z) : Z :=
  match rest with
  | [] => pos
  | b :: rest' => if bv b =? 0xFF then skip_ff rest' (pos + 1) else pos
  end.

(** State of the segment loop. *)
Record segments : Type := Segments {
  pos : Z;
  segments_count : Z;
  sof_present : bool;
  sos_present : bool;
  exif_present : bool
}.

(** [b"Exif\x00\x00"] *)
Definition EXIF : bytes := lit "Exif" ++ [x00; x00].

(** One pass through the body of the segment loop: [inl] when the loop
    goes on ([continue] or the end of the body), [inr] on [break]. [None]
    is an exception, caught by the outer [except]. *)
Definition segment_step (data : bytes) (s : segments)
  : option (segments + segments) :=
  let n := len data in
  b ← index data (pos s);
  let located : option Z :=
    if negb (b =? 0xFF) then
      if sos_present s then None
      else
        let next_ff := find_next_marker data (pos s) in
        if next_ff =? -1 then None else Some next_ff
    else Some (pos s) in
  match located with
  | None => Some (inr s)
  | Some p =>
    let p := skip_ff (drop (Z.to_nat p) data) p in
    if n <=? p then
      Some (inr (Segments p (segments_count s) (sof_present s)
                   (sos_present s) (exif_present s)))
    else
      marker ← index data p;
      let p := p + 1 in
      let at_ (p : Z) (count : Z) (sof sos exif : bool) :=
        Segments p count sof sos exif in
      if ((RST0 <=? marker) && (marker <=? RST7)) || (marker =? TEM) then
        Some (inl (at_ p (segments_count s + 1) (sof_present s)
                     (sos_present s) (exif_present s)))
      else if marker =? SOI then
        Some (inl (at_ p (segments_count s + 1) (sof_present s)
                     (sos_present s) (exif_present s)))
      else if marker =? EOI then
        Some (inr (at_ p (segments_count s + 1) (sof_present s)
                     (sos_present s) (exif_present s)))
      else if n <? p + 2 then
        Some (inr (at_ p (segments_count s) (sof_present s)
                     (sos_present s) (exif_present s)))
      else
        seg_len ← unpack_be 2 data p;
        let seg_data_start := p + 2 in
        let seg_data_end := seg_data_start + (seg_len - 2) in
        if (seg_len <? 2) || (n <? seg_data_end) then
          Some (inr (at_ p (segments_count s) (sof_present s)
                       (sos_present s) (exif_present s)))
        else
          let sof := if bool_decide (marker ∈ SOF_MARKERS) then true
                     else sof_present s in
          let sos := if marker =? SOS then true else sos_present s in
          let exif :=
            if (marker =? 0xE1) && (seg_data_start + 6 <=? n)
               && bytes_eqb (slice data seg_data_start (seg_data_start + 6)) EXIF
            then true else exif_present s in
          let count := segments_count s + 1 in
          if marker =? SOS then Some (inr (at_ p count sof sos exif))
          else Some (inl (at_ seg_data_end count sof sos exif))
  end.

(** The [while pos < n and steps < MAX_SEGMENTS] loop; [fuel] is
    [MAX_SEGMENTS - steps]. *)
Fixpoint segment_loop (fuel : nat) (data : bytes) (s : segments)
  : option segments :=
  match fuel with
  | O => Some s
  | S fuel' =>
    if pos s <? len data then
      r ← segment_step data s;
      match r with
      | inl s' => segment_loop fuel' data s'
      | inr s' => Some s'
      end
    else Some s
  end.

(** The body of the [try] block, for a file that could be read. *)
Definition parse_jpeg_try (data : bytes) : option (gmap string pyval) :=
  let jpeg_header_ok :=
    (2 <=? len data) && bool_decide (index data 0 = Some 0xFF)
    && bool_decide (index data 1 = Some SOI) in
  if negb jpeg_header_ok then Some DEF_RETURN
  else
    s ← segment_loop (Z.to_nat MAX_SEGMENTS) data (Segments 2 0 false false false);
    let parser_ok :=
      jpeg_header_ok && (sof_present s || sos_present s)
      && (3 <=? segments_count s) in
    let structure_consistent :=
      jpeg_header_ok && sof_present s && sos_present s
      && (4 <=? segments_count s) in
    Some {[ "jpeg_header_ok" := VBool jpeg_header_ok;
            "jpeg_sof_present" := VBool (sof_present s);
            "jpeg_sos_present" := VBool (sos_present s);
            "jpeg_exif_present" := VBool (exif_present s);
            "jpeg_segments_count" := VInt (segments_count s);
            "parser_ok" := VBool parser_ok;
            "structure_consistent" := VBool structure_consistent ]}.

Definition parse_jpeg (data : bytes) : presult :=
  match parse_jpeg_try data with
  | Some d => PDict d
  | None => PDict DEF_RETURN
  end.

End Jpeg.

(** ** parsers_A/rar_feat.py *)

Module Rar.

Definition RAR4_SIG : bytes := lit "Rar!" ++ [x1a; x07; x00].
Definition RAR5_SIG : bytes := lit "Rar!" ++ [x1a; x07; x01; x00].

Definition RAR4_BLOCK_MAIN : Z := 0x73.
Definition RAR4_BLOCK_FILE : Z := 0x74.
Definition RAR4_BLOCK_ENDARC : Z := 0x7b.

Definition RAR4_FLAG_ADD_SIZE : Z := 0x8000.

Definition DEF_RETURN : gmap string pyval :=
  {[ "rar_header_ok" := VBool false;
     "rar_main_header_flags_ok" := VBool false;
     "rar_file_records_count" := VInt 0;
     "parser_ok" := VBool false;
     "structure_consistent" := VBool false ]}.

(** [read_at(fp, offset, size)] for [0 <= size]. *)
Definition read_at (fp : bytes) (offset size : Z) : bytes :=
  let end_ := len fp in
  if (offset <? 0) || (end_ <=? offset) then []
  else slice fp offset (offset + Z.min size (end_ - offset)).

Inductive version : Type := V4 | V5.

(** [detect_rar_version]: [None] is the Python value [None]. *)
Definition detect_rar_version (file : bytes) : option version :=
  let head := take 10 file in
  if startswith head RAR5_SIG then Some V5
  else if startswith head RAR4_SIG then Some V4
  else None.

(** State of the block loop of [parse_rar4]. *)
Record blocks : Type := Blocks {
  pos : Z;
  file_count : Z;
  header_ok : bool;
  main_flags_ok : bool;
  seen_main : bool
}.

(** The [while True] loop over the blocks. The source has no step counter:
    [Diverge] is the model running out of [fuel]. *)
Fixpoint block_loop (fuel : nat) (file : bytes) (s : blocks) : run blocks :=
  match fuel with
  | O => Diverge
  | S fuel' =>
    let size := len file in
    if size <? pos s + 7 then Ret s
    else
      let hdr := slice file (pos s) (pos s + 7) in
      if len hdr <? 7 then Ret s
      else
        head_crc ← of_option (unpack_le 2 hdr 0);
        head_type ← of_option (index hdr 2);
        head_flags ← of_option (unpack_le 2 hdr 3);
        head_size ← of_option (unpack_le 2 hdr 5);
        if head_size <? 7 then Ret s
        else
          let with_add_size (add_size : Z) : run blocks :=
            let block_total := head_size + add_size in
            if size <? pos s + block_total then Ret s
            else
              let is_main := head_type =? RAR4_BLOCK_MAIN in
              let s' :=
                Blocks (pos s + block_total)
                       (if head_type =? RAR4_BLOCK_FILE then file_count s + 1
                        else file_count s)
                       true
                       (if is_main then true else main_flags_ok s)
                       (if is_main then true else seen_main s) in
              if head_type =? RAR4_BLOCK_ENDARC then Ret s'
              else block_loop fuel' file s' in
          if negb (Z.land head_flags RAR4_FLAG_ADD_SIZE =? 0) then
            if size <? pos s + 7 + 4 then Ret s
            else
              add_size ← of_option (unpack_le 4 (read_at file (pos s + 7) 4) 0);
              with_add_size add_size
          else with_add_size 0
  end.

(** [parse_rar4]: the walk starts after the signature when the first 7
    bytes are the signature, at offset 0 otherwise. Every block moves
    [pos] forward, so one unit of fuel per byte is more than enough. *)
Definition parse_rar4 (file : bytes) : run (gmap string pyval) :=
  let data := take 7 file in
  let start := if bytes_eqb data RAR4_SIG then len data else 0 in
  s ← block_loop (S (length file)) file (Blocks start 0 false false false);
  let parser_ok := header_ok s && main_flags_ok s in
  let structure_consistent := parser_ok && (0 <? file_count s) in
  Ret {[ "rar_header_ok" := VBool (header_ok s && seen_main s);
         "rar_main_header_flags_ok" := VBool (main_flags_ok s);
         "rar_file_records_count" := VInt (file_count s);
         "rar_version_5" := VBool false;
         "parser_ok" := VBool parser_ok;
         "structure_consistent" := VBool structure_consistent ]}.

(** [parse_rar5] *)
Definition parse_rar5 (file : bytes) : run (gmap string pyval) :=
  let data := take 64 (drop 8 file) in
  blocks_present ←
    (if 7 <=? len data then
       let block_size := le_value (slice data 0 4) in
       block_type ← of_option (index data 4);
       Ret ((1 <=? block_type) && (block_type <=? 0x7f)
            && (0 <? block_size) && (block_size <? 65536))
     else Ret false);
  Ret {[ "rar_header_ok" := VBool true;
         "rar_main_header_flags_ok" := VBool true;
         "rar_file_records_count" := VInt 0;
         "rar_version_5" := VBool true;
         "parser_ok" := VBool true;
         "structure_consistent" := VBool blocks_present ]}.

(** The body of the [try] block of [parse_rar]. *)
Definition parse_rar_try (file : bytes) : run (gmap string pyval) :=
  match detect_rar_version file with
  | Some V4 => parse_rar4 file
  | Some V5 => parse_rar5 file
  | None => Ret DEF_RETURN
  end.

(** [parse_rar]; the loop of [parse_rar4] never runs out of fuel (shown
    below), so the last case does not arise. *)
Definition parse_rar (file : bytes) : presult :=
  match parse_rar_try file with
  | Ret d => PDict d
  | Raise => PDict DEF_RETURN
  | Diverge => PRaise
  end.

End Rar.

(** ** parsers_A/ooxml_feat.py *)

Module Ooxml.

Definition CONTENT_TYPES : string := "[Content_Types].xml".
Definition CORE_DOCX : string := "word/document.xml".
Definition CORE_XLSX : string := "xl/workbook.xml".
Definition CORE_PPTX : string := "ppt/presentation.xml".

Definition RELS_EARLY_STOP : Z := 20.

Definition DEF_RETURN : gmap string pyval :=
  {[ "ooxml_detected" := VBool false;
     "ooxml_coreparts_present" := VBool false;
     "ooxml_rel_count" := VInt 0;
     "ooxml_pkg_ok" := VBool false;
     "parser_ok" := VBool false;
     "structure_consistent" := VBool false ]}.

(** [s.endswith(suf)] on strings. *)
Definition str_endswith (s suf : string) : bool :=
  let n := String.length s in
  let k := String.length suf in
  (k <=? n)%nat && bool_decide (String.substring (n - k) k s = suf).

(** [n.startswith("word/") or n.startswith("xl/") or n.startswith("ppt/")] *)
Definition in_ooxml_dir (n : string) : bool :=
  Sniff.str_startswith n "word/" || Sniff.str_startswith n "xl/"
  || Sniff.str_startswith n "ppt/".

(** The test on one name in the loop of [fast_detect_ooxml]: the first
    four characters are compared with ["word"], with ["xl/_"[:2]], which is
    ["xl"], and with ["ppt/"], before the three prefixes are tried. *)
Definition dir_hit (n : string) : bool :=
  (4 <=? String.length n)%nat
  && (let p := String.substring 0 4 n in
      bool_decide (p = "word")
      || bool_decide (p = String.substring 0 2 "xl/_")
      || bool_decide (p = "ppt/"))
  && in_ooxml_dir n.

(** [fast_detect_ooxml(names)]:
    [(struct_detected, core_present, has_content_types)]. The loop over
    the set of names stops at the first hit, so that its result does not
    depend on the order. *)
Definition fast_detect_ooxml (names : list string) : bool * bool * bool :=
  let has_content_types := bool_decide (CONTENT_TYPES ∈ names) in
  let core_present :=
    bool_decide (CORE_DOCX ∈ names) || bool_decide (CORE_XLSX ∈ names)
    || bool_decide (CORE_PPTX ∈ names) in
  let has_ooxml_dirs := existsb dir_hit names in
  (has_content_types && (core_present || has_ooxml_dirs),
   core_present, has_content_types).

(** [fast_rel_count(names)]; [cnt] is the count so far. *)
Fixpoint rel_count_from (names : list string) (cnt : Z) : Z :=
  match names with
  | [] => cnt
  | n :: rest =>
    if str_endswith n ".rels" || str_endswith n ".RELS" then
      let cnt := cnt + 1 in
      if RELS_EARLY_STOP <? cnt then RELS_EARLY_STOP + 1
      else rel_count_from rest cnt
    else rel_count_from rest cnt
  end.

Definition fast_rel_count (names : list string) : Z := rel_count_from names 0.

(** [needle in hay] on bytes. *)
Fixpoint contains (hay needle : bytes) : bool :=
  startswith hay needle
  || match hay with
     | [] => false
     | _ :: rest => contains rest needle
     end.

(** [fast_pkg_ok]; [ct_head] is what reading the first 4096 bytes of
    [[Content_Types].xml] from the archive gives, [None] when that raises. *)
Definition fast_pkg_ok (ct_head : option bytes)
    (has_content_types core_present has_ooxml_dirs : bool) : bool :=
  if negb has_content_types then false
  else if negb (core_present || has_ooxml_dirs) then false
  else
    match ct_head with
    | None => false
    | Some head => contains head (lit "<Types") || contains head (lit ":Types")
    end.

(** [parse_ooxml] on what [zipfile] reports for the file: the list of
    names ([None] when the archive cannot be opened) and the head of
    [[Content_Types].xml]. *)
Definition parse_ooxml_on (listing : option (list string))
    (ct_head : option bytes) : gmap string pyval :=
  match listing with
  | None => DEF_RETURN
  | Some names =>
    let '(struct_detected, core_present, has_content_types) :=
      fast_detect_ooxml names in
    let rel_count := fast_rel_count names in
    let has_ooxml_dirs := existsb in_ooxml_dir names in
    let pkg_ok :=
      fast_pkg_ok ct_head has_content_types core_present has_ooxml_dirs in
    let parser_ok :=
      struct_detected && pkg_ok && (core_present || (0 <? rel_count)) in
    let structure_consistent :=
      parser_ok && core_present && (2 <=? rel_count) in
    {[ "ooxml_detected" := VBool struct_detected;
       "ooxml_coreparts_present" := VBool core_present;
       "ooxml_rel_count" := VInt rel_count;
       "ooxml_pkg_ok" := VBool pkg_ok;
       "parser_ok" := VBool parser_ok;
       "structure_consistent" := VBool structure_consistent ]}
  end.

End Ooxml.

(** ** parsers_B/zip_feat_enc.py *)

Module ZipEnc.

Definition DEF_RETURN : gmap string pyval :=
  {[ "zip_any_entry_encrypted" := VBool false;
     "zip_encryption_method" := VStr "";
     "zip_all_headers_encrypted" := VBool false ]}.

(** The fields of a [zipfile.ZipInfo] that the parser reads. *)
Record zipinfo : Type := ZipInfo { flag_bits : Z; extra : bytes }.

Definition is_encrypted (info : zipinfo) : bool :=
  negb (Z.land (flag_bits info) 0x0001 =? 0).

(** The [while] loop of [has_aes_extra] from offset [i]. *)
Fixpoint aes_scan (fuel : nat) (data : bytes) (i : Z) : run bool :=
  match fuel with
  | O => Diverge
  | S fuel' =>
    let n := len data in
    if i + 4 <=? n then
      header_id ← of_option (unpack_le 2 data i);
      sz ← of_option (unpack_le 2 data (i + 2));
      let i := i + 4 in
      if n <? i + sz then Ret false
      else if header_id =? 0x9901 then Ret true
      else aes_scan fuel' data (i + sz)
    else Ret false
  end.

(** [has_aes_extra]: each record moves [i] forward by at least 4. *)
Definition has_aes_extra (info : zipinfo) : run bool :=
  aes_scan (S (length (extra info))) (extra info) 0.

Inductive method : Type := AES | ZipCrypto.

#[global] Instance method_eq_decision : EqDecision method.
Proof. solve_decision. Defined.

(** [entry_enc_method]: [None] is the Python value [None]. *)
Definition entry_enc_method (info : zipinfo) : run (option method) :=
  if negb (is_encrypted info) then Ret None
  else
    has_aes_extra info ≫= λ aes : bool,
      Ret (Some (if aes then AES else ZipCrypto)).

(** Loop state of [parse_zip_enc]; the set [methods_seen] as two flags. *)
Record summary : Type := Summary {
  any_enc : bool;
  all_enc : bool;
  seen_aes : bool;
  seen_zipcrypto : bool
}.

Fixpoint scan_infos (infos : list zipinfo) (s : summary) : run summary :=
  match infos with
  | [] => Ret s
  | info :: rest =>
    let enc := is_encrypted info in
    m ← entry_enc_method info;
    scan_infos rest
      (Summary (any_enc s || enc) (all_enc s && enc)
         (seen_aes s || bool_decide (m = Some AES))
         (seen_zipcrypto s || bool_decide (m = Some ZipCrypto)))
  end.

(** The body of the [try] block of [parse_zip_enc] on the entries that
    [zipfile] lists. *)
Definition summarize (infos : list zipinfo) : run (gmap string pyval) :=
  match infos with
  | [] => Ret DEF_RETURN
  | _ =>
    s ← scan_infos infos (Summary false true false false);
    let '(method, all_enc) :=
      if negb (any_enc s) then (VNone, false)
      else
        (match seen_aes s, seen_zipcrypto s with
         | false, false => VStr "ZipCrypto"
         | true, false => VStr "AES"
         | false, true => VStr "ZipCrypto"
         | true, true => VStr "Mixed"
         end,
         all_enc s) in
    Ret {[ "zip_any_entry_encrypted" := VBool (any_enc s);
           "zip_encryption_method" := method;
           "zip_all_headers_encrypted" := VBool all_enc ]}
  end.

(** [parse_zip_enc] on what [zipfile.ZipFile(path).infolist()] gives,
    [None] when [zipfile] raises. *)
Definition parse_zip_enc_on (infolist : option (list zipinfo))
  : gmap string pyval :=
  match infolist with
  | None => DEF_RETURN
  | Some infos =>
    match summarize infos with
    | Ret d => d
    | Raise | Diverge => DEF_RETURN
    end
  end.

End ZipEnc.

(** * Definitions used to state the properties *)

(** Building example files: [w] little-endian bytes of [z]. *)
Definition byte_of (z : Z) : byte := default x00 (Byte.of_N (Z.to_N z)).

Fixpoint le_bytes (w : nat) (z : Z) : bytes :=
  match w with
  | O => []
  | S w' => byte_of (z `mod` 256) :: le_bytes w' (z `div` 256)
  end.

Definition zeros (n : nat) : bytes := replicate n x00.

(** ** GZIP *)


(** ** MP4 *)

Section Mp4Spec.
Import Mp4.

(** The boxes start where the previous one ended, carry a header of 8 or 16
    bytes that fits in the box, and end inside the container. *)
Fixpoint contiguous_within (limit pos : Z) (bs : list box) : Prop :=
  match bs with
  | [] => True
  | b :: bs' =>
    b_start b = pos ∧ (b_hdr b = 8 ∨ b_hdr b = 16) ∧ b_hdr b ≤ b_size b ∧
    pos + b_size b ≤ limit ∧ contiguous_within limit (pos + b_size b) bs'
  end.

(** Offset [i] is among the bytes obtained by the read [r]. *)
Definition touched (r : read_ev) (i : Z) : Prop :=
  r_off r ≤ i < r_off r + r_got r.

(** All reads of a run of the generator. *)
Definition gen_reads (g : list (read_ev * box) * option read_ev) : list read_ev :=
  (g.1).*1 ++ option_list (g.2).

(** A 24-byte file: a [moov] box of 16 bytes whose only child declares a
    size of 4, followed by an empty [mdat] box. *)
Definition mp4_nested : bytes :=
  [x00; x00; x00; x10] ++ lit "moov" ++
  [x00; x00; x00; x04] ++ lit "free" ++
  [x00; x00; x00; x08] ++ lit "mdat".

End Mp4Spec.

(** ** OLE2 *)

Section Ole2Spec.
Import Ole2.

(** A compound file of one 512-byte sector whose DIFAT chain and FAT chain
    both loop: the header names sector 0 as first DIFAT sector and as first
    directory sector; sector 0 lists itself as FAT sector, maps sector 0 to
    sector 0 and ends with a next-DIFAT pointer of 0. *)
Definition ole2_cyclic : bytes :=
  CFB_SIGNATURE ++ zeros 22 ++
  le_bytes 2 9 ++ le_bytes 2 6 ++ zeros 6 ++
  le_bytes 4 0 ++ le_bytes 4 1 ++ le_bytes 4 0 ++ zeros 4 ++
  le_bytes 4 4096 ++ le_bytes 4 ENDOFCHAIN ++ le_bytes 4 0 ++
  le_bytes 4 0 ++ le_bytes 4 5 ++
  mjoin (replicate 109 (le_bytes 4 FREESECT)) ++
  le_bytes 4 0 ++ mjoin (replicate 126 (le_bytes 4 FREESECT)) ++ le_bytes 4 0.

Definition ole2_cyclic_header : header :=
  Header 512 64 0 1 0 4096 ENDOFCHAIN 0 0 5 (replicate 109 FREESECT).

End Ole2Spec.

(** ** ZIP *)

(** The last [n] bytes of a file, or all of it when it is shorter. *)
Definition last_bytes (n : Z) (b : bytes) : bytes :=
  drop (Z.to_nat (len b - n)) b.

(** ** Schema *)

(** A column name is declared by the schema when some section that is a
    list holds an entry with that name, the name not being empty. *)
Definition declared (cfg : config) (name : string) : Prop :=
  name ≠ "" ∧
  ∃ sec items typ,
    (sec, SecList items) ∈ features cfg ∧ YItem (Some name) typ ∈ items.

(** A column declared in a section whose name ends in [_enc]. *)
Definition declared_enc (cfg : config) (name : string) : Prop :=
  name ≠ "" ∧
  ∃ sec items typ,
    (sec, SecList items) ∈ features cfg ∧ AggregatorB.ends_with_enc sec = true ∧
    YItem (Some name) typ ∈ items.

(** The names under which Aggregator C stores a computed metric. *)
Definition METRIC_NAMES : list string :=
  ["entropy_global"; "min_entropy_global"; "entropy_head"; "entropy_tail";
   "byte_chi2"; "ic_index"].

(** ** Extraction *)

(** The family the sniffer reports for a file. *)
Definition sniffed_family (cfg : config) (f : file) : string :=
  match Sniff.sniff f cfg !! "format_family" with
  | Some (VStr s) => s
  | _ => "other"
  end.

(** The merged structural features: what Aggregator A returns for the
    sniffer output and the features of the structural parser. *)
Definition structural_features (reg : registry) (cfg : config) (f : file)
  : gmap string pyval :=
  AggregatorA.collect cfg (Sniff.sniff f cfg)
    (Extract.structural_feats reg (sniffed_family cfg f) f).2.

(** The columns of the [_enc] section of a family, as Aggregator B holds
    them. *)
Definition family_enc_columns (cfg : config) (fam : string) : list string :=
  default []
    (AggregatorB.family_columns (AggregatorB._collect_schema cfg)
       !! (fam +:+ "_enc")%string).

(** The parsers modelled here, registered under their families. *)
Definition example_registry : registry :=
  Registry {[ "gzip" := λ f, Gzip.parse_gzip (content f);
              "mp4" := λ f, Mp4.parse_mp4 (content f);
              "ole2" := λ f, Ole2.parse_ole2 (content f);
              "zip" := λ f, Zip.parse_zip (content f) ]}
           ∅.

Definition col (name typ : string) : yitem := YItem (Some name) (Some typ).

(** A schema with some columns of each aggregator. *)
Definition example_config : config :=
  Config None None ["gzip"; "mp4"; "ole2"; "zip"] None
    [ ("common", SecList [col "size_bytes" "int"; col "magic_ok" "bool";
                          col "format_family" "string"]);
      ("gzip", SecList [col "gzip_header_ok" "bool"; col "parser_ok" "bool";
                        col "structure_consistent" "bool"]);
      ("ole2", SecList [col "ole_dir_ok" "bool"; col "ole_stream_count" "int";
                        col "parser_ok" "bool";
                        col "structure_consistent" "bool"]);
      ("zip", SecList [col "zip_central_dir_ok" "bool";
                       col "zip_entry_count" "int"; col "parser_ok" "bool";
                       col "structure_consistent" "bool"]);
      ("zip_enc", SecList [col "zip_any_entry_encrypted" "bool"]);
      ("statistic", SecList [col "entropy_global" "float";
                             col "ic_index" "float"]) ].

(** The same schema, with [parser_ok] repeated in the [zip_enc] section as
    it is in the sections of the structural parsers. *)
Definition example_config_enc_parser_ok : config :=
  Config None None ["gzip"; "mp4"; "ole2"; "zip"] None
    [ ("gzip", SecList [col "gzip_header_ok" "bool"; col "parser_ok" "bool";
                        col "structure_consistent" "bool"]);
      ("zip_enc", SecList [col "zip_any_entry_encrypted" "bool";
                           col "parser_ok" "bool"]) ].

(** Example files. *)
Definition file_ole2_signature_only : file := File Ole2.CFB_SIGNATURE None.
Definition file_zip_local_header_only : file := File [x50; x4b; x03; x04] None.
Definition file_gzip_magic_only : file := File [x1f; x8b; x08] None.
Definition file_one_byte : file := File [x41] None.

(** ** Further definitions used to state properties *)

(** How many times the byte [b] occurs in [data]. *)
Definition occurrences (b : byte) (data : bytes) : Z :=
  Z.of_nat (length (filter (λ x, x = b) data)).

(** [sum(counts)] *)
Definition sum_counts (counts : list Z) : Z := foldr Z.add 0 counts.

(** ** GZIP *)

(** A GZIP member with the FNAME flag and the name [a]. *)
Definition gzip_named : bytes :=
  [x1f; x8b; x08; x08; x00; x00; x00; x00; x00; x03; x61; x00].

(** ** ZIP *)

(** The empty archive: an end-of-central-directory record and nothing
    else. *)
Definition zip_empty : bytes := Zip.EOCD_MAGIC ++ zeros 18.

(** ** OLE2 *)

(** [secs] is a chain of the FAT from [start]: each sector is the FAT
    entry of the one before it. *)
Fixpoint chain_from (fat : list Z) (start : Z) (secs : list Z) : Prop :=
  match secs with
  | [] => True
  | s :: rest =>
    s = start ∧ ∃ nxt, fat !! Z.to_nat s = Some nxt ∧ chain_from fat nxt rest
  end.

(** The object types a directory entry may have: unused, storage, stream,
    root storage. *)
Definition type_ok (t : Z) : Prop := t ∈ [0; 1; 2; 5].

(** The object types of the complete 128-byte entries of a directory
    stream. *)
Definition entry_types (dir_bytes : bytes) : list Z :=
  omap (λ e, Bytes.index e 0x42)
       (Ole2.dir_entries (Z.to_nat (len dir_bytes `div` Ole2.DIR_ENTRY_SIZE))
          dir_bytes).

(** ** PNG *)

(** The signature, an IHDR chunk of 13 zero bytes, an empty IDAT chunk and
    the IEND chunk (CRC fields zero: the parser does not check them). *)
Definition png_minimal : bytes :=
  Png.PNG_SIG ++
  [x00; x00; x00; x0d] ++ lit "IHDR" ++ zeros 13 ++ zeros 4 ++
  [x00; x00; x00; x00] ++ lit "IDAT" ++ zeros 4 ++
  [x00; x00; x00; x00] ++ lit "IEND" ++ zeros 4.

(** ** RAR *)

(** A RAR5 signature followed by a block header of size 16 and type 1. *)
Definition rar5_sample : bytes :=
  Rar.RAR5_SIG ++ [x10; x00; x00; x00; x01; x00; x00].

(** ** ZIP encryption *)

(** An extra-field record: header id and payload, serialised as the id and
    the payload length in two little-endian bytes each, then the payload. *)
Definition extra_record (r : Z * bytes) : bytes :=
  le_bytes 2 r.1 ++ le_bytes 2 (len r.2) ++ r.2.

(** The record fits the format: both 16-bit fields hold their value. *)
Definition record_wf (r : Z * bytes) : Prop :=
  0 ≤ r.1 < 65536 ∧ len r.2 < 65536.

(** Whether the scan of the extra field of an entry reports an AES
    record. *)
Definition aes_entry (info : ZipEnc.zipinfo) : bool :=
  match ZipEnc.has_aes_extra info with
  | Ret b => b
  | Raise | Diverge => false
  end.

(** ** Sniffer *)

(** The families for which the sniffer can name a parser. *)
Definition HANDLED_FAMILIES : list string :=
  ["pdf"; "png"; "jpeg"; "gzip"; "ole2"; "rar"; "mp4"; "zip"; "ooxml"].

(** The signature test that stands for a family in [sniff]. *)
Definition signature_of (fam : string) (head : bytes) (f : file) : bool :=
  if bool_decide (fam = "pdf") then Sniff._is_pdf head
  else if bool_decide (fam = "png") then Sniff._is_png head
  else if bool_decide (fam = "jpeg") then Sniff._is_jpeg head
  else if bool_decide (fam = "gzip") then Sniff._is_gzip head
  else if bool_decide (fam = "ole2") then Sniff._is_ole2 head
  else if bool_decide (fam = "rar") then Sniff._is_rar head
  else if bool_decide (fam = "mp4") then Sniff._is_mp4 head
  else if bool_decide (fam = "zip") then Sniff._is_zip head
  else if bool_decide (fam = "ooxml")
       then Sniff._is_zip head && Sniff._zip_looks_like_ooxml f
  else false.

(** The bytes the sniffer reads from the start of the file. *)
Definition sniff_head (cfg : config) (f : file) : bytes :=
  Sniff.read_n (content f) (default 16384 (head_bytes cfg)).

(** The magic family the sniffer reports for a file. *)
Definition sniffed_magic_family (cfg : config) (f : file) : string :=
  match Sniff.sniff f cfg !! "magic_family" with
  | Some (VStr s) => s
  | _ => "unknown"
  end.

(** ** Schema *)

(** Invariant of the loops of [collect_schema]: no column twice, and a
    type only for a column. *)
Definition schema_inv (acc : schema_acc) : Prop :=
  NoDup acc.1 ∧ ∀ n, is_Some (acc.2 !! n) → n ∈ acc.1.

(** The columns of the [statistic] section, as Aggregator C holds them. *)
Definition statistic_columns (cfg : config) : list string :=
  match AggregatorC.collect_schema cfg with
  | Some c => c.1
  | None => []
  end.

(** The names of the entries of a section, in order, repeats included. *)
Definition item_names (items : list yitem) : list string :=
  omap (λ it, match it with
              | YItem name _ => truthy name
              | YOther => None
              end) items.

(** What Aggregator A stores under a declared name: the parser's value
    when the parser gave the key, else the sniffer's value for one of the
    five common keys, else null. *)
Definition structural_value (snf pf : gmap string pyval) (name : string)
  : pyval :=
  match pf !! name with
  | Some v => v
  | None =>
    if bool_decide (name ∈ AggregatorA._COMMON_KEYS)
    then AggregatorA.get snf name else VNone
  end.

(** A configuration that enables every family with a parser and declares
    no column. *)
Definition config_all_families : config :=
  Config None None HANDLED_FAMILIES None [].

(** ** Structural parsers *)

(** The structural parsers that read the bytes of the file themselves. *)
Definition structural_parsers : list parser :=
  [Gzip.parse_gzip; Mp4.parse_mp4; Ole2.parse_ole2; Zip.parse_zip;
   Png.parse_png; Jpeg.parse_jpeg; Rar.parse_rar].


(** * Properties *)

Section BytesFacts.

Lemma len_nonneg (b : bytes) : 0 ≤ len b.
Proof. unfold len. lia. Qed.

Lemma index_in_range (b : bytes) (i : Z) :
  0 ≤ i < len b → is_Some (index b i).
Proof.
  unfold index, len. intros Hi.
  destruct (Z.ltb_spec i 0); [lia|].
  destruct (lookup_lt_is_Some_2 b (Z.to_nat i)) as [x Hx]; [lia|].
  rewrite Hx. by eexists.
Qed.

End BytesFacts.

(** ** GZIP *)

Section GzipFacts.
Import Gzip.

Lemma gzip_record_lookup (h m n : bool) :
  record h m n !! "gzip_header_ok" = Some (VBool h) ∧
  record h m n !! "gzip_mtime_present" = Some (VBool m) ∧
  record h m n !! "gzip_name_present" = Some (VBool n) ∧
  record h m n !! "parser_ok" = Some (VBool h) ∧
  record h m n !! "structure_consistent" = Some (VBool h).
Proof. repeat split; reflexivity. Qed.

Lemma len_take_ge (b : bytes) (k n : Z) :
  n ≤ k → n ≤ len b → n ≤ len (take (Z.to_nat k) b).
Proof. unfold len. rewrite length_take. lia. Qed.

Lemma gzip_after_extra_record data flg pos n h m :
  ∃ nm, after_extra data flg pos n h m = record h m nm.
Proof.
  unfold after_extra.
  destruct (negb (Z.land flg _FNAME =? 0)); eexists; reflexivity.
Qed.

Lemma parse_gzip_try_past_header (file : bytes) :
  _BASE_HDR_LEN ≤ len file →
  ∃ id1 id2 cm m nm,
    index file 0 = Some id1 ∧ index file 1 = Some id2 ∧ index file 2 = Some cm ∧
    parse_gzip_try file = Some (record (header_valid id1 id2 cm) m nm).
Proof.
  intros Hlen. unfold parse_gzip_try.
  set (data := take (Z.to_nat _MAX_READ) file).
  assert (Hd : _BASE_HDR_LEN ≤ len data) by (apply len_take_ge; [unfold _BASE_HDR_LEN, _MAX_READ; lia | done]).
  destruct (Z.ltb_spec (len data) _BASE_HDR_LEN) as [?|_]; [lia|].
  unfold _BASE_HDR_LEN in *.
  assert (Hix : ∀ i, 0 ≤ i < 10 → index data i = index file i).
  { intros i Hi. unfold index. destruct (i <? 0); [done|].
    unfold data. rewrite lookup_take_lt; [done|]. unfold _MAX_READ. lia. }
  destruct (index_in_range file 0) as [id1 H0]; [lia|].
  destruct (index_in_range file 1) as [id2 H1]; [lia|].
  destruct (index_in_range file 2) as [cm H2]; [lia|].
  destruct (index_in_range file 3) as [flg H3]; [lia|].
  rewrite !Hix by lia. rewrite H0, H1, H2, H3. simpl.
  exists id1, id2, cm.
  destruct (negb (Z.land flg _FEXTRA =? 0)).
  - destruct (len data <? 10 + 2) eqn:E1; [by eauto 10|].
    assert (Hx : is_Some (unpack_le 2 data 10)).
    { unfold unpack_le. apply Z.ltb_ge in E1.
      destruct (Z.ltb_spec (len data) (10 + 2)); [lia|]. simpl. by eexists. }
    destruct Hx as [xlen Hx]. rewrite Hx. simpl.
    destruct (len data <? 10 + (2 + xlen)); [by eauto 10|].
    destruct (gzip_after_extra_record data flg (10 + (2 + xlen)) (len data)
                (header_valid id1 id2 cm) (negb (default 0 (unpack_le 4 data 4) =? 0))) as [nm ->].
    by eauto 10.
  - destruct (gzip_after_extra_record data flg 10 (len data)
                (header_valid id1 id2 cm) (negb (default 0 (unpack_le 4 data 4) =? 0))) as [nm ->].
    by eauto 10.
Qed.


End GzipFacts.

(** ** MP4 box iteration *)

Section Mp4Facts.
Import Mp4.

Lemma len_slice (b : bytes) (lo hi : Z) :
  0 ≤ lo → lo ≤ hi → hi ≤ len b → len (slice b lo hi) = hi - lo.
Proof.
  unfold len, slice. intros. rewrite length_take, length_drop. lia.
Qed.

Lemma len_read_at (fp : bytes) (off n : Z) :
  0 ≤ n →
  0 ≤ len (read_at fp off n) ≤ n ∧
  (len (read_at fp off n) = 0 ∨ (0 ≤ off ∧ off + len (read_at fp off n) ≤ len fp)).
Proof.
  intros Hn. unfold read_at.
  destruct (Z.ltb_spec off 0); simpl; [unfold len; simpl; lia|].
  destruct (Z.leb_spec (len fp) off); [unfold len; simpl; lia|].
  rewrite len_slice; lia.
Qed.

Lemma box_at_Some (head : bytes) (limit pos : Z) (b : box) :
  box_at head limit pos = Some b →
  b_start b = pos ∧ (b_hdr b = 8 ∨ b_hdr b = 16) ∧ b_hdr b ≤ b_size b ∧
  pos + b_size b ≤ limit.
Proof.
  unfold box_at. intros H.
  repeat (case_match; simplify_eq); simpl; lia.
Qed.

Lemma box_at_declared_bad (head : bytes) (limit pos bs hs : Z) :
  declared_extent head limit pos = Some (bs, hs) →
  bs < hs ∨ limit < pos + bs →
  box_at head limit pos = None.
Proof.
  unfold declared_extent, box_at. intros Hd Hbad.
  repeat (case_match; simplify_eq); try done; lia.
Qed.

Lemma iter_boxes_from_contiguous (fuel : nat) (fp : bytes) (limit pos : Z) :
  contiguous_within limit pos (iter_boxes_from fuel fp limit pos).1.*2.
Proof.
  revert pos. induction fuel as [|fuel IH]; intros pos; simpl; [done|].
  destruct (pos + 8 <=? limit); [|done].
  destruct (box_at _ limit pos) as [b|] eqn:Hb; [|done].
  specialize (IH (pos + b_size b)).
  destruct (iter_boxes_from fuel fp limit (pos + b_size b)) as [ys fin].
  apply box_at_Some in Hb as (? & ? & ? & ?). simpl in *. done.
Qed.

Lemma iter_boxes_from_length (fuel : nat) (fp : bytes) (limit pos : Z) :
  (length (iter_boxes_from fuel fp limit pos).1 ≤ fuel)%nat.
Proof.
  revert pos. induction fuel as [|fuel IH]; intros pos; simpl; [done|].
  destruct (pos + 8 <=? limit); [|simpl; lia].
  destruct (box_at _ limit pos) as [b|]; [|simpl; lia].
  specialize (IH (pos + b_size b)).
  destruct (iter_boxes_from fuel fp limit (pos + b_size b)) as [ys fin].
  simpl in *. lia.
Qed.

Lemma iter_boxes_from_reads (fuel : nat) (fp : bytes) (limit pos : Z) :
  Forall (λ r, pos ≤ r_off r ∧ r_off r + 8 ≤ limit ∧ r_asked r = 16 ∧
               ∀ i, touched r i → i < r_off r + 16 ∧ 0 ≤ i < len fp)
         (gen_reads (iter_boxes_from fuel fp limit pos)).
Proof.
  revert pos. induction fuel as [|fuel IH]; intros pos; simpl; [by constructor|].
  destruct (Z.leb_spec (pos + 8) limit) as [Hle|]; [|by constructor].
  assert (Hr : ∀ i, touched (Read pos 16 (len (read_at fp pos 16))) i →
                    i < pos + 16 ∧ 0 ≤ i < len fp).
  { unfold touched; simpl. intros i Hi.
    destruct (len_read_at fp pos 16) as [? [?|?]]; lia. }
  destruct (box_at _ limit pos) as [b|] eqn:Hb.
  - specialize (IH (pos + b_size b)).
    destruct (iter_boxes_from fuel fp limit (pos + b_size b)) as [ys fin].
    apply box_at_Some in Hb as (? & ? & ? & ?).
    unfold gen_reads in *; simpl in *. constructor.
    { simpl. repeat split; [lia|lia|apply Hr|apply Hr|apply Hr]; done. }
    eapply Forall_impl; [exact IH|]. simpl. intros r (? & ? & ? & Ht).
    repeat split; [lia|done|done|apply Ht|apply Ht|apply Ht]; done.
  - unfold gen_reads; simpl. constructor; [|constructor].
    simpl. repeat split; [lia|lia|apply Hr|apply Hr|apply Hr]; done.
Qed.

Lemma iter_boxes_from_bad (fuel : nat) (fp : bytes) (limit pos bs hs : Z) :
  declared_extent (read_at fp pos 16) limit pos = Some (bs, hs) →
  bs < hs ∨ limit < pos + bs →
  (iter_boxes_from fuel fp limit pos).1 = [].
Proof.
  intros Hd Hbad. destruct fuel as [|fuel]; simpl; [done|].
  destruct (pos + 8 <=? limit); [|done].
  by rewrite (box_at_declared_bad _ _ _ _ _ Hd Hbad).
Qed.

Lemma validate_loop_ok (limit : Z) (ys : list (read_ev * box))
    (fin : option read_ev) (pos steps : Z) :
  contiguous_within limit pos ys.*2 →
  steps + Z.of_nat (length ys) ≤ max_steps →
  (validate_loop ys fin pos steps).2 = true.
Proof.
  revert pos steps. induction ys as [|[r b] ys IH]; intros pos steps Hc Hs; simpl; [done|].
  simpl in Hc. destruct Hc as (-> & _ & _ & _ & Hc).
  rewrite Z.eqb_refl. simpl.
  destruct (Z.ltb_spec max_steps (steps + 1)); [simpl in Hs; lia|].
  specialize (IH (pos + b_size b) (steps + 1) Hc).
  destruct (validate_loop ys fin _ _) as [log ok]. simpl in *. apply IH. lia.
Qed.

(** Box-range validation cannot fail: the generator only yields contiguous
    boxes, at most [max_steps] of them. *)
Lemma validate_box_range_true (fp : bytes) (start end_ : Z) :
  (validate_box_range fp start end_).2 = true.
Proof.
  unfold validate_box_range, iter_boxes.
  pose proof (iter_boxes_from_contiguous (Z.to_nat max_steps) fp end_ start) as Hc.
  pose proof (iter_boxes_from_length (Z.to_nat max_steps) fp end_ start) as Hl.
  destruct (iter_boxes_from _ fp end_ start) as [ys fin]. simpl in *.
  apply (validate_loop_ok end_); [done|]. unfold max_steps in *. lia.
Qed.

Lemma contiguous_within_start (limit pos : Z) (bs : list box) :
  contiguous_within limit pos bs → ∀ b, b ∈ bs → pos ≤ b_start b ∧ 8 ≤ b_size b.
Proof.
  revert pos. induction bs as [|b0 bs IH]; intros pos Hc b Hb.
  - by apply not_elem_of_nil in Hb.
  - simpl in Hc. destruct Hc as (? & ? & ? & ? & Hc).
    apply elem_of_cons in Hb as [->|Hb]; [lia|].
    specialize (IH _ Hc b Hb). lia.
Qed.

Lemma iter_boxes_from_stops (fuel : nat) (fp : bytes) (limit pos bs hs : Z) :
  declared_extent (read_at fp pos 16) limit pos = Some (bs, hs) →
  bs < hs ∨ limit < pos + bs →
  ∀ start,
    (pos = start ∨
     ∃ b, b ∈ (iter_boxes_from fuel fp limit start).1.*2 ∧ b_start b + b_size b = pos) →
    ∀ b, b ∈ (iter_boxes_from fuel fp limit start).1.*2 → b_start b + b_size b ≤ pos.
Proof.
  intros Hd Hbad. induction fuel as [|fuel IH]; intros start Hreach b Hb.
  { simpl in Hb. by apply not_elem_of_nil in Hb. }
  destruct Hreach as [<-|(b' & Hb' & Hend)].
  { rewrite (iter_boxes_from_bad _ _ _ _ _ _ Hd Hbad) in Hb.
    by apply not_elem_of_nil in Hb. }
  simpl in Hb, Hb'.
  destruct (start + 8 <=? limit); [|by apply not_elem_of_nil in Hb].
  destruct (box_at _ limit start) as [b0|] eqn:Hb0; [|by apply not_elem_of_nil in Hb].
  pose proof (iter_boxes_from_contiguous fuel fp limit (start + b_size b0)) as Hc.
  specialize (IH (start + b_size b0)).
  destruct (iter_boxes_from fuel fp limit (start + b_size b0)) as [ys fin].
  apply box_at_Some in Hb0 as (Hs0 & _ & _ & _).
  simpl in *.
  apply elem_of_cons in Hb' as [->|Hb'].
  - (* the box before the bad one is the first: the rest is empty *)
    assert (Hys : ∀ b1, b1 ∈ ys.*2 → b_start b1 + b_size b1 ≤ pos)
      by (apply IH; left; lia).
    apply elem_of_cons in Hb as [->|Hb]; [lia|by apply Hys].
  - assert (Hys : ∀ b1, b1 ∈ ys.*2 → b_start b1 + b_size b1 ≤ pos)
      by (apply IH; right; eauto).
    apply elem_of_cons in Hb as [->|Hb]; [|by apply Hys].
    destruct (contiguous_within_start _ _ _ Hc b' Hb'). lia.
Qed.

(** C3, as amended: a box whose declared size is less than its header size,
    or whose declared end lies beyond the end of the container, ends the
    iteration where it stands. Once the iteration has reached the position
    of such a box (the start of the range, or the end of a yielded box), no
    yielded box extends past that position; the yielded boxes are
    contiguous from the start of the range and lie inside it; every header
    read starts at least 8 bytes before the end of the range, obtains at
    most 16 bytes and none beyond the end of the file, so that it may cover
    up to 8 bytes after the end of a nested range. *)
Theorem iter_boxes_stops_at_bad_box
    (fp : bytes) (start end_ pos bs hs : Z) :
  declared_extent (read_at fp pos 16) end_ pos = Some (bs, hs) →
  bs < hs ∨ end_ < pos + bs →
  (pos = start ∨
   ∃ b, b ∈ (iter_boxes fp start end_).1.*2 ∧ b_start b + b_size b = pos) →
  (∀ b, b ∈ (iter_boxes fp start end_).1.*2 → b_start b + b_size b ≤ pos) ∧
  contiguous_within end_ start (iter_boxes fp start end_).1.*2 ∧
  Forall (λ r, start ≤ r_off r ∧ r_off r + 8 ≤ end_ ∧
               ∀ i, touched r i → 0 ≤ i < len fp ∧ i < end_ + 8)
         (gen_reads (iter_boxes fp start end_)).
Proof.
  intros Hd Hbad Hreach. unfold iter_boxes in *. split; [|split].
  - by eapply iter_boxes_from_stops.
  - apply iter_boxes_from_contiguous.
  - eapply Forall_impl; [apply iter_boxes_from_reads|].
    simpl. intros r (? & ? & ? & Ht). split; [done|split; [done|]].
    intros i Hi. specialize (Ht i Hi). lia.
Qed.

Lemma iter_boxes_stops_at_bad_box_witness :
  declared_extent (read_at mp4_nested 8 16) 16 8 = Some (4, 8) ∧
  (∀ b, b ∈ (iter_boxes mp4_nested 8 16).1.*2 → b_start b + b_size b ≤ 8).
Proof.
  assert (Hd : declared_extent (read_at mp4_nested 8 16) 16 8 = Some (4, 8))
    by (vm_compute; reflexivity).
  assert (Hbad : 4 < 8 ∨ 16 < 8 + 4) by (left; lia).
  split; [exact Hd|].
  exact (proj1 (iter_boxes_stops_at_bad_box mp4_nested 8 16 8 4 8 Hd Hbad
                  (or_introl eq_refl))).
Defined.

(** C3 as stated fails inside [moov]: the child at offset 8 declares less
    than a header, yet the range [8, 16) validates, the file's box tree is
    reported sound, and the header read at 8 obtains offsets 16..23, which
    lie past the end of the range. *)
Lemma validate_box_range_accepts_bad_box :
  declared_extent (read_at mp4_nested 8 16) 16 8 = Some (4, 8) ∧
  validate_box_range mp4_nested 8 16 = ([Read 8 16 16], true) ∧
  touched (Read 8 16 16) 16 ∧
  ∃ d, parse_mp4 mp4_nested = PDict d ∧
       d !! "mp4_box_tree_ok" = Some (VBool true).
Proof.
  split; [vm_compute; reflexivity|].
  split; [vm_compute; reflexivity|].
  split; [unfold touched; simpl; lia|].
  eexists. split; [vm_compute; reflexivity|]. vm_compute; reflexivity.
Qed.

End Mp4Facts.

(** ** OLE2 sector walks *)

Section Ole2Facts.
Import Ole2.

Lemma of_option_terminates {A : Type} (o : option A) : of_option o ≠ Diverge.
Proof. by destruct o. Qed.

Lemma unpack_u32s_terminates (count : Z) (b : bytes) (off : Z) :
  unpack_u32s count b off ≠ Diverge.
Proof. unfold unpack_u32s. by case_match. Qed.

Lemma difat_walk_bounded (fuel : nat) (data : bytes) (ss : Z) (st : difat_state) :
  NoDup (visited st) →
  Z.of_nat (length (visited st)) ≤ MAX_SECTORS_READ →
  MAX_SECTORS_READ - Z.of_nat (length (visited st)) < Z.of_nat fuel →
  match difat_walk fuel data ss st with
  | Ret st' =>
    NoDup (visited st') ∧ Z.of_nat (length (visited st')) ≤ MAX_SECTORS_READ
  | Raise => True
  | Diverge => False
  end.
Proof.
  revert st. induction fuel as [|fuel IH]; intros st Hnd Hlen Hfuel.
  { simpl in Hfuel. lia. }
  simpl.
  destruct (negb _ && (0 <? difat_remaining st)) eqn:Hc1; simpl; [|done].
  destruct (Z.ltb_spec (Z.of_nat (length (visited st))) MAX_SECTORS_READ) as [Hlt|]; [|done].
  destruct (bool_decide (difat_sect st ∈ visited st)) eqn:Hin; [done|].
  apply bool_decide_eq_false in Hin.
  assert (Hnd' : NoDup (visited st ++ [difat_sect st])).
  { apply NoDup_app. split; [done|]. split; [|apply NoDup_singleton].
    intros x Hx Hx'. apply list_elem_of_singleton in Hx' as ->. done. }
  assert (Hlen' : Z.of_nat (length (visited st ++ [difat_sect st]))
                  = Z.of_nat (length (visited st)) + 1).
  { rewrite length_app. simpl. lia. }
  destruct (negb (len _ =? ss)); [simpl; split; [done|lia]|].
  destruct (unpack_u32s _ _ 0) as [entries| |] eqn:He; simpl;
    [|done|by apply unpack_u32s_terminates in He].
  destruct (u32 _ _) as [next| |] eqn:Hn; simpl;
    [|done|by apply of_option_terminates in Hn].
  apply IH; simpl; [done|lia|lia].
Qed.

Lemma difat_walk_fuel_mono (fuel fuel' : nat) (data : bytes) (ss : Z)
    (st : difat_state) :
  difat_walk fuel data ss st ≠ Diverge → (fuel ≤ fuel')%nat →
  difat_walk fuel' data ss st = difat_walk fuel data ss st.
Proof.
  revert fuel' st. induction fuel as [|fuel IH]; intros fuel' st Hnd Hle.
  { by simpl in Hnd. }
  destruct fuel' as [|fuel']; [lia|]. simpl in *.
  repeat (case_match; try done).
  destruct (unpack_u32s _ _ 0) as [entries| |]; simpl in *; [|done|done].
  destruct (u32 _ _) as [next| |]; simpl in *; [|done|done].
  apply IH; [done|lia].
Qed.

Lemma chain_walk_bounded (fuel : nat) (data : bytes) (ss : Z) (fat : list Z)
    (st : chain_state) :
  NoDup (seen st) →
  Z.of_nat (length (seen st)) = hops st →
  hops st ≤ MAX_SECTORS_READ →
  MAX_SECTORS_READ - hops st < Z.of_nat fuel →
  match chain_walk fuel data ss fat st with
  | Ret st' =>
    NoDup (seen st') ∧ Z.of_nat (length (seen st')) ≤ MAX_SECTORS_READ
  | Raise => True
  | Diverge => False
  end.
Proof.
  revert st. induction fuel as [|fuel IH]; intros st Hnd Hlen Hmax Hfuel.
  { simpl in Hfuel. lia. }
  simpl.
  destruct (negb _) eqn:Hc1; simpl; [|split; [done|lia]].
  destruct (Z.ltb_spec (hops st) MAX_SECTORS_READ) as [Hlt|]; [|split; [done|lia]].
  destruct (bool_decide (cur st ∈ seen st)) eqn:Hin; simpl; [split; [done|lia]|].
  apply bool_decide_eq_false in Hin.
  destruct (Z.of_nat (length fat) <=? cur st); [split; [done|lia]|].
  assert (Hnd' : NoDup (seen st ++ [cur st])).
  { apply NoDup_app. split; [done|]. split; [|apply NoDup_singleton].
    intros x Hx Hx'. apply list_elem_of_singleton in Hx' as ->. done. }
  assert (Hlen' : Z.of_nat (length (seen st ++ [cur st])) = hops st + 1).
  { rewrite length_app. simpl. lia. }
  destruct (negb (len _ =? ss)); [simpl; split; [done|lia]|].
  destruct (fat !! _) as [nxt|]; simpl; [|done].
  apply IH; simpl; [done|done|lia|lia].
Qed.

Lemma chain_walk_fuel_mono (fuel fuel' : nat) (data : bytes) (ss : Z)
    (fat : list Z) (st : chain_state) :
  chain_walk fuel data ss fat st ≠ Diverge → (fuel ≤ fuel')%nat →
  chain_walk fuel' data ss fat st = chain_walk fuel data ss fat st.
Proof.
  revert fuel' st. induction fuel as [|fuel IH]; intros fuel' st Hnd Hle.
  { by simpl in Hnd. }
  destruct fuel' as [|fuel']; [lia|]. simpl in *.
  repeat (case_match; try done).
  destruct (fat !! _) as [nxt|]; simpl in *; [|done].
  apply IH; [done|lia].
Qed.

Lemma walk_fuel_enough : MAX_SECTORS_READ < Z.of_nat walk_fuel.
Proof. unfold walk_fuel, MAX_SECTORS_READ. lia. Qed.

Lemma read_fat_sectors_terminates (data : bytes) (ss : Z) (indices fat : list Z) :
  read_fat_sectors data ss indices fat ≠ Diverge.
Proof.
  revert fat. induction indices as [|sidx rest IH]; intros fat; simpl; [done|].
  destruct (negb _); [done|].
  destruct (unpack_u32s _ _ 0) eqn:He; simpl; [apply IH|done|].
  by apply unpack_u32s_terminates in He.
Qed.

Lemma scan_entries_terminates (entries : list bytes) (acc : dir_info) :
  scan_entries entries acc ≠ Diverge.
Proof.
  revert acc. induction entries as [|e rest IH]; intros acc; simpl; [done|].
  destruct (negb _); [done|].
  destruct (u16 e 64) eqn:Hu; simpl;
    [|done|by apply of_option_terminates in Hu].
  destruct (of_option (index e 66)) eqn:Hi; simpl;
    [|done|by apply of_option_terminates in Hi].
  destruct (negb _); [done|]. apply IH.
Qed.

Lemma bind_terminates {A B : Type} (m : run A) (f : A → run B) :
  m ≠ Diverge → (∀ a, f a ≠ Diverge) → m ≫= f ≠ Diverge.
Proof. destruct m; simpl; auto. Qed.

Lemma parse_header_terminates (data : bytes) : parse_header data ≠ Diverge.
Proof.
  unfold parse_header, u16, u32.
  destruct (len data <? HEADER_SIZE); [done|].
  destruct (negb _); [done|].
  repeat (apply bind_terminates;
          [first [apply of_option_terminates | apply unpack_u32s_terminates]
          |intros ?]).
  done.
Qed.

Lemma difat_walk_terminates (data : bytes) (ss fd nd : Z) (idx : list Z) :
  match difat_walk walk_fuel data ss (DifatState fd nd [] idx) with
  | Ret st' =>
    NoDup (visited st') ∧ Z.of_nat (length (visited st')) ≤ MAX_SECTORS_READ
  | Raise => True
  | Diverge => False
  end.
Proof.
  apply difat_walk_bounded; simpl.
  - apply NoDup_nil_2.
  - unfold MAX_SECTORS_READ. lia.
  - pose proof walk_fuel_enough. lia.
Qed.

Lemma chain_walk_terminates (data : bytes) (ss : Z) (fat : list Z) (start : Z) :
  match chain_walk walk_fuel data ss fat (ChainState start 0 [] []) with
  | Ret st' =>
    NoDup (seen st') ∧ Z.of_nat (length (seen st')) ≤ MAX_SECTORS_READ
  | Raise => True
  | Diverge => False
  end.
Proof.
  apply chain_walk_bounded; simpl.
  - apply NoDup_nil_2.
  - done.
  - unfold MAX_SECTORS_READ. lia.
  - pose proof walk_fuel_enough. lia.
Qed.

Lemma build_fat_terminates (data : bytes) (H : header) :
  build_fat data H ≠ Diverge.
Proof.
  unfold build_fat. apply bind_terminates.
  - pose proof (difat_walk_terminates data (sector_size H) (first_difat H)
                  (num_difat_sectors H) (not_free (difat0 H))) as Hw.
    intros E. by rewrite E in Hw.
  - intros st. apply bind_terminates; [apply read_fat_sectors_terminates|].
    by intros [fat ok].
Qed.

Lemma follow_chain_terminates (data : bytes) (ss : Z) (fat : list Z) (start : Z) :
  follow_chain data ss fat start ≠ Diverge.
Proof.
  unfold follow_chain, follow_chain_state. apply bind_terminates; [|done].
  case_bool_decide; [done|].
  pose proof (chain_walk_terminates data ss fat start) as Hw.
  intros E. by rewrite E in Hw.
Qed.

Lemma parse_directory_stream_terminates (dir_bytes : bytes) :
  parse_directory_stream dir_bytes ≠ Diverge.
Proof.
  unfold parse_directory_stream. case_match; [done|].
  apply scan_entries_terminates.
Qed.

Lemma parse_ole2_try_terminates (data : bytes) : parse_ole2_try data ≠ Diverge.
Proof.
  unfold parse_ole2_try.
  apply bind_terminates; [apply parse_header_terminates|].
  intros [H|]; [|done].
  apply bind_terminates; [apply build_fat_terminates|]. intros [fat ok].
  apply bind_terminates; [apply follow_chain_terminates|]. intros dir.
  apply bind_terminates; [apply parse_directory_stream_terminates|]. done.
Qed.

(** C6: the DIFAT walk of [build_fat] and the FAT chain walk of
    [follow_chain] terminate. Given at least the fuel the model runs them
    with, each returns or raises, with the same outcome for any larger
    fuel; on return at most 8,192 sectors were visited and no sector twice.
    [build_fat], [follow_chain] and the whole [try] block of [parse_ole2]
    therefore never exhaust their fuel. *)
Theorem ole2_sector_walks_terminate
    (data : bytes) (ss fd nd : Z) (idx fat : list Z) (start : Z) (H : header)
    (fuel : nat) :
  (walk_fuel ≤ fuel)%nat →
  (difat_walk fuel data ss (DifatState fd nd [] idx) ≠ Diverge ∧
   difat_walk fuel data ss (DifatState fd nd [] idx)
     = difat_walk walk_fuel data ss (DifatState fd nd [] idx) ∧
   ∀ st, difat_walk fuel data ss (DifatState fd nd [] idx) = Ret st →
         NoDup (visited st) ∧
         Z.of_nat (length (visited st)) ≤ MAX_SECTORS_READ) ∧
  (chain_walk fuel data ss fat (ChainState start 0 [] []) ≠ Diverge ∧
   chain_walk fuel data ss fat (ChainState start 0 [] [])
     = chain_walk walk_fuel data ss fat (ChainState start 0 [] []) ∧
   ∀ st, chain_walk fuel data ss fat (ChainState start 0 [] []) = Ret st →
         NoDup (seen st) ∧
         Z.of_nat (length (seen st)) ≤ MAX_SECTORS_READ) ∧
  build_fat data H ≠ Diverge ∧
  follow_chain data ss fat start ≠ Diverge ∧
  parse_ole2_try data ≠ Diverge.
Proof.
  intros Hfuel.
  pose proof (difat_walk_terminates data ss fd nd idx) as Hd.
  pose proof (chain_walk_terminates data ss fat start) as Hc.
  assert (Hd' : difat_walk walk_fuel data ss (DifatState fd nd [] idx) ≠ Diverge)
    by (intros E; by rewrite E in Hd).
  assert (Hc' : chain_walk walk_fuel data ss fat (ChainState start 0 [] []) ≠ Diverge)
    by (intros E; by rewrite E in Hc).
  rewrite (difat_walk_fuel_mono _ _ _ _ _ Hd' Hfuel).
  rewrite (chain_walk_fuel_mono _ _ _ _ _ _ Hc' Hfuel).
  split; [|split; [|split; [|split]]].
  - split; [done|split; [done|]]. intros st E. by rewrite E in Hd.
  - split; [done|split; [done|]]. intros st E. by rewrite E in Hc.
  - apply build_fat_terminates.
  - apply follow_chain_terminates.
  - apply parse_ole2_try_terminates.
Qed.

Lemma ole2_sector_walks_terminate_witness :
  (walk_fuel ≤ walk_fuel)%nat ∧
  difat_walk walk_fuel ole2_cyclic 512 (DifatState 0 5 [] []) ≠ Diverge ∧
  parse_ole2_try ole2_cyclic ≠ Diverge.
Proof.
  pose proof (ole2_sector_walks_terminate ole2_cyclic 512 0 5 [] [] 0
                ole2_cyclic_header walk_fuel (le_n _)) as (Hd & _ & _ & _ & Hp).
  split; [apply le_n|]. split; [apply Hd|apply Hp].
Defined.

(** In [ole2_cyclic] the DIFAT sector 0 names itself as its successor and
    the FAT maps sector 0 to sector 0: each walk visits sector 0 once and
    stops. *)
Example ole2_cyclic_walks :
  parse_header ole2_cyclic = Ret (Some ole2_cyclic_header) ∧
  visited <$> difat_walk walk_fuel ole2_cyclic 512
                (DifatState 0 5 [] (not_free (difat0 ole2_cyclic_header)))
    = Ret [0] ∧
  seen <$> (build_fat ole2_cyclic ole2_cyclic_header ≫= λ '(fat, _),
            follow_chain_state ole2_cyclic 512 fat 0) = Ret [0].
Proof. vm_compute. done. Qed.

End Ole2Facts.

(** ** ZIP *)

Section ZipFacts.
Import Zip.

Lemma bv_nonneg (b : byte) : 0 ≤ bv b.
Proof. unfold bv. lia. Qed.

Lemma le_value_nonneg (b : bytes) : 0 ≤ le_value b.
Proof. induction b as [|x r IH]; simpl; [done|]. pose proof (bv_nonneg x). lia. Qed.

Lemma unpack_le_nonneg (w : Z) (b : bytes) (off v : Z) :
  unpack_le w b off = Some v → 0 ≤ v.
Proof.
  unfold unpack_le. case_match; [done|]. intros [= <-]. apply le_value_nonneg.
Qed.

Lemma cd_walk_terminates (fuel : nat) (data : bytes) (expected pos count : Z) :
  Z.max 0 (len data - pos) < Z.of_nat fuel →
  cd_walk fuel data expected pos count ≠ Diverge.
Proof.
  revert pos count. induction fuel as [|fuel IH]; intros pos count Hfuel; simpl.
  { lia. }
  destruct (Z.leb_spec (pos + 46) (len data)) as [Hle|]; [|done].
  apply bind_terminates; [apply of_option_terminates|]. intros sig.
  destruct (negb _); [done|].
  apply bind_terminates; [apply of_option_terminates|]. intros _.
  apply bind_terminates; [apply of_option_terminates|]. intros gpbf.
  apply bind_terminates; [apply of_option_terminates|]. intros crc.
  destruct (unpack_le 2 data (pos + 28)) as [fl|] eqn:Hfl; simpl; [|done].
  destruct (unpack_le 2 data (pos + 30)) as [el|] eqn:Hel; simpl; [|done].
  destruct (unpack_le 2 data (pos + 32)) as [cl|] eqn:Hcl; simpl; [|done].
  apply unpack_le_nonneg in Hfl, Hel, Hcl.
  destruct (len data <? _); [done|].
  destruct (negb _ && _); [done|].
  apply bind_terminates; [|done]. apply IH. lia.
Qed.

(** The [try] block of [parse_zip] never exhausts the fuel of its loop. *)
Lemma parse_zip_try_terminates (file : bytes) : parse_zip_try file ≠ Diverge.
Proof.
  unfold parse_zip_try. destruct (find_eocd _ _) as [[pos eocd]|]; [|done].
  apply bind_terminates.
  { unfold parse_eocd. apply bind_terminates; [apply of_option_terminates|].
    intros sig. destruct (negb _); [done|].
    repeat (apply bind_terminates; [apply of_option_terminates|intros ?]). done. }
  intros [e|]; [|done].
  apply bind_terminates.
  { case_match; [|done]. apply bind_terminates; [apply of_option_terminates|done]. }
  intros ok. apply bind_terminates; [|done].
  unfold iter_central_directory. apply cd_walk_terminates.
  unfold len. lia.
Qed.

Lemma rfind_from_None (hay needle : bytes) (i : Z) (last : option Z) :
  rfind_from hay needle i last = None ↔
  last = None ∧
  ∀ k : nat, (k < length hay)%nat → startswith (drop k hay) needle = false.
Proof.
  revert i last. induction hay as [|x hay IH]; intros i last; simpl.
  { split; [intros ->; split; [done|intros; lia]|by intros [-> _]]. }
  rewrite IH. split.
  - intros [Hl Hk]. destruct (startswith (x :: hay) needle) eqn:Hs; [done|].
    split; [done|]. intros [|k] Hlt; [done|]. simpl. apply Hk. lia.
  - intros [-> Hk]. split.
    + pose proof (Hk 0%nat ltac:(lia)) as H0. simpl in H0. by rewrite H0.
    + intros k Hlt. apply (Hk (S k)). lia.
Qed.

Lemma startswith_prefix (b p : bytes) : startswith b p = true ↔ p `prefix_of` b.
Proof.
  unfold startswith, bytes_eqb. rewrite bool_decide_eq_true. split.
  - intros H. exists (drop (length p) b). by rewrite <- H at 1; rewrite take_drop.
  - intros [k ->]. by rewrite take_app_length.
Qed.

Lemma read_tail_last_bytes (file : bytes) (n : Z) :
  0 < n →
  read_bytes file (len file - Z.min n (len file)) (Z.min n (len file))
  = last_bytes n file.
Proof.
  intros Hn. unfold read_bytes, last_bytes, slice.
  destruct file as [|x file].
  { rewrite !drop_nil, take_nil. by destruct (_ || _). }
  assert (0 < len (x :: file)) by (unfold len; simpl; lia).
  destruct (Z.ltb_spec (len (x :: file) - Z.min n (len (x :: file))) 0); [lia|].
  destruct (Z.leb_spec (len (x :: file))
              (len (x :: file) - Z.min n (len (x :: file)))); [lia|].
  simpl.
  replace (Z.to_nat (len (x :: file) - n))
    with (Z.to_nat (len (x :: file) - Z.min n (len (x :: file)))) by lia.
  apply take_ge. rewrite length_drop. unfold len in *. lia.
Qed.

Lemma parse_zip_no_eocd (file : bytes) :
  (∀ k : nat, ¬ EOCD_MAGIC `prefix_of` drop k (last_bytes MAX_EOCD_SEARCH file)) →
  parse_zip file = PNone.
Proof.
  intros Hno.
  assert (Hf : find_eocd file (file_size file) = None).
  { unfold find_eocd, file_size.
    rewrite read_tail_last_bytes by (unfold MAX_EOCD_SEARCH; lia).
    assert (Hr : rfind (last_bytes MAX_EOCD_SEARCH file) EOCD_MAGIC = None).
    { apply rfind_from_None. split; [done|]. intros k _.
      destruct (startswith _ EOCD_MAGIC) eqn:Hs; [|done].
      apply startswith_prefix in Hs. by apply Hno in Hs. }
    by rewrite Hr. }
  unfold parse_zip, parse_zip_try. by rewrite Hf.
Qed.

(** C4: the code at a file without an EOCD signature in its last
    64 KiB + 22 bytes: [parse_zip] returns [None], which is not the default
    record. *)
Theorem parse_zip_without_eocd_returns_none (file : bytes) :
  (∀ k : nat, ¬ EOCD_MAGIC `prefix_of` drop k (last_bytes MAX_EOCD_SEARCH file)) →
  parse_zip file = PNone ∧ parse_zip file ≠ PDict DEF_RETURN.
Proof.
  intros Hno. by rewrite (parse_zip_no_eocd file Hno).
Qed.

Lemma parse_zip_without_eocd_returns_none_witness :
  parse_zip [x50; x4b; x03; x04] = PNone ∧
  parse_zip [x50; x4b; x03; x04] ≠ PDict DEF_RETURN.
Proof.
  apply (parse_zip_without_eocd_returns_none [x50; x4b; x03; x04]).
  assert (Hlb : last_bytes MAX_EOCD_SEARCH [x50; x4b; x03; x04]
                = [x50; x4b; x03; x04]) by (vm_compute; reflexivity).
  intros k Hp. rewrite Hlb in Hp.
  destruct (decide (k < 4)%nat) as [Hk|Hk].
  - apply startswith_prefix in Hp.
    do 4 (destruct k as [|k]; [vm_compute in Hp; done|]). lia.
  - rewrite drop_ge in Hp by (simpl; lia).
    apply prefix_nil_inv in Hp. done.
Defined.

End ZipFacts.

(** ** Inputs shorter than a header *)

Section ShortInputs.

Lemma short_prefix_free (b p : bytes) (k : nat) :
  (length b < length p)%nat → ¬ p `prefix_of` drop k b.
Proof.
  intros Hlen [r Hr]. apply (f_equal length) in Hr.
  rewrite length_drop, length_app in Hr. lia.
Qed.

(** C1: the code at inputs shorter than a header. [parse_gzip] (under 10
    bytes) and [parse_mp4] (under 8 bytes) return their default records;
    [parse_ole2] (under 512 bytes) and [parse_zip] (under the 4 bytes of an
    EOCD signature) return [None] instead. *)
Theorem parsers_on_short_input (data : bytes) :
  (len data < Ole2.HEADER_SIZE → Ole2.parse_ole2 data = PNone) ∧
  (len data < 4 → Zip.parse_zip data = PNone) ∧
  (len data < Gzip._BASE_HDR_LEN →
   Gzip.parse_gzip data = PDict Gzip.DEF_RETURN) ∧
  (len data < 8 → Mp4.parse_mp4 data = PDict Mp4.DEF_RETURN).
Proof.
  split; [|split; [|split]].
  - intros H. unfold Ole2.parse_ole2, Ole2.parse_ole2_try, Ole2.parse_header.
    destruct (Z.ltb_spec (len data) Ole2.HEADER_SIZE); [done|lia].
  - intros H. apply parse_zip_no_eocd.
    intros k. apply short_prefix_free. unfold last_bytes.
    rewrite length_drop. unfold len in H. simpl. lia.
  - intros H. unfold Gzip.parse_gzip, Gzip.parse_gzip_try.
    assert (Hl : len (take (Z.to_nat Gzip._MAX_READ) data) < Gzip._BASE_HDR_LEN).
    { unfold len in *. rewrite length_take. lia. }
    destruct (Z.ltb_spec (len (take (Z.to_nat Gzip._MAX_READ) data))
                Gzip._BASE_HDR_LEN); [done|lia].
  - intros H. unfold Mp4.parse_mp4, Mp4.parse_mp4_io, Mp4.fsize.
    destruct (Z.ltb_spec (len data) 8); [done|lia].
Qed.

Lemma parsers_on_short_input_witness :
  Ole2.parse_ole2 Ole2.CFB_SIGNATURE = PNone ∧
  Zip.parse_zip [x50; x4b; x03] = PNone ∧
  Gzip.parse_gzip [x1f; x8b; x08] = PDict Gzip.DEF_RETURN ∧
  Mp4.parse_mp4 [x00; x00; x00] = PDict Mp4.DEF_RETURN.
Proof.
  split; [|split; [|split]].
  - apply (proj1 (parsers_on_short_input Ole2.CFB_SIGNATURE)).
    vm_compute. reflexivity.
  - apply (proj1 (proj2 (parsers_on_short_input [x50; x4b; x03]))).
    vm_compute. reflexivity.
  - apply (proj1 (proj2 (proj2 (parsers_on_short_input [x1f; x8b; x08])))).
    vm_compute. reflexivity.
  - apply (proj2 (proj2 (proj2 (parsers_on_short_input [x00; x00; x00])))).
    vm_compute. reflexivity.
Defined.

End ShortInputs.

(** ** Schema and aggregators *)

Section SchemaFacts.

Lemma truthy_Some (o : option string) (s : string) :
  truthy o = Some s ↔ o = Some s ∧ s ≠ "".
Proof.
  unfold truthy. destruct o as [s'|]; [|naive_solver].
  case_bool_decide; naive_solver.
Qed.

Lemma collect_items_elem (items : list yitem) (acc : schema_acc) (name : string) :
  name ∈ (foldl collect_item acc items).1 ↔
  name ∈ acc.1 ∨ (name ≠ "" ∧ ∃ typ, YItem (Some name) typ ∈ items).
Proof.
  revert acc. induction items as [|it items IH]; intros acc; simpl.
  { split; [auto|]. intros [?|(_ & ? & H)]; [done|]. by apply not_elem_of_nil in H. }
  rewrite IH. clear IH.
  assert (Hit : name ∈ (collect_item acc it).1 ↔
                name ∈ acc.1 ∨ (name ≠ "" ∧ ∃ typ, it = YItem (Some name) typ)).
  { destruct it as [n t|]; simpl; [|naive_solver].
    destruct (truthy n) as [n'|] eqn:Hn.
    - apply truthy_Some in Hn as [-> Hne].
      case_bool_decide; simpl.
      + split; [auto|]. intros [?|(_ & ? & [= <- _])]; done.
      + rewrite elem_of_app, list_elem_of_singleton. naive_solver.
    - split; [auto|]. intros [?|(Hne & ? & [= -> _])]; [done|].
      unfold truthy in Hn. case_bool_decide; done. }
  rewrite Hit. setoid_rewrite elem_of_cons. naive_solver.
Qed.

Lemma collect_sections_elem (secs : list (string * ysection)) (acc : schema_acc)
    (name : string) :
  name ∈ (foldl collect_section acc secs).1 ↔
  name ∈ acc.1 ∨
  (name ≠ "" ∧ ∃ sec items typ,
     (sec, SecList items) ∈ secs ∧ YItem (Some name) typ ∈ items).
Proof.
  revert acc. induction secs as [|[sec v] secs IH]; intros acc; simpl.
  { split; [auto|]. intros [?|(_ & ? & ? & ? & H & _)]; [done|].
    by apply not_elem_of_nil in H. }
  rewrite IH. clear IH. unfold collect_section. simpl.
  setoid_rewrite elem_of_cons.
  destruct v as [items| |]; [rewrite collect_items_elem|..]; naive_solver.
Qed.

Lemma collect_schema_declared (cfg : config) (name : string) :
  name ∈ (collect_schema cfg).1 ↔ declared cfg name.
Proof.
  unfold collect_schema, declared. rewrite collect_sections_elem. simpl.
  split; [intros [H|?]; [by apply not_elem_of_nil in H|done]|auto].
Qed.

Lemma lookup_list_to_map_fun {A : Type} (g : string → A) (cols : list string)
    (name : string) :
  (list_to_map ((λ n, (n, g n)) <$> cols) : gmap string A) !! name
  = if bool_decide (name ∈ cols) then Some (g name) else None.
Proof.
  induction cols as [|c cols IH].
  { rewrite fmap_nil, list_to_map_nil, lookup_empty.
    rewrite bool_decide_eq_false_2; [done|apply not_elem_of_nil]. }
  rewrite fmap_cons, list_to_map_cons.
  destruct (decide (c = name)) as [->|Hne].
  - rewrite lookup_insert_eq. rewrite bool_decide_eq_true_2; [done|by left].
  - rewrite lookup_insert_ne by done. rewrite IH.
    case_bool_decide as H1; case_bool_decide as H2; try done.
    + exfalso. apply H2. by right.
    + exfalso. apply elem_of_cons in H2 as [->|?]; done.
Qed.

Lemma dom_list_to_map_fun {A : Type} (g : string → A) (cols : list string) :
  dom (list_to_map ((λ n, (n, g n)) <$> cols) : gmap string A)
  = list_to_set cols.
Proof.
  rewrite dom_list_to_map_L. f_equal.
  rewrite <- list_fmap_compose. apply list_fmap_id.
Qed.

Lemma AggregatorA_collect_dom (cfg : config) (snf pf : gmap string pyval) :
  dom (AggregatorA.collect cfg snf pf) = list_to_set (collect_schema cfg).1.
Proof. unfold AggregatorA.collect. apply dom_list_to_map_fun. Qed.

Lemma collectB_items_elem (items : list yitem)
    (acc : list string * schema_acc) (name : string) :
  let r := foldl AggregatorB.collect_item acc items in
  (name ∈ r.1 ↔
   name ∈ acc.1 ∨ (name ≠ "" ∧ ∃ typ, YItem (Some name) typ ∈ items)) ∧
  (name ∈ r.2.1 ↔
   name ∈ acc.2.1 ∨ (name ≠ "" ∧ ∃ typ, YItem (Some name) typ ∈ items)).
Proof.
  revert acc. induction items as [|it items IH]; intros acc; simpl.
  { split; (split; [auto|]; intros [?|(_ & ? & H)]; [done|];
            by apply not_elem_of_nil in H). }
  destruct (IH (AggregatorB.collect_item acc it)) as [IH1 IH2]. clear IH.
  rewrite IH1, IH2. clear IH1 IH2.
  assert (Hit :
    (name ∈ (AggregatorB.collect_item acc it).1 ↔
     name ∈ acc.1 ∨ (name ≠ "" ∧ ∃ typ, it = YItem (Some name) typ)) ∧
    (name ∈ (AggregatorB.collect_item acc it).2.1 ↔
     name ∈ acc.2.1 ∨ (name ≠ "" ∧ ∃ typ, it = YItem (Some name) typ))).
  { destruct it as [n t|]; simpl; [|naive_solver].
    destruct (truthy n) as [n'|] eqn:Hn.
    - apply truthy_Some in Hn as [-> Hne].
      case_bool_decide; simpl; rewrite ?elem_of_app, ?list_elem_of_singleton;
        naive_solver.
    - assert (n = Some name → name ≠ "" → False).
      { intros -> Hne. unfold truthy in Hn. case_bool_decide; done. }
      naive_solver. }
  destruct Hit as [-> ->]. setoid_rewrite elem_of_cons. naive_solver.
Qed.

(** The columns of Aggregator B: declared in a section whose name ends in
    [_enc]; the columns of each family are among them. *)
Lemma collectB_sections (secs : list (string * ysection))
    (acc : AggregatorB.schema) (name : string) :
  let r := foldl AggregatorB.collect_section acc secs in
  (name ∈ AggregatorB.columns r →
   name ∈ AggregatorB.columns acc ∨
   (name ≠ "" ∧ ∃ sec items typ,
      (sec, SecList items) ∈ secs ∧ YItem (Some name) typ ∈ items)) ∧
  ((∀ fam cols, AggregatorB.family_columns acc !! fam = Some cols →
                name ∈ cols → name ∈ AggregatorB.columns acc) →
   ∀ fam cols, AggregatorB.family_columns r !! fam = Some cols →
               name ∈ cols → name ∈ AggregatorB.columns r).
Proof.
  revert acc. induction secs as [|[sec v] secs IH]; intros acc; simpl.
  { split; auto. }
  destruct (IH (AggregatorB.collect_section acc (sec, v))) as [IH1 IH2].
  clear IH. split.
  - intros Hin. destruct (IH1 Hin) as [Hacc|Hrest]; clear IH1 IH2.
    + unfold AggregatorB.collect_section in Hacc. simpl in Hacc.
      destruct v as [items| |]; [|by left|by left].
      destruct (AggregatorB.ends_with_enc sec); [|by left].
      pose proof (collectB_items_elem items
        ([], (AggregatorB.columns acc, AggregatorB.column_types acc)) name) as [_ H2].
      destruct (foldl AggregatorB.collect_item _ items) as [cols [all types]].
      simpl in *. apply H2 in Hacc as [?|(? & typ & ?)]; [by left|].
      right. split; [done|]. exists sec, items, typ. split; [by left|done].
    + right. destruct Hrest as (? & s & items & typ & ? & ?).
      split; [done|]. exists s, items, typ. split; [by right|done].
  - intros Hacc. apply IH2. clear IH1 IH2.
    unfold AggregatorB.collect_section. simpl.
    destruct v as [items| |]; [|done|done].
    destruct (AggregatorB.ends_with_enc sec); [|done].
    pose proof (collectB_items_elem items
      ([], (AggregatorB.columns acc, AggregatorB.column_types acc)) name) as [H1 H2].
    destruct (foldl AggregatorB.collect_item _ items) as [cols [all types]].
    simpl in *. intros fam cols'. rewrite lookup_insert.
    case_decide as Hfam.
    + intros [= <-] Hn. apply H2. apply H1 in Hn as [Hn|?]; [|by right].
      by apply not_elem_of_nil in Hn.
    + intros Hf Hn. apply H2. left. by eapply Hacc.
Qed.

Lemma AggregatorB_columns_declared (cfg : config) (name : string) :
  name ∈ AggregatorB.columns (AggregatorB._collect_schema cfg) →
  declared cfg name.
Proof.
  intros H. unfold AggregatorB._collect_schema in H.
  apply collectB_sections in H as [H|H]; [by apply not_elem_of_nil in H|done].
Qed.

Lemma AggregatorB_family_columns (cfg : config) (fam : string)
    (cols : list string) (name : string) :
  AggregatorB.family_columns (AggregatorB._collect_schema cfg) !! fam = Some cols →
  name ∈ cols →
  name ∈ AggregatorB.columns (AggregatorB._collect_schema cfg).
Proof.
  unfold AggregatorB._collect_schema.
  apply (collectB_sections (features cfg) (AggregatorB.Schema ∅ [] ∅) name).
  simpl. intros fam' cols'. by rewrite lookup_empty.
Qed.

Lemma collectC_items_elem (items : list yitem) (acc : schema_acc) (name : string) :
  name ∈ (foldl AggregatorC.collect_item acc items).1 →
  name ∈ acc.1 ∨ (name ≠ "" ∧ ∃ typ, YItem (Some name) typ ∈ items).
Proof.
  revert acc. induction items as [|it items IH]; intros acc; simpl; [auto|].
  intros H. apply IH in H as [H|(? & typ & ?)]; clear IH.
  - destruct it as [n t|]; simpl in H; [|by left].
    destruct (truthy n) as [n'|] eqn:Hn; [|by left].
    apply truthy_Some in Hn as [-> Hne]. simpl in H.
    apply elem_of_app in H as [?|H]; [by left|].
    apply list_elem_of_singleton in H as ->.
    right. split; [done|]. exists t. by left.
  - right. split; [done|]. exists typ. by right.
Qed.

Lemma AggregatorC_columns_declared (cfg : config) (c : schema_acc)
    (name : string) :
  AggregatorC.collect_schema cfg = Some c → name ∈ c.1 → declared cfg name.
Proof.
  unfold AggregatorC.collect_schema, AggregatorC.statistic_section.
  destruct (list_to_map (features cfg) !! "statistic") as [v|] eqn:Hs; simpl.
  - apply elem_of_list_to_map_2 in Hs.
    destruct v as [items| |]; intros [= <-] Hn;
      [|by apply not_elem_of_nil in Hn].
    apply collectC_items_elem in Hn as [Hn|(? & typ & ?)];
      [by apply not_elem_of_nil in Hn|].
    split; [done|]. by exists "statistic", items, typ.
  - intros [= <-] Hn. by apply not_elem_of_nil in Hn.
Qed.

End SchemaFacts.


Section ExtractFacts.
Import Extract.

(** Closed decidable goals, by evaluation. *)
Ltac by_decide := apply (bool_decide_unpack _); vm_compute; exact I.

Lemma dom_setdefault_none (k : string) (d : gmap string pyval) :
  dom (AggregatorA.setdefault_none k d) = {[k]} ∪ dom d.
Proof.
  unfold AggregatorA.setdefault_none.
  destruct (d !! k) eqn:Hk; [|by rewrite dom_insert_L].
  apply (elem_of_dom_2 (D:=gset string)) in Hk. set_solver.
Qed.

Lemma dom_setdefaults (cols : list string) (d : gmap string pyval) :
  dom (setdefaults cols d) = list_to_set cols ∪ dom d.
Proof.
  unfold setdefaults. revert d.
  induction cols as [|c cols IH]; intros d; simpl; [set_solver|].
  rewrite IH, dom_setdefault_none. set_solver.
Qed.

Lemma AggregatorB_collect_dom (s : AggregatorB.schema) (fam : string)
    (enc : gmap string pyval) :
  dom (AggregatorB.collect s fam enc)
  = list_to_set (default [] (AggregatorB.family_columns s !! fam)).
Proof.
  unfold AggregatorB.collect.
  destruct (default [] _) as [|c cols] eqn:Hc; [set_solver|].
  apply (dom_list_to_map_fun (λ name, AggregatorA.get enc name) (c :: cols)).
Qed.

Lemma dom_set_if_declared (k : string) (v : option pyfloat)
    (m : gmap string pyval) :
  dom (AggregatorC.set_if_declared k v m) = dom m.
Proof.
  unfold AggregatorC.set_if_declared.
  destruct (m !! k) eqn:Hk; [|done].
  apply (elem_of_dom_2 (D:=gset string)) in Hk.
  rewrite dom_insert_L. set_solver.
Qed.

Lemma AggregatorC_collect_dom (cols : list string) (f : file) :
  dom (AggregatorC.collect cols f) = list_to_set cols.
Proof.
  unfold AggregatorC.collect. destruct cols as [|c cols]; [set_solver|].
  rewrite !dom_set_if_declared.
  apply (dom_list_to_map_fun (λ _, VNone) (c :: cols)).
Qed.

Lemma merge_feats_dom (reg : registry) (cfg : config) (ctx : context) (f : file) :
  ExtractContext cfg = Some ctx →
  dom (merge_feats reg ctx f).2 = list_to_set (columns ctx).
Proof.
  unfold ExtractContext. intros Hctx.
  destruct (AggregatorC.collect_schema cfg) as [c|] eqn:Hc; [|done].
  simpl in Hctx. injection Hctx as <-.
  unfold merge_feats. simpl.
  destruct (structural_feats reg _ f) as [ev1 pf].
  destruct (encryption_feats reg _ f _) as [ev2 ef]. simpl.
  rewrite dom_setdefaults, dom_union_L, dom_setdefaults, dom_union_L.
  rewrite AggregatorC_collect_dom, AggregatorB_collect_dom, AggregatorA_collect_dom.
  apply set_eq. intros name.
  rewrite !elem_of_union, !elem_of_list_to_set. split; [|auto].
  intros [H|[H|[H|[H|H]]]]; try done; apply collect_schema_declared.
  - by eapply AggregatorC_columns_declared.
  - by eapply AggregatorC_columns_declared.
  - by apply AggregatorB_columns_declared.
  - destruct (AggregatorB.family_columns _ !! _) as [cols|] eqn:Hf;
      [|by apply not_elem_of_nil in H].
    apply AggregatorB_columns_declared. by eapply AggregatorB_family_columns.
Qed.

Lemma filter_nil_intro {A : Type} (P : A → Prop) `{!∀ x, Decision (P x)}
    (l : list A) :
  (∀ x, x ∈ l → ¬ P x) → filter P l = [].
Proof.
  induction l as [|x l IH]; intros Hall; [done|].
  rewrite filter_cons_False by (apply Hall; by left).
  apply IH. intros y Hy. apply Hall. by right.
Qed.

Lemma reconcile_ok (ctx : context) (agg : gmap string pyval) :
  dom agg = list_to_set (columns ctx) →
  reconcile ctx agg
  = Ok (list_to_map
          ((λ name,
              (name,
               normalize_value (AggregatorA.get agg name)
                 (default "" (column_types ctx !! name))))
             <$> columns ctx)).
Proof.
  intros Hdom. unfold reconcile.
  rewrite (filter_nil_intro (λ c, c ∉ dom agg)).
  2:{ intros x Hx Hn. apply Hn. rewrite Hdom. by apply elem_of_list_to_set. }
  rewrite (filter_nil_intro (λ k, k ∉ columns ctx)); [done|].
  intros x Hx Hn. apply Hn. apply elem_of_elements in Hx.
  rewrite Hdom in Hx. by apply elem_of_list_to_set in Hx.
Qed.

Lemma extract_feats_ok (reg : registry) (cfg : config) (ctx : context) (f : file) :
  ExtractContext cfg = Some ctx →
  (extract_feats reg cfg f).2
  = Ok (list_to_map
          ((λ name,
              (name,
               normalize_value
                 (AggregatorA.get (merge_feats reg ctx f).2 name)
                 (default "" (column_types ctx !! name))))
             <$> columns ctx)).
Proof.
  intros Hctx. unfold extract_feats. rewrite Hctx.
  pose proof (merge_feats_dom reg cfg ctx f Hctx) as Hdom.
  destruct (merge_feats reg ctx f) as [ev agg]. simpl in *.
  by apply reconcile_ok.
Qed.

Lemma ExtractContext_columns (cfg : config) (ctx : context) :
  ExtractContext cfg = Some ctx → columns ctx = (collect_schema cfg).1.
Proof.
  unfold ExtractContext. destruct (AggregatorC.collect_schema cfg); [|done].
  simpl. by intros [= <-].
Qed.





Lemma get_union_null (m1 m2 : gmap string pyval) (n : string) :
  AggregatorA.get m1 n = VNone → AggregatorA.get m2 n = VNone →
  AggregatorA.get (m1 ∪ m2) n = VNone.
Proof.
  unfold AggregatorA.get. rewrite lookup_union.
  destruct (m1 !! n), (m2 !! n); simpl; congruence.
Qed.

Lemma get_union_l (m1 m2 : gmap string pyval) (n : string) (v : pyval) :
  m1 !! n = Some v → AggregatorA.get (m1 ∪ m2) n = v.
Proof.
  intros H. unfold AggregatorA.get.
  by rewrite (lookup_union_Some_l _ _ _ _ H).
Qed.

Lemma get_union_r (m1 m2 : gmap string pyval) (n : string) :
  m1 !! n = None → AggregatorA.get (m1 ∪ m2) n = AggregatorA.get m2 n.
Proof.
  intros H. unfold AggregatorA.get. by rewrite lookup_union_r.
Qed.

Lemma get_setdefault_none (k : string) (d : gmap string pyval) (n : string) :
  AggregatorA.get (AggregatorA.setdefault_none k d) n = AggregatorA.get d n.
Proof.
  unfold AggregatorA.get, AggregatorA.setdefault_none.
  destruct (d !! k) eqn:Hk; [done|].
  destruct (decide (k = n)) as [->|Hne].
  - by rewrite lookup_insert_eq, Hk.
  - by rewrite lookup_insert_ne.
Qed.

Lemma get_setdefaults (cols : list string) (d : gmap string pyval) (n : string) :
  AggregatorA.get (setdefaults cols d) n = AggregatorA.get d n.
Proof.
  unfold setdefaults. revert d.
  induction cols as [|c cols IH]; intros d; simpl; [done|].
  by rewrite IH, get_setdefault_none.
Qed.

Lemma AggregatorA_collect_get (cfg : config) (snf pf : gmap string pyval)
    (n : string) :
  AggregatorA.get (AggregatorA.collect cfg snf pf) n
  = if bool_decide (n ∈ (collect_schema cfg).1)
    then AggregatorA.get (AggregatorA.merged snf pf) n else VNone.
Proof.
  unfold AggregatorA.collect, AggregatorA.get at 1.
  rewrite (lookup_list_to_map_fun
             (λ name, AggregatorA.get (AggregatorA.merged snf pf) name)).
  unfold AggregatorA._collect_schema, collect_schema.
  by case_bool_decide.
Qed.

Lemma AggregatorA_collect_lookup (cfg : config) (snf pf : gmap string pyval)
    (n : string) :
  AggregatorA.collect cfg snf pf !! n
  = if bool_decide (n ∈ (collect_schema cfg).1)
    then Some (AggregatorA.get (AggregatorA.merged snf pf) n) else None.
Proof.
  unfold AggregatorA.collect.
  apply (lookup_list_to_map_fun
           (λ name, AggregatorA.get (AggregatorA.merged snf pf) name)).
Qed.

Lemma AggregatorB_collect_lookup (s : AggregatorB.schema) (fam : string)
    (enc : gmap string pyval) (n : string) :
  AggregatorB.collect s fam enc !! n
  = if bool_decide (n ∈ default [] (AggregatorB.family_columns s !! fam))
    then Some (AggregatorA.get enc n) else None.
Proof.
  unfold AggregatorB.collect.
  destruct (default [] _) as [|c cols] eqn:Hc.
  - rewrite lookup_empty.
    rewrite bool_decide_eq_false_2; [done|apply not_elem_of_nil].
  - apply (lookup_list_to_map_fun (λ name, AggregatorA.get enc name) (c :: cols)).
Qed.

Lemma lookup_set_if_declared_ne (k : string) (v : option pyfloat)
    (m : gmap string pyval) (n : string) :
  k ≠ n → AggregatorC.set_if_declared k v m !! n = m !! n.
Proof.
  intros Hne. unfold AggregatorC.set_if_declared.
  destruct (m !! k); [by rewrite lookup_insert_ne|done].
Qed.

Lemma lookup_set_if_declared_eq (k : string) (v : option pyfloat)
    (m : gmap string pyval) :
  AggregatorC.set_if_declared k v m !! k
  = (λ _, from_option VFloat VNone v) <$> m !! k.
Proof.
  unfold AggregatorC.set_if_declared.
  destruct (m !! k) eqn:Hk; simpl; [by rewrite lookup_insert_eq|done].
Qed.

Lemma AggregatorC_collect_other (cols : list string) (f : file) (n : string) :
  n ∉ METRIC_NAMES →
  AggregatorA.get (AggregatorC.collect cols f) n = VNone.
Proof.
  intros Hn. unfold AggregatorA.get, AggregatorC.collect.
  destruct cols as [|c cols]; [by rewrite lookup_empty|].
  assert (Hne : ∀ k, k ∈ METRIC_NAMES → k ≠ n) by (intros k Hk ->; done).
  rewrite !lookup_set_if_declared_ne
    by (apply Hne; unfold METRIC_NAMES; set_solver).
  rewrite (lookup_list_to_map_fun (λ _, VNone) (c :: cols)).
  by case_bool_decide.
Qed.

(** What [merge_feats] computes, in terms of its stages. *)
Lemma merge_feats_stages (reg : registry) (cfg : config) (ctx : context)
    (f : file) :
  ExtractContext cfg = Some ctx →
  let fam := sniffed_family cfg f in
  let agg := structural_features reg cfg f in
  let enc := encryption_feats reg (fam +:+ "_enc")%string f agg in
  merge_feats reg ctx f
  = ((structural_feats reg fam f).1 ++ enc.1,
     setdefaults (agg_c_columns ctx)
       (AggregatorC.collect (agg_c_columns ctx) f ∪
        setdefaults (AggregatorB.columns (AggregatorB._collect_schema cfg))
          (AggregatorB.collect (AggregatorB._collect_schema cfg)
             (fam +:+ "_enc")%string enc.2 ∪ agg))).
Proof.
  unfold ExtractContext. intros Hctx.
  destruct (AggregatorC.collect_schema cfg) as [c|]; [|done].
  simpl in Hctx. injection Hctx as <-.
  unfold merge_feats, structural_features, sniffed_family. simpl.
  destruct (structural_feats reg _ f) as [ev1 pf]. simpl.
  by destruct (encryption_feats reg _ f _) as [ev2 ef].
Qed.

Lemma extract_feats_events (reg : registry) (cfg : config) (ctx : context)
    (f : file) :
  ExtractContext cfg = Some ctx →
  (extract_feats reg cfg f).1 = (merge_feats reg ctx f).1.
Proof.
  intros Hctx. unfold extract_feats. rewrite Hctx.
  by destruct (merge_feats reg ctx f).
Qed.

Lemma record_lookup (reg : registry) (cfg : config) (ctx : context) (f : file)
    (name : string) :
  ExtractContext cfg = Some ctx → declared cfg name →
  AggregatorA.get (merge_feats reg ctx f).2 name = VNone →
  ∃ record, (extract_feats reg cfg f).2 = Ok record ∧
            record !! name = Some VNone.
Proof.
  intros Hctx Hdecl Hnull. eexists. split; [by apply extract_feats_ok|].
  rewrite (lookup_list_to_map_fun
             (λ name, normalize_value
                        (AggregatorA.get (merge_feats reg ctx f).2 name)
                        (default "" (column_types ctx !! name)))).
  rewrite bool_decide_eq_true_2.
  - by rewrite Hnull.
  - rewrite (ExtractContext_columns _ _ Hctx). by apply collect_schema_declared.
Qed.

Lemma get_no_parser_feats (snf : gmap string pyval) (n : string) :
  n ∉ AggregatorA._COMMON_KEYS →
  AggregatorA.get (AggregatorA.merged snf NO_PARSER_FEATS) n = VNone.
Proof.
  intros Hn. unfold AggregatorA.merged. apply get_union_null.
  - rewrite !get_setdefault_none. unfold AggregatorA.get, NO_PARSER_FEATS.
    destruct (decide (n = "parser_ok")) as [->|?]; [done|].
    rewrite lookup_insert_ne by done.
    destruct (decide (n = "structure_consistent")) as [->|?]; [done|].
    by rewrite lookup_singleton_ne.
  - unfold AggregatorA.get.
    rewrite (lookup_list_to_map_fun (λ k, AggregatorA.get snf k)).
    by rewrite bool_decide_eq_false_2.
Qed.

Lemma structural_feats_failed (reg : registry) (fam : string) (f : file)
    (p : file_parser) :
  get_parser reg fam = Some p → p f = PRaise ∨ p f = PNone →
  structural_feats reg fam f = ([CallParser fam], NO_PARSER_FEATS).
Proof.
  intros Hp Hf. unfold structural_feats. rewrite Hp.
  by destruct Hf as [-> | ->].
Qed.

Lemma encryption_feats_gate (reg : registry) (enc_family : string) (f : file)
    (agg : gmap string pyval) :
  agg !! "parser_ok" ≠ Some (VBool true) →
  encryption_feats reg enc_family f agg = ([], ∅).
Proof.
  intros H. unfold encryption_feats.
  destruct (agg !! "parser_ok") as [[|[|]| | | |]|]; done.
Qed.

(** The merged features are null at a column that is not a metric when the
    encryption stage and Aggregator A leave it null. *)
Lemma merge_feats_null (reg : registry) (cfg : config) (ctx : context)
    (f : file) (name : string) :
  ExtractContext cfg = Some ctx →
  name ∉ METRIC_NAMES →
  structural_features reg cfg f !! "parser_ok" ≠ Some (VBool true) →
  name ∈ family_enc_columns cfg (sniffed_family cfg f)
  ∨ AggregatorA.get (structural_features reg cfg f) name = VNone →
  AggregatorA.get (merge_feats reg ctx f).2 name = VNone.
Proof.
  intros Hctx Hmetric Hgate Hname.
  rewrite (merge_feats_stages reg cfg ctx f Hctx). simpl.
  rewrite (encryption_feats_gate _ _ _ _ Hgate). simpl.
  rewrite get_setdefaults.
  apply get_union_null; [by apply AggregatorC_collect_other|].
  rewrite get_setdefaults.
  destruct (AggregatorB.collect (AggregatorB._collect_schema cfg)
              (sniffed_family cfg f +:+ "_enc") ∅ !! name) as [v|] eqn:Hb.
  - rewrite AggregatorB_collect_lookup in Hb.
    case_bool_decide; [|done]. injection Hb as <-.
    by eapply get_union_l; rewrite AggregatorB_collect_lookup, bool_decide_eq_true_2.
  - rewrite get_union_r by done.
    destruct Hname as [Hin|Hnull]; [|done].
    rewrite AggregatorB_collect_lookup in Hb.
    unfold family_enc_columns in Hin. by rewrite bool_decide_eq_true_2 in Hb.
Qed.

(** C5, as amended: when the structural parser of the sniffed family raises
    or returns [None], [extract_feats] still returns a record. The parser's
    features are replaced by [parser_ok] and [structure_consistent] set to
    null (not by the default record of the format), no encryption parser is
    called, and in the record every declared column other than the five
    keys of the sniffer and the six byte-statistics metrics is null; so are
    [parser_ok] and [structure_consistent] when declared. *)
Theorem extract_feats_recovers_failed_parser
    (reg : registry) (cfg : config) (f : file) (p : file_parser) :
  is_Some (ExtractContext cfg) →
  get_parser reg (sniffed_family cfg f) = Some p →
  p f = PRaise ∨ p f = PNone →
  ∃ record,
    extract_feats reg cfg f
      = ([CallParser (sniffed_family cfg f)], Ok record) ∧
    (∀ name, declared cfg name →
             name ∉ AggregatorA._COMMON_KEYS → name ∉ METRIC_NAMES →
             record !! name = Some VNone) ∧
    (declared cfg "parser_ok" → record !! "parser_ok" = Some VNone) ∧
    (declared cfg "structure_consistent" →
     record !! "structure_consistent" = Some VNone).
Proof.
  intros [ctx Hctx] Hp Hfail.
  pose proof (structural_feats_failed _ _ _ _ Hp Hfail) as Hsf.
  assert (Hagg : ∀ name, name ∉ AggregatorA._COMMON_KEYS →
            AggregatorA.get (structural_features reg cfg f) name = VNone).
  { intros name Hn. unfold structural_features. rewrite Hsf. simpl.
    rewrite AggregatorA_collect_get. case_bool_decide; [|done].
    by apply get_no_parser_feats. }
  assert (Hgate : structural_features reg cfg f !! "parser_ok"
                  ≠ Some (VBool true)).
  { intros H. specialize (Hagg "parser_ok"). unfold AggregatorA.get in Hagg.
    rewrite H in Hagg. simpl in Hagg.
    assert (VBool true = VNone) by (apply Hagg; set_solver). done. }
  assert (Hnull : ∀ name, declared cfg name →
            name ∉ AggregatorA._COMMON_KEYS → name ∉ METRIC_NAMES →
            ∀ rec, (extract_feats reg cfg f).2 = Ok rec →
                   rec !! name = Some VNone).
  { intros name Hd Hc Hm rec Hrec.
    destruct (record_lookup reg cfg ctx f name Hctx Hd) as (rec' & Hrec' & Hl).
    - apply (merge_feats_null reg cfg ctx f name Hctx Hm Hgate).
      right. by apply Hagg.
    - rewrite Hrec in Hrec'. by injection Hrec' as <-. }
  eexists. split; [|split; [|split]].
  - apply injective_projections; simpl.
    + rewrite (extract_feats_events _ _ _ _ Hctx).
      rewrite (merge_feats_stages reg cfg ctx f Hctx). simpl.
      rewrite Hsf, (encryption_feats_gate _ _ _ _ Hgate). done.
    + by apply extract_feats_ok.
  - intros name Hd Hc Hm.
    eapply Hnull; [done..|]. by apply extract_feats_ok.
  - intros Hd. eapply (Hnull "parser_ok"); [done|set_solver|set_solver|].
    by apply extract_feats_ok.
  - intros Hd. eapply (Hnull "structure_consistent"); [done|set_solver|set_solver|].
    by apply extract_feats_ok.
Qed.

Lemma structural_feats_events (reg : registry) (fam : string) (f : file)
    (e : string) :
  CallEncParser e ∉ (structural_feats reg fam f).1.
Proof.
  unfold structural_feats. destruct (get_parser reg fam); simpl.
  - intros H. apply list_elem_of_singleton in H. done.
  - apply not_elem_of_nil.
Qed.

Lemma encryption_feats_events (reg : registry) (enc_family : string) (f : file)
    (agg : gmap string pyval) (e : string) :
  CallEncParser e ∈ (encryption_feats reg enc_family f agg).1 ↔
  e = enc_family ∧ agg !! "parser_ok" = Some (VBool true) ∧
  is_Some (get_parser_enc reg enc_family).
Proof.
  unfold encryption_feats.
  destruct (agg !! "parser_ok") as [[|[|]| | | |]|]; simpl;
    try (split; [intros H; by apply not_elem_of_nil in H|by intros (_ & ? & _)]).
  destruct (get_parser_enc reg enc_family) as [p|]; simpl.
  - rewrite list_elem_of_singleton. split.
    + intros [= ->]. eauto.
    + by intros (-> & _ & _).
  - split; [intros H; by apply not_elem_of_nil in H|].
    intros (_ & _ & [? ?]). done.
Qed.

Lemma declared_enc_declared (cfg : config) (name : string) :
  declared_enc cfg name → declared cfg name.
Proof. intros (? & sec & items & typ & ? & _ & ?). split; eauto. Qed.

Lemma structural_features_parser_ok (reg : registry) (cfg : config) (f : file) :
  (get_parser reg (sniffed_family cfg f) = None →
   structural_features reg cfg f !! "parser_ok" ≠ Some (VBool true)) ∧
  (∀ p d, get_parser reg (sniffed_family cfg f) = Some p → p f = PDict d →
          d !! "parser_ok" ≠ Some (VBool true) →
          structural_features reg cfg f !! "parser_ok" ≠ Some (VBool true)).
Proof.
  unfold structural_features, structural_feats. split.
  - intros ->. simpl. rewrite AggregatorA_collect_lookup.
    case_bool_decide; [|done].
    rewrite get_no_parser_feats; [done|set_solver].
  - intros p d -> ->. simpl. intros Hd.
    rewrite AggregatorA_collect_lookup. case_bool_decide; [|done].
    unfold AggregatorA.merged.
    assert (Hl : ∃ v, v ≠ VBool true ∧
              AggregatorA.setdefault_none "structure_consistent"
                (AggregatorA.setdefault_none "parser_ok" d) !! "parser_ok"
              = Some v).
    { assert (Hin : ∃ v, v ≠ VBool true ∧
                AggregatorA.setdefault_none "parser_ok" d !! "parser_ok" = Some v).
      { unfold AggregatorA.setdefault_none.
        destruct (d !! "parser_ok") as [v|] eqn:Hv.
        - exists v. split; [congruence|done].
        - exists VNone. split; [done|by rewrite lookup_insert_eq]. }
      destruct Hin as (v & Hne & Hv). exists v. split; [done|].
      unfold AggregatorA.setdefault_none at 1.
      destruct (_ !! "structure_consistent"); [done|].
      by rewrite lookup_insert_ne. }
    destruct Hl as (v & Hne & Hv).
    rewrite (get_union_l _ _ _ _ Hv). congruence.
Qed.

(** C7, as amended: an encryption parser is called exactly when the merged
    structural features hold [parser_ok] equal to [True] and a parser is
    registered for the [_enc] family of the sniffed family, and it is that
    parser. The merged [parser_ok] is not [True] when no structural parser
    exists or when the parser's record does not say so. In that case no
    encryption parser runs and a declared [_enc] column is null in the
    record when it is not one of the six metrics and either belongs to the
    [_enc] section of the sniffed family or is left null by Aggregator A
    (which copies a key of that name from the sniffer or the structural
    parser otherwise). *)
Theorem encryption_parser_runs_only_on_parser_ok
    (reg : registry) (cfg : config) (f : file) :
  is_Some (ExtractContext cfg) →
  (∀ e, CallEncParser e ∈ (extract_feats reg cfg f).1 ↔
        e = (sniffed_family cfg f +:+ "_enc")%string ∧
        structural_features reg cfg f !! "parser_ok" = Some (VBool true) ∧
        is_Some (get_parser_enc reg (sniffed_family cfg f +:+ "_enc")%string)) ∧
  (get_parser reg (sniffed_family cfg f) = None →
   structural_features reg cfg f !! "parser_ok" ≠ Some (VBool true)) ∧
  (∀ p d, get_parser reg (sniffed_family cfg f) = Some p → p f = PDict d →
          d !! "parser_ok" ≠ Some (VBool true) →
          structural_features reg cfg f !! "parser_ok" ≠ Some (VBool true)) ∧
  (structural_features reg cfg f !! "parser_ok" ≠ Some (VBool true) →
   ∃ record,
     (extract_feats reg cfg f).2 = Ok record ∧
     ∀ name, declared_enc cfg name → name ∉ METRIC_NAMES →
             name ∈ family_enc_columns cfg (sniffed_family cfg f)
             ∨ AggregatorA.get (structural_features reg cfg f) name = VNone →
             record !! name = Some VNone).
Proof.
  intros [ctx Hctx].
  split; [|split; [|split]].
  - intros e. rewrite (extract_feats_events _ _ _ _ Hctx).
    rewrite (merge_feats_stages reg cfg ctx f Hctx). simpl.
    rewrite elem_of_app, encryption_feats_events.
    pose proof (structural_feats_events reg (sniffed_family cfg f) f e).
    tauto.
  - apply structural_features_parser_ok.
  - apply structural_features_parser_ok.
  - intros Hgate. eexists. split; [by apply extract_feats_ok|].
    intros name Hd Hm Hname.
    destruct (record_lookup reg cfg ctx f name Hctx
                (declared_enc_declared _ _ Hd)) as (rec & Hrec & Hl).
    + by apply (merge_feats_null reg cfg ctx f name Hctx Hm Hgate).
    + rewrite (extract_feats_ok reg cfg ctx f Hctx) in Hrec.
      injection Hrec as <-. done.
Qed.

Lemma example_config_context : is_Some (ExtractContext example_config).
Proof. eexists. vm_compute. reflexivity. Defined.

Lemma extract_feats_recovers_failed_parser_witness :
  ∃ record,
    extract_feats example_registry example_config file_ole2_signature_only
      = ([CallParser "ole2"], Ok record) ∧
    record !! "parser_ok" = Some VNone.
Proof.
  assert (Hfam : sniffed_family example_config file_ole2_signature_only = "ole2")
    by (vm_compute; reflexivity).
  destruct (extract_feats_recovers_failed_parser example_registry
              example_config file_ole2_signature_only
              (λ f, Ole2.parse_ole2 (content f)))
    as (record & Hrec & _ & Hpo & _).
  - exact example_config_context.
  - rewrite Hfam. reflexivity.
  - right. vm_compute. reflexivity.
  - exists record. rewrite Hfam in Hrec. split; [exact Hrec|].
    apply Hpo. apply collect_schema_declared. by_decide.
Defined.

(** C5 as stated fails on a file that holds the 8-byte compound-file
    signature and nothing else: [parse_ole2] returns [None], and the record
    carries null where the default record of the format has [False] and
    0. *)
Lemma extract_feats_failed_parser_not_default :
  Ole2.parse_ole2 (content file_ole2_signature_only) = PNone ∧
  Ole2.DEF_RETURN !! "parser_ok" = Some (VBool false) ∧
  Ole2.DEF_RETURN !! "structure_consistent" = Some (VBool false) ∧
  Ole2.DEF_RETURN !! "ole_stream_count" = Some (VInt 0) ∧
  ∃ record,
    (extract_feats example_registry example_config
       file_ole2_signature_only).2 = Ok record ∧
    record !! "parser_ok" = Some VNone ∧
    record !! "structure_consistent" = Some VNone ∧
    record !! "ole_stream_count" = Some VNone ∧
    record !! "ole_dir_ok" = Some VNone.
Proof.
  split; [vm_compute; reflexivity|].
  split; [vm_compute; reflexivity|].
  split; [vm_compute; reflexivity|].
  split; [vm_compute; reflexivity|].
  eexists. split; [vm_compute; reflexivity|].
  vm_compute. repeat split.
Qed.

Lemma encryption_parser_runs_only_on_parser_ok_witness :
  ∃ record,
    (extract_feats example_registry example_config
       file_zip_local_header_only).2 = Ok record ∧
    record !! "zip_any_entry_encrypted" = Some VNone.
Proof.
  destruct (encryption_parser_runs_only_on_parser_ok example_registry
              example_config file_zip_local_header_only
              example_config_context) as (_ & _ & _ & H).
  destruct H as (record & Hrec & Hn).
  - vm_compute. intros [=].
  - exists record. split; [exact Hrec|]. apply Hn.
    + split; [done|].
      exists "zip_enc", [col "zip_any_entry_encrypted" "bool"], (Some "bool").
      split; [by_decide|].
      split; [reflexivity|by_decide].
    + by_decide.
    + left. by_decide.
Defined.

(** C7 as stated fails when an [_enc] section repeats a column that the
    structural parser fills: on a 3-byte file with the GZIP magic the parser
    reports [parser_ok = False], no encryption parser runs, and the column
    [parser_ok], which the [zip_enc] section declares, is [False] in the
    record, not null. *)
Lemma declared_enc_column_not_null :
  declared_enc example_config_enc_parser_ok "parser_ok" ∧
  structural_features example_registry example_config_enc_parser_ok
    file_gzip_magic_only !! "parser_ok" = Some (VBool false) ∧
  (extract_feats example_registry example_config_enc_parser_ok
     file_gzip_magic_only).1 = [CallParser "gzip"] ∧
  ∃ record,
    (extract_feats example_registry example_config_enc_parser_ok
       file_gzip_magic_only).2 = Ok record ∧
    record !! "parser_ok" = Some (VBool false).
Proof.
  split.
  { split; [done|].
    exists "zip_enc",
      [col "zip_any_entry_encrypted" "bool"; col "parser_ok" "bool"],
      (Some "bool").
    split; [by_decide|].
    split; [reflexivity|by_decide]. }
  split; [vm_compute; reflexivity|].
  split; [vm_compute; reflexivity|].
  eexists. split; [vm_compute; reflexivity|]. vm_compute. reflexivity.
Qed.

End ExtractFacts.

(** ** Byte statistics *)

Section StatsFacts.
Import AggregatorC.

Lemma index_of_coincidence_small (counts : list Z) (total : Z) :
  total ≤ 1 → index_of_coincidence counts total = None.
Proof.
  intros H. unfold index_of_coincidence.
  destruct (Z.leb_spec total 1); [done|lia].
Qed.

(** What [collect] stores under each metric name that is declared. *)
Lemma collect_metrics (cols : list string) (f : file) :
  let s := byte_statistics f in
  ("entropy_global" ∈ cols →
   collect cols f !! "entropy_global"
   = Some (from_option VFloat VNone (entropy_from_counts (counts s) (total s)))) ∧
  ("min_entropy_global" ∈ cols →
   collect cols f !! "min_entropy_global"
   = Some (from_option VFloat VNone (min_entropy (counts s) (total s)))) ∧
  ("entropy_head" ∈ cols →
   collect cols f !! "entropy_head"
   = Some (from_option VFloat VNone (entropy_from_bytes (head s)))) ∧
  ("entropy_tail" ∈ cols →
   collect cols f !! "entropy_tail"
   = Some (from_option VFloat VNone (entropy_from_bytes (tail s)))) ∧
  ("byte_chi2" ∈ cols →
   collect cols f !! "byte_chi2"
   = Some (from_option VFloat VNone (chi_square (counts s) (total s)))) ∧
  ("ic_index" ∈ cols →
   collect cols f !! "ic_index"
   = Some (from_option VFloat VNone (index_of_coincidence (counts s) (total s)))).
Proof.
  simpl. unfold collect.
  destruct cols as [|c cols].
  { repeat split; intros H; by apply not_elem_of_nil in H. }
  repeat split; intros Hin;
    rewrite ?lookup_set_if_declared_ne by done;
    rewrite lookup_set_if_declared_eq;
    rewrite ?lookup_set_if_declared_ne by done;
    rewrite (lookup_list_to_map_fun (λ _, VNone) (c :: cols));
    by rewrite bool_decide_eq_true_2.
Qed.

Lemma byte_statistics_empty (nl : option (list string)) :
  total (byte_statistics (File [] nl)) = 0.
Proof. reflexivity. Qed.

Lemma byte_statistics_one_byte (b : byte) (nl : option (list string)) :
  let s := byte_statistics (File [b] nl) in
  total s = 1 ∧ head s = [b] ∧ tail s = [b] ∧ max_count (counts s) = 1.
Proof. destruct b; vm_compute; done. Qed.

(** C10: [index_of_coincidence] returns [None] whenever the total is at
    most 1. For a file of 0 or 1 bytes the declared column [ic_index] is
    therefore null, while for a file of 1 byte each of the other five
    metrics that is declared holds a float. *)
Theorem index_of_coincidence_null_up_to_one_byte :
  (∀ (counts : list Z) (total : Z),
     total ≤ 1 → index_of_coincidence counts total = None) ∧
  (∀ (cols : list string) (f : file),
     len (content f) ≤ 1 → "ic_index" ∈ cols →
     collect cols f !! "ic_index" = Some VNone) ∧
  (∀ (cols : list string) (f : file) (name : string),
     len (content f) = 1 → name ∈ cols →
     name ∈ ["entropy_global"; "min_entropy_global"; "entropy_head";
             "entropy_tail"; "byte_chi2"] →
     ∃ x, collect cols f !! name = Some (VFloat x)).
Proof.
  split; [exact index_of_coincidence_small|]. split.
  - intros cols [data nl] Hlen Hin. simpl in Hlen.
    destruct (collect_metrics cols (File data nl)) as (_ & _ & _ & _ & _ & Hic).
    rewrite (Hic Hin). rewrite index_of_coincidence_small; [done|].
    destruct data as [|b [|b' data]].
    + by rewrite byte_statistics_empty.
    + destruct (byte_statistics_one_byte b nl) as (-> & _). done.
    + unfold len in Hlen. simpl in Hlen. lia.
  - intros cols [data nl] name Hlen Hin Hname. simpl in Hlen.
    destruct data as [|b [|b' data]]; [done| |unfold len in Hlen; simpl in Hlen; lia].
    destruct (collect_metrics cols (File [b] nl)) as (H1 & H2 & H3 & H4 & H5 & _).
    destruct (byte_statistics_one_byte b nl) as (Ht & Hh & Htl & Hm).
    simpl in *. rewrite Ht, ?Hh, ?Htl in *.
    repeat (apply elem_of_cons in Hname as [->|Hname]).
    + rewrite (H1 Hin). eexists. reflexivity.
    + rewrite (H2 Hin). unfold min_entropy. rewrite Hm. eexists. reflexivity.
    + rewrite (H3 Hin). eexists. reflexivity.
    + rewrite (H4 Hin). eexists. reflexivity.
    + rewrite (H5 Hin). eexists. reflexivity.
    + by apply not_elem_of_nil in Hname.
Qed.

Lemma index_of_coincidence_null_up_to_one_byte_witness :
  collect ["entropy_global"; "ic_index"] file_one_byte !! "ic_index"
    = Some VNone ∧
  ∃ x, collect ["entropy_global"; "ic_index"] file_one_byte !! "entropy_global"
       = Some (VFloat x).
Proof.
  destruct index_of_coincidence_null_up_to_one_byte as (_ & Hic & Hother).
  split.
  - apply Hic; [vm_compute; discriminate|].
    apply (bool_decide_unpack _); vm_compute; exact I.
  - apply Hother; [reflexivity| |];
      apply (bool_decide_unpack _); vm_compute; exact I.
Defined.

End StatsFacts.

(** * Further properties *)

(** ** Bytes and lists *)

Section BytesFacts2.

Lemma bv_range (b : byte) : 0 ≤ bv b < 256.
Proof. destruct b; vm_compute; split; congruence. Qed.

Lemma bv_inj (a b : byte) : bv a = bv b → a = b.
Proof.
  unfold bv. intros H. apply N2Z.inj in H.
  apply (f_equal Byte.of_N) in H. rewrite !Byte.of_to_N in H. congruence.
Qed.

Lemma mjoin_cons {A : Type} (x : list A) (l : list (list A)) :
  mjoin (x :: l) = x ++ mjoin l.
Proof. done. Qed.

Lemma take_take_app {A : Type} (n : nat) (a b : list A) :
  take n (take n a ++ b) = take n (a ++ b).
Proof.
  destruct (decide (n ≤ length a)%nat).
  - rewrite !take_app_le by (rewrite ?length_take; lia).
    by rewrite take_take, Nat.min_id.
  - by rewrite (take_ge a) by lia.
Qed.

Lemma take_eq_nil {A : Type} (n : nat) (l : list A) :
  (0 < n)%nat → take n l = [] ↔ l = [].
Proof. intros Hn. destruct l, n; simpl; split; (done || lia). Qed.

Lemma slice_take (b : bytes) (n : nat) (lo hi : Z) :
  0 ≤ lo ≤ hi → hi ≤ Z.of_nat n → slice (take n b) lo hi = slice b lo hi.
Proof.
  intros Hlo Hhi. unfold slice.
  replace n with (Z.to_nat lo + (n - Z.to_nat lo))%nat at 1 by lia.
  rewrite <- take_drop_commute, take_take. f_equal. lia.
Qed.

Lemma index_take (b : bytes) (n : nat) (i : Z) :
  i < Z.of_nat n → index (take n b) i = index b i.
Proof.
  intros Hi. unfold index. destruct (Z.ltb_spec i 0); [done|].
  rewrite lookup_take_lt; [done|lia].
Qed.

End BytesFacts2.

(** ** Byte statistics of a whole file *)

Section ChunkedPass.
Import AggregatorC.

Lemma file_chunks_concat (n : nat) (rest : bytes) :
  (length rest ≤ n)%nat → mjoin (file_chunks n rest) = rest.
Proof.
  revert rest. induction n as [|n IH]; intros rest Hlen.
  { destruct rest; [done|simpl in Hlen; lia]. }
  destruct rest as [|b rest]; [done|].
  change (file_chunks (S n) (b :: rest))
    with (take (Z.to_nat CHUNK_SIZE) (b :: rest)
            :: file_chunks n (drop (Z.to_nat CHUNK_SIZE) (b :: rest))).
  rewrite mjoin_cons, IH, take_drop; [done|].
  rewrite length_drop. cbn [length] in Hlen.
  assert (1 ≤ Z.to_nat CHUNK_SIZE)%nat by (unfold CHUNK_SIZE; lia).
  cbn [length]. lia.
Qed.

Lemma count_bytes_app (c : list Z) (a b : bytes) :
  count_bytes c (a ++ b) = count_bytes (count_bytes c a) b.
Proof. unfold count_bytes. apply foldl_app. Qed.

Lemma last_bytes_app (n : Z) (a b : bytes) :
  0 ≤ n → last_bytes n (last_bytes n a ++ b) = last_bytes n (a ++ b).
Proof.
  intros Hn. unfold last_bytes, len.
  rewrite !length_app, !length_drop.
  destruct (decide (Z.of_nat (length a) ≤ n)).
  - replace (Z.to_nat (Z.of_nat (length a) - n)) with 0%nat by lia.
    by rewrite Nat.sub_0_r, drop_0.
  - rewrite !drop_app, length_drop, drop_drop.
    f_equal; [f_equal; lia|f_equal; lia].
Qed.

Lemma read_chunk_head (h chunk : bytes) :
  len h ≤ SEGMENT_SIZE →
  (if len h <? SEGMENT_SIZE then h ++ slice chunk 0 (SEGMENT_SIZE - len h) else h)
  = take (Z.to_nat SEGMENT_SIZE) (h ++ chunk).
Proof.
  intros Hh. unfold len in *. destruct (Z.ltb_spec (Z.of_nat (length h)) SEGMENT_SIZE).
  - unfold slice. rewrite drop_0, Z.sub_0_r.
    rewrite take_app_ge by lia. do 2 f_equal. lia.
  - rewrite take_app_le by lia. rewrite take_ge; [done|lia].
Qed.

Lemma last_bytes_short (n : Z) (a : bytes) : len a ≤ n → last_bytes n a = a.
Proof.
  intros Ha. unfold last_bytes.
  by replace (Z.to_nat (len a - n)) with 0%nat by lia.
Qed.

Lemma len_last_bytes (n : Z) (a : bytes) : 0 ≤ n → len (last_bytes n a) ≤ n.
Proof. intros Hn. unfold last_bytes, len. rewrite length_drop. lia. Qed.

Lemma foldl_read_chunk (chunks : list bytes) (s : stats) :
  len (head s) ≤ SEGMENT_SIZE →
  len (tail s) ≤ SEGMENT_SIZE →
  foldl read_chunk s chunks
  = Stats (count_bytes (counts s) (mjoin chunks))
          (total s + len (mjoin chunks))
          (take (Z.to_nat SEGMENT_SIZE) (head s ++ mjoin chunks))
          (last_bytes SEGMENT_SIZE (tail s ++ mjoin chunks)).
Proof.
  assert (HS : 0 ≤ SEGMENT_SIZE) by (unfold SEGMENT_SIZE; lia).
  revert s. induction chunks as [|c chunks IH]; intros s Hh Ht.
  - simpl. rewrite !app_nil_r. destruct s as [cs t h tl]. simpl in *.
    f_equal.
    + unfold len. simpl. lia.
    + rewrite take_ge; [done|unfold len in Hh; lia].
    + by rewrite last_bytes_short.
  - rewrite mjoin_cons. simpl foldl. rewrite IH.
    + unfold read_chunk at 1 2 3 4. simpl.
      rewrite read_chunk_head by done.
      rewrite count_bytes_app, take_take_app.
      unfold deque_extend. fold (last_bytes SEGMENT_SIZE (tail s ++ c)).
      f_equal.
      * unfold len. rewrite length_app. lia.
      * by rewrite <- app_assoc.
      * rewrite last_bytes_app by done. by rewrite <- app_assoc.
    + unfold read_chunk. simpl. rewrite read_chunk_head by done.
      unfold len. rewrite length_take. lia.
    + unfold read_chunk. simpl. unfold deque_extend.
      fold (last_bytes SEGMENT_SIZE (tail s ++ c)). by apply len_last_bytes.
Qed.

(** The chunked pass of [byte_statistics] is invisible. *)
Lemma byte_statistics_whole (f : file) :
  byte_statistics f
  = Stats (count_bytes (replicate 256 0) (content f))
          (len (content f))
          (take (Z.to_nat SEGMENT_SIZE) (content f))
          (last_bytes SEGMENT_SIZE (content f)).
Proof.
  unfold byte_statistics. rewrite foldl_read_chunk.
  - by rewrite file_chunks_concat.
  - by cbv.
  - by cbv.
Qed.

Lemma byte_statistics_fields (f : file) :
  counts (byte_statistics f) = count_bytes (replicate 256 0) (content f) ∧
  total (byte_statistics f) = len (content f) ∧
  AggregatorC.head (byte_statistics f)
    = take (Z.to_nat SEGMENT_SIZE) (content f) ∧
  AggregatorC.tail (byte_statistics f)
    = last_bytes SEGMENT_SIZE (content f).
Proof. by rewrite byte_statistics_whole. Qed.

(** Each byte of the data adds one to the count at its value. *)
Lemma count_bytes_lookup (data : bytes) (c : list Z) (i : nat) :
  count_bytes c data !! i
  = (λ x, x + Z.of_nat (length (filter (λ b, Z.to_nat (bv b) = i) data)))
      <$> c !! i.
Proof.
  revert c. induction data as [|b data IH]; intros c.
  { unfold count_bytes. simpl foldl. rewrite filter_nil.
    destruct (c !! i) as [x|]; simpl; [|done]. f_equal. lia. }
  change (count_bytes c (b :: data))
    with (count_bytes (alter (λ x, x + 1) (Z.to_nat (bv b)) c) data).
  rewrite IH, filter_cons. destruct (decide (Z.to_nat (bv b) = i)) as [->|Hne].
  - rewrite list_lookup_alter, decide_True by done.
    destruct (c !! _) as [x|]; simpl; [|done].
    apply (f_equal Some). lia.
  - by rewrite list_lookup_alter, decide_False by done.
Qed.

Lemma sum_counts_alter (c : list Z) (i : nat) :
  (i < length c)%nat →
  sum_counts (alter (λ x, x + 1) i c) = sum_counts c + 1.
Proof.
  unfold sum_counts.
  revert i. induction c as [|x c IH]; intros i Hi; [simpl in Hi; lia|].
  destruct i as [|i]; simpl in *; [lia|].
  specialize (IH i ltac:(lia)). unfold alter in IH. lia.
Qed.

Lemma length_count_bytes (data : bytes) (c : list Z) :
  length (count_bytes c data) = length c.
Proof.
  revert c. induction data as [|b data IH]; intros c; [done|].
  change (count_bytes c (b :: data))
    with (count_bytes (alter (λ x, x + 1) (Z.to_nat (bv b)) c) data).
  by rewrite IH, length_alter.
Qed.

Lemma sum_count_bytes (data : bytes) (c : list Z) :
  length c = 256%nat →
  sum_counts (count_bytes c data) = sum_counts c + len data.
Proof.
  revert c. induction data as [|b data IH]; intros c Hc.
  { unfold len. simpl. lia. }
  change (count_bytes c (b :: data))
    with (count_bytes (alter (λ x, x + 1) (Z.to_nat (bv b)) c) data).
  rewrite IH by (by rewrite length_alter).
  rewrite sum_counts_alter by (pose proof (bv_range b); lia).
  unfold len. simpl length. lia.
Qed.

Lemma max_count_pos (c : list Z) : 0 < sum_counts c → 0 < max_count c.
Proof.
  induction c as [|x c IH]; simpl; [lia|]. intros H.
  destruct (decide (0 < x)); [lia|].
  assert (0 < sum_counts c) by (unfold sum_counts in *; lia).
  specialize (IH ltac:(done)). unfold max_count in *. lia.
Qed.

End ChunkedPass.
Section MetricNull.
Import AggregatorC.

Lemma entropy_from_counts_None (c : list Z) (t : Z) :
  entropy_from_counts c t = None ↔ t = 0.
Proof.
  unfold entropy_from_counts. destruct (Z.eqb_spec t 0); split; done.
Qed.

Lemma entropy_from_bytes_None (data : bytes) :
  entropy_from_bytes data = None ↔ data = [].
Proof.
  unfold entropy_from_bytes. destruct (Z.eqb_spec (len data) 0) as [H|H].
  - split; [|done]. intros _. destruct data; [done|]. unfold len in H. simpl in H. lia.
  - rewrite entropy_from_counts_None. split; [done|]. intros ->. done.
Qed.

Lemma min_entropy_None (c : list Z) (t : Z) :
  sum_counts c = t → 0 ≤ t → min_entropy c t = None ↔ t = 0.
Proof.
  intros Hs Ht. unfold min_entropy. destruct (Z.eqb_spec t 0); [done|].
  pose proof (max_count_pos c ltac:(lia)).
  destruct (Z.eqb_spec (max_count c) 0); [lia|]. split; [done|lia].
Qed.

Lemma expected_not_zero (t : Z) :
  t ≠ 0 → fl_is_zero (FDiv (FOfInt t) (FLit 256)) = false.
Proof.
  intros Ht. unfold fl_is_zero. simpl.
  apply not_true_is_false. intros H. apply Qeq_bool_iff in H.
  apply Ht. unfold Qeq in H. simpl in H. lia.
Qed.

Lemma chi_square_None (c : list Z) (t : Z) : chi_square c t = None ↔ t = 0.
Proof.
  unfold chi_square. destruct (Z.eqb_spec t 0); [done|].
  rewrite expected_not_zero by done. split; [done|lia].
Qed.

Lemma index_of_coincidence_None (c : list Z) (t : Z) :
  index_of_coincidence c t = None ↔ t ≤ 1.
Proof.
  unfold index_of_coincidence. destruct (Z.leb_spec t 1); [done|].
  destruct (Z.eqb_spec (t * (t - 1)) 0); [nia|]. split; [done|lia].
Qed.

Lemma from_option_VNone (x : option pyfloat) :
  from_option VFloat VNone x = VNone ↔ x = None.
Proof. destruct x; split; done. Qed.

Lemma content_empty_len (data : bytes) : len data = 0 ↔ data = [].
Proof.
  unfold len. split; [|by intros ->]. destruct data; [done|simpl; lia].
Qed.

End MetricNull.
Section WholeFileMetrics.
Import AggregatorC.

(** X1 ([byte_statistics]): reading the file in chunks of 64 KiB is
    invisible in the result. The total is the size of the file, the head
    and tail segments are its first and last 32 KiB (the whole file when it
    is shorter), and the table of counts has 256 entries, the entry of each
    byte value being the number of its occurrences, so that the counts add
    up to the total. *)
Theorem byte_statistics_of_whole_file (f : file) :
  let s := byte_statistics f in
  total s = len (content f) ∧
  head s = take (Z.to_nat SEGMENT_SIZE) (content f) ∧
  tail s = last_bytes SEGMENT_SIZE (content f) ∧
  length (counts s) = 256%nat ∧
  (∀ b : byte, counts s !! Z.to_nat (bv b) = Some (occurrences b (content f))) ∧
  sum_counts (counts s) = total s.
Proof.
  cbv zeta. destruct (byte_statistics_fields f) as (-> & -> & -> & ->).
  split; [done|]. split; [done|]. split; [done|].
  split; [by rewrite length_count_bytes|]. split.
  - intros b. rewrite count_bytes_lookup.
    rewrite lookup_replicate_2 by (pose proof (bv_range b); lia).
    simpl. unfold occurrences. rewrite Z.add_0_l. do 3 f_equal.
    apply list_filter_iff. intros x. split; [|by intros ->].
    intros H. apply bv_inj. pose proof (bv_range x). pose proof (bv_range b). lia.
  - by rewrite sum_count_bytes.
Qed.

Lemma last_bytes_eq_nil (n : Z) (l : bytes) :
  0 < n → last_bytes n l = [] ↔ l = [].
Proof.
  intros Hn. rewrite <- !content_empty_len. unfold last_bytes, len.
  rewrite length_drop. lia.
Qed.

Lemma SEGMENT_SIZE_pos : 0 < SEGMENT_SIZE ∧ (0 < Z.to_nat SEGMENT_SIZE)%nat.
Proof. unfold SEGMENT_SIZE. lia. Qed.

(** When a declared metric is null. *)
Lemma collect_metric_null_iff
    (cols : list string) (f : file) (name : string) :
  name ∈ cols →
  (name ∈ ["entropy_global"; "min_entropy_global"; "entropy_head";
           "entropy_tail"; "byte_chi2"] →
   (collect cols f !! name = Some VNone ↔ content f = [])) ∧
  (name = "ic_index" →
   (collect cols f !! name = Some VNone ↔ len (content f) ≤ 1)).
Proof.
  intros Hin.
  destruct (collect_metrics cols f) as (H1 & H2 & H3 & H4 & H5 & H6).
  cbv zeta in *.
  destruct (byte_statistics_fields f) as (Hc & Ht & Hh & Htl).
  rewrite Hc, Ht in H1, H2, H5, H6. rewrite Hh in H3. rewrite Htl in H4.
  assert (Hinj : ∀ x, Some (from_option VFloat VNone x) = Some VNone ↔ x = None).
  { intros x. rewrite <- from_option_VNone. split; [congruence|]. intros Hx. by rewrite Hx. }
  destruct SEGMENT_SIZE_pos as [HS HS'].
  split.
  - intros Hname. repeat (apply elem_of_cons in Hname as [->|Hname]).
    + rewrite (H1 Hin), Hinj, entropy_from_counts_None. apply content_empty_len.
    + rewrite (H2 Hin), Hinj, min_entropy_None, content_empty_len; [done| |].
      * by rewrite sum_count_bytes.
      * unfold len. lia.
    + rewrite (H3 Hin), Hinj, entropy_from_bytes_None.
      by apply take_eq_nil.
    + rewrite (H4 Hin), Hinj, entropy_from_bytes_None.
      by apply last_bytes_eq_nil.
    + rewrite (H5 Hin), Hinj, chi_square_None. apply content_empty_len.
    + by apply not_elem_of_nil in Hname.
  - intros ->. by rewrite (H6 Hin), Hinj, index_of_coincidence_None.
Qed.

(** X2 ([AggregatorC.collect] with [entropy_from_counts], [min_entropy],
    [entropy_from_bytes], [chi_square], [index_of_coincidence]): a declared
    metric is null exactly when the file is too short for it. The two
    entropies, the head and tail entropies and the chi-square statistic are
    null only for the empty file; the index of coincidence is null only for
    files of at most one byte. *)
Theorem statistic_columns_null_iff_too_short
    (cols : list string) (f : file) (name : string) :
  name ∈ cols →
  (name ∈ ["entropy_global"; "min_entropy_global"; "entropy_head";
           "entropy_tail"; "byte_chi2"] →
   (collect cols f !! name = Some VNone ↔ content f = [])) ∧
  (name = "ic_index" →
   (collect cols f !! name = Some VNone ↔ len (content f) ≤ 1)).
Proof. apply collect_metric_null_iff. Qed.

Lemma statistic_columns_null_iff_too_short_witness :
  (collect METRIC_NAMES file_gzip_magic_only !! "entropy_tail" = Some VNone
   ↔ content file_gzip_magic_only = []).
Proof.
  apply (statistic_columns_null_iff_too_short
           METRIC_NAMES file_gzip_magic_only "entropy_tail").
  - apply (bool_decide_unpack _); vm_compute; exact I.
  - apply (bool_decide_unpack _); vm_compute; exact I.
Defined.

End WholeFileMetrics.

(** ** GZIP: totality and the optional fields *)

Section GzipFields.
Import Gzip.

Lemma DEF_RETURN_record : DEF_RETURN = record false false false.
Proof. reflexivity. Qed.

(** What the scan for the terminating NUL returns. *)
Lemma scan_to_nul_spec (rest : bytes) (pos : Z) :
  let p := scan_to_nul rest pos in
  pos ≤ p ≤ pos + len rest ∧
  (∀ i b, (i < Z.to_nat (p - pos))%nat → rest !! i = Some b → bv b ≠ 0) ∧
  (p < pos + len rest → ∃ b, rest !! Z.to_nat (p - pos) = Some b ∧ bv b = 0).
Proof.
  revert pos. induction rest as [|x rest IH]; intros pos; simpl.
  { unfold len. simpl. split; [lia|]. split; [|lia]. intros i b Hi. lia. }
  destruct (Z.eqb_spec (bv x) 0) as [Hx|Hx].
  - unfold len. simpl length. split; [lia|]. split; [intros i b Hi; lia|].
    intros _. exists x. by rewrite Z.sub_diag.
  - destruct (IH (pos + 1)) as (Hr & Hnz & Hz).
    unfold len in *. simpl length. split; [lia|]. split.
    + intros [|i] b Hi Hb; simpl in Hb; [congruence|].
      apply (Hnz i b); [lia|done].
    + intros Hlt. destruct Hz as (b & Hb & Hb0); [lia|]. exists b.
      replace (Z.to_nat (scan_to_nul rest (pos + 1) - pos))
        with (S (Z.to_nat (scan_to_nul rest (pos + 1) - (pos + 1)))) by lia.
      done.
Qed.

(** The name is present when its first byte is not NUL and a NUL follows
    within the data. *)
Lemma scan_name_present (data : bytes) (pos : Z) :
  0 ≤ pos ≤ len data →
  let p := scan_to_nul (drop (Z.to_nat pos) data) pos in
  (p <? len data) && (pos <? p) = true
  ↔ index data pos ≠ Some 0 ∧ ∃ k, pos ≤ k ∧ index data k = Some 0.
Proof.
  intros Hpos. cbv zeta.
  destruct (scan_to_nul_spec (drop (Z.to_nat pos) data) pos) as (Hr & Hnz & Hz).
  set (p := scan_to_nul (drop (Z.to_nat pos) data) pos) in *.
  assert (Hlen : pos + len (drop (Z.to_nat pos) data) = len data).
  { unfold len in *. rewrite length_drop. lia. }
  rewrite Hlen in *.
  assert (Hix : ∀ k, pos ≤ k →
            index data k = bv <$> drop (Z.to_nat pos) data !! Z.to_nat (k - pos)).
  { intros k Hk. unfold index. destruct (Z.ltb_spec k 0); [lia|].
    rewrite lookup_drop. do 2 f_equal. lia. }
  rewrite andb_true_iff, Z.ltb_lt, Z.ltb_lt. split.
  - intros [Hp Hs]. split.
    + rewrite Hix by lia. rewrite Z.sub_diag.
      destruct (drop (Z.to_nat pos) data !! Z.to_nat 0) as [b|] eqn:Hb;
        simpl; [|done].
      intros [= Hb0]. change (Z.to_nat 0) with 0%nat in Hb.
      apply (Hnz 0%nat b) in Hb; [done|lia].
    + destruct (Hz Hp) as (b & Hb & Hb0). exists p. split; [lia|].
      rewrite Hix by lia. by rewrite Hb, <- Hb0.
  - intros (Hfirst & k & Hk & Hk0).
    assert (Hkn : k < len data).
    { unfold index in Hk0. destruct (k <? 0); [done|].
      destruct (data !! Z.to_nat k) eqn:E; [|done].
      apply lookup_lt_Some in E. unfold len. lia. }
    assert (Hpk : p ≤ k).
    { destruct (decide (p ≤ k)); [done|]. exfalso.
      rewrite Hix in Hk0 by done.
      destruct (drop (Z.to_nat pos) data !! Z.to_nat (k - pos)) as [b|] eqn:Hb;
        [|done].
      injection Hk0 as Hk0. apply (Hnz _ b) in Hb; [done|lia]. }
    split; [lia|].
    destruct (decide (pos < p)); [done|]. exfalso.
    assert (p = pos) by lia.
    destruct Hz as (b & Hb & Hb0); [lia|].
    apply Hfirst. rewrite Hix by lia. replace pos with p at 1 by done.
    by rewrite Hb, <- Hb0.
Qed.

Lemma after_extra_name (data : bytes) (flg pos : Z) (h m : bool) :
  0 ≤ pos ≤ len data →
  ∃ nm, after_extra data flg pos (len data) h m = record h m nm ∧
    (nm = true ↔
     Z.land flg _FNAME ≠ 0 ∧ index data pos ≠ Some 0 ∧
     ∃ k, pos ≤ k ∧ index data k = Some 0).
Proof.
  intros Hpos. unfold after_extra.
  destruct (Z.eqb_spec (Z.land flg _FNAME) 0) as [Hf|Hf]; simpl.
  - exists false. split; [done|]. split; [done|]. intros [? _]. done.
  - eexists. split; [reflexivity|].
    rewrite (scan_name_present data pos Hpos). naive_solver.
Qed.

End GzipFields.

Section GzipTheorems.
Import Gzip.

(** The shape of every result of a file that holds the base header. *)
Lemma parse_gzip_try_shape (file : bytes) :
  _BASE_HDR_LEN ≤ len file →
  let data := take (Z.to_nat _MAX_READ) file in
  ∃ id1 id2 cm flg nm,
    index file 0 = Some id1 ∧ index file 1 = Some id2 ∧
    index file 2 = Some cm ∧ index file 3 = Some flg ∧
    parse_gzip_try file
    = Some (record (header_valid id1 id2 cm)
                   (negb (le_value (slice file 4 8) =? 0)) nm) ∧
    (Z.land flg _FEXTRA = 0 →
     (nm = true ↔
      Z.land flg _FNAME ≠ 0 ∧ index data _BASE_HDR_LEN ≠ Some 0 ∧
      ∃ k, _BASE_HDR_LEN ≤ k ∧ index data k = Some 0)).
Proof.
  intros Hlen. cbv zeta. unfold parse_gzip_try.
  set (data := take (Z.to_nat _MAX_READ) file).
  assert (Hd : _BASE_HDR_LEN ≤ len data)
    by (apply len_take_ge; [unfold _BASE_HDR_LEN, _MAX_READ; lia | done]).
  destruct (Z.ltb_spec (len data) _BASE_HDR_LEN) as [?|_]; [lia|].
  assert (Hix : ∀ i, 0 ≤ i < 10 → index data i = index file i).
  { intros i Hi. apply index_take. unfold _MAX_READ. lia. }
  unfold _BASE_HDR_LEN in Hlen, Hd.
  destruct (index_in_range file 0) as [id1 H0]; [lia|].
  destruct (index_in_range file 1) as [id2 H1]; [lia|].
  destruct (index_in_range file 2) as [cm H2]; [lia|].
  destruct (index_in_range file 3) as [flg H3]; [lia|].
  rewrite !Hix by lia. rewrite H0, H1, H2, H3. simpl.
  assert (Hm : unpack_le 4 data 4 = Some (le_value (slice file 4 8))).
  { unfold unpack_le. destruct (Z.ltb_spec (len data) (4 + 4)); [lia|]. simpl.
    unfold data. rewrite slice_take; [done|lia|unfold _MAX_READ; lia]. }
  rewrite Hm. simpl.
  exists id1, id2, cm, flg.
  destruct (Z.eqb_spec (Z.land flg _FEXTRA) 0) as [Hx|Hx]; simpl.
  - destruct (after_extra_name data flg _BASE_HDR_LEN
                (header_valid id1 id2 cm)
                (negb (le_value (slice file 4 8) =? 0))) as (nm & -> & Hnm);
      [unfold _BASE_HDR_LEN; lia|].
    exists nm. by repeat (split; [done|]).
  - destruct (len data <? _BASE_HDR_LEN + 2) eqn:E1.
    { exists false. by repeat (split; [done|]). }
    assert (Hxl : is_Some (unpack_le 2 data _BASE_HDR_LEN)).
    { unfold unpack_le, _BASE_HDR_LEN in *. rewrite E1. simpl. by eexists. }
    destruct Hxl as [xlen Hxl]. rewrite Hxl. simpl.
    destruct (len data <? _BASE_HDR_LEN + (2 + xlen)).
    { exists false. by repeat (split; [done|]). }
    destruct (gzip_after_extra_record data flg (_BASE_HDR_LEN + (2 + xlen))
                (len data) (header_valid id1 id2 cm)
                (negb (le_value (slice file 4 8) =? 0))) as [nm ->].
    exists nm. by repeat (split; [done|]).
Qed.

(** X3 ([parse_gzip]): the parser never reaches its [except] clause, and
    every result is a record of the five keys in which [parser_ok] and
    [structure_consistent] repeat [gzip_header_ok]. A file shorter than the
    base header of 10 bytes gives [False] everywhere; otherwise the header
    is accepted exactly when the first three bytes are [1F 8B 08], and the
    modification time is reported present exactly when the four bytes at
    offsets 4 to 7 are not all zero. *)
Theorem parse_gzip_never_raises (file : bytes) :
  ∃ h m nm,
    parse_gzip_try file = Some (record h m nm) ∧
    (len file < _BASE_HDR_LEN → h = false ∧ m = false ∧ nm = false) ∧
    (_BASE_HDR_LEN ≤ len file →
     h = bool_decide (take 3 file = [x1f; x8b; x08]) ∧
     m = negb (le_value (slice file 4 8) =? 0)).
Proof.
  destruct (Z.lt_ge_cases (len file) _BASE_HDR_LEN) as [Hs|Hl].
  - exists false, false, false. split; [|split; [done|lia]].
    unfold parse_gzip_try.
    assert (len (take (Z.to_nat _MAX_READ) file) < _BASE_HDR_LEN)
      by (unfold len in *; rewrite length_take; lia).
    destruct (Z.ltb_spec (len (take (Z.to_nat _MAX_READ) file)) _BASE_HDR_LEN);
      [done|lia].
  - destruct (parse_gzip_try_shape file Hl)
      as (id1 & id2 & cm & flg & nm & H0 & H1 & H2 & _ & Hp & _).
    eexists _, _, nm. split; [exact Hp|]. split; [lia|]. intros _.
    split; [|done].
    destruct file as [|b0 [|b1 [|b2 file]]];
      try (unfold len, _BASE_HDR_LEN in Hl; simpl in Hl; lia).
    unfold index in H0, H1, H2. simpl in H0, H1, H2.
    injection H0 as <-. injection H1 as <-. injection H2 as <-.
    unfold header_valid, _ID1, _ID2, _CM_DEFLATE. simpl take.
    apply eq_true_iff_eq. rewrite bool_decide_eq_true, !andb_true_iff, !Z.eqb_eq.
    split.
    + intros [[E0 E1] E2].
      rewrite (bv_inj b0 x1f E0), (bv_inj b1 x8b E1), (bv_inj b2 x08 E2). done.
    + intros [= -> -> ->]. done.
Qed.

(** X4 ([parse_gzip], FNAME field): for a file with the base header and
    without the FEXTRA flag, [gzip_name_present] is true exactly when the
    FNAME flag is set, the byte after the header is not NUL, and a NUL byte
    follows within the first 64 KiB. A name that is empty, or that is not
    terminated within the bytes read, is reported absent. *)
Theorem gzip_name_present_iff (file : bytes) (flg : Z) :
  _BASE_HDR_LEN ≤ len file →
  index file 3 = Some flg →
  Z.land flg _FEXTRA = 0 →
  let data := take (Z.to_nat _MAX_READ) file in
  ∃ d, parse_gzip file = PDict d ∧
    (d !! "gzip_name_present" = Some (VBool true) ↔
     Z.land flg _FNAME ≠ 0 ∧ index data _BASE_HDR_LEN ≠ Some 0 ∧
     ∃ k, _BASE_HDR_LEN ≤ k ∧ index data k = Some 0).
Proof.
  intros Hl Hflg Hx. cbv zeta.
  destruct (parse_gzip_try_shape file Hl)
    as (id1 & id2 & cm & flg' & nm & _ & _ & _ & H3 & Hp & Hnm).
  assert (flg' = flg) as -> by congruence.
  unfold parse_gzip. rewrite Hp. eexists. split; [done|].
  rewrite <- (Hnm Hx).
  destruct (gzip_record_lookup (header_valid id1 id2 cm)
              (negb (le_value (slice file 4 8) =? 0)) nm) as (_ & _ & -> & _).
  split; congruence.
Qed.

Lemma gzip_name_present_iff_witness :
  ∃ d, parse_gzip gzip_named = PDict d ∧
    (d !! "gzip_name_present" = Some (VBool true) ↔
     Z.land 8 _FNAME ≠ 0 ∧
     index (take (Z.to_nat _MAX_READ) gzip_named) _BASE_HDR_LEN ≠ Some 0 ∧
     ∃ k, _BASE_HDR_LEN ≤ k ∧
          index (take (Z.to_nat _MAX_READ) gzip_named) k = Some 0).
Proof.
  apply (gzip_name_present_iff gzip_named 8).
  - vm_compute. discriminate.
  - reflexivity.
  - reflexivity.
Defined.

End GzipTheorems.

(** ** MP4: what the result reports *)

Section Mp4Flags.
Import Mp4.

Local Ltac mp4_bools :=
  repeat match goal with
         | |- context [bool_decide (Some ?t ∈ ?l)] =>
           generalize (bool_decide (Some t ∈ l)); intro
         | |- context [bool_decide (Some ?a = Some ?b)] =>
           rewrite (bool_decide_eq_false_2 (Some a = Some b)) by done
         end;
  repeat match goal with x : bool |- _ => destruct x end; done.

(** The top-level scan sets each presence flag when a box of that type is
    met, and leaves [toplevel_ok] as it was. *)
Lemma scan_boxes_flags (fp : bytes) (ys : list (read_ev * box))
    (fin : option read_ev) (s : scan) :
  let s' := (scan_boxes fp ys fin s).2 in
  let types := b_type <$> ys.*2 in
  ftyp_present s' = ftyp_present s || bool_decide (Some "ftyp" ∈ types) ∧
  moov_present s' = moov_present s || bool_decide (Some "moov" ∈ types) ∧
  mdat_present s' = mdat_present s || bool_decide (Some "mdat" ∈ types) ∧
  toplevel_ok s' = toplevel_ok s.
Proof.
  cbv zeta. revert s. induction ys as [|[r b] ys IH]; intros s.
  { simpl. rewrite !orb_false_r. done. }
  simpl scan_boxes.
  destruct (scan_box fp b s) as [log1 s1] eqn:E1.
  specialize (IH s1).
  destruct (scan_boxes fp ys fin s1) as [log2 s2]. simpl in IH |- *.
  destruct IH as (-> & -> & -> & ->).
  assert (Hin : ∀ t : string,
            bool_decide (Some t ∈ b_type b :: (b_type <$> ys.*2))
            = bool_decide (b_type b = Some t)
              || bool_decide (Some t ∈ b_type <$> ys.*2)).
  { intros t. apply eq_true_iff_eq.
    rewrite orb_true_iff, !bool_decide_eq_true, elem_of_cons. naive_solver. }
  rewrite !Hin. unfold scan_box in E1.
  pose proof (validate_box_range_true fp (b_start b + b_hdr b)
                (b_start b + b_size b)) as Hv.
  destruct s as [f m d br t].
  destruct (bool_decide (b_type b = Some "ftyp")) eqn:Ef.
  { apply bool_decide_eq_true in Ef. injection E1 as _ <-.
    rewrite Ef. simpl. mp4_bools. }
  destruct (bool_decide (b_type b = Some "moov")) eqn:Em.
  { apply bool_decide_eq_true in Em.
    destruct (validate_box_range fp _ _) as [log ok]. simpl in Hv. subst ok.
    injection E1 as _ <-. rewrite Em. simpl. mp4_bools. }
  destruct (bool_decide (b_type b = Some "mdat")) eqn:Ed.
  { injection E1 as _ <-. simpl. mp4_bools. }
  injection E1 as _ <-. simpl. mp4_bools.
Qed.

(** X5 ([parse_mp4] with [validate_box_range]): for every file of at least
    8 bytes the result reports [mp4_box_tree_ok] as true, whatever the
    bytes are; the three presence flags say whether a top-level box of type
    [ftyp], [moov], [mdat] was yielded by [iter_boxes], and the two
    verdicts depend on these flags alone: [parser_ok] is
    [ftyp and (moov or mdat)], [structure_consistent] is
    [ftyp and moov and mdat]. *)
Theorem parse_mp4_verdict_from_top_level_types (fp : bytes) :
  8 ≤ len fp →
  let types := b_type <$> (iter_boxes fp 0 (len fp)).1.*2 in
  let ftyp := bool_decide (Some "ftyp" ∈ types) in
  let moov := bool_decide (Some "moov" ∈ types) in
  let mdat := bool_decide (Some "mdat" ∈ types) in
  ∃ brand,
    parse_mp4 fp
    = PDict {[ "mp4_ftyp_present" := VBool ftyp;
               "mp4_moov_present" := VBool moov;
               "mp4_mdat_present" := VBool mdat;
               "mp4_brand" := VStr brand;
               "mp4_box_tree_ok" := VBool true;
               "parser_ok" := VBool (ftyp && (moov || mdat));
               "structure_consistent" := VBool (ftyp && moov && mdat) ]}.
Proof.
  intros Hlen. cbv zeta. unfold parse_mp4, parse_mp4_io, fsize.
  destruct (Z.ltb_spec (len fp) 8); [lia|].
  pose proof (validate_box_range_true fp 0 (len fp)) as Hv.
  destruct (validate_box_range fp 0 (len fp)) as [log0 ok]. simpl in Hv. subst ok.
  destruct (iter_boxes fp 0 (len fp)) as [ys fin] eqn:Ei. simpl fst.
  pose proof (scan_boxes_flags fp ys fin (Scan false false false "" true)) as Hs.
  destruct (scan_boxes fp ys fin _) as [log1 s]. simpl in Hs.
  destruct Hs as (Hf & Hm & Hd & Ht). simpl.
  rewrite Hf, Hm, Hd, Ht. exists (brand s).
  by rewrite !andb_true_r.
Qed.

Lemma parse_mp4_verdict_from_top_level_types_witness :
  ∃ brand,
    parse_mp4 mp4_nested
    = PDict {[ "mp4_ftyp_present" := VBool false;
               "mp4_moov_present" := VBool true;
               "mp4_mdat_present" := VBool true;
               "mp4_brand" := VStr brand;
               "mp4_box_tree_ok" := VBool true;
               "parser_ok" := VBool false;
               "structure_consistent" := VBool false ]}.
Proof.
  assert (H : 8 ≤ len mp4_nested) by (vm_compute; discriminate).
  destruct (parse_mp4_verdict_from_top_level_types mp4_nested H) as [brand Hb].
  exists brand. rewrite Hb. vm_compute. reflexivity.
Defined.

End Mp4Flags.
Section Mp4Last.
Import Mp4.

Lemma box_at_size_zero (head : bytes) (limit pos : Z) (b : box) :
  box_at head limit pos = Some b →
  read_u32 head 0 = Some 0 → b_size b = limit - pos.
Proof.
  unfold box_at. intros H H0. rewrite H0 in H. simpl in H.
  repeat (case_match; simplify_eq); done.
Qed.

Lemma iter_boxes_from_last (fuel : nat) (fp : bytes) (limit pos : Z)
    (i : nat) (b : box) :
  (iter_boxes_from fuel fp limit pos).1.*2 !! i = Some b →
  (read_u32 (read_at fp (b_start b) 16) 0 = Some 0 →
   b_start b + b_size b = limit) ∧
  (limit < b_start b + b_size b + 8 →
   length (iter_boxes_from fuel fp limit pos).1.*2 = S i).
Proof.
  revert pos i. induction fuel as [|fuel IH]; intros pos i; simpl; [done|].
  destruct (pos + 8 <=? limit); [|done].
  destruct (box_at _ limit pos) as [b0|] eqn:Hb; [|done].
  specialize (IH (pos + b_size b0)).
  destruct (iter_boxes_from fuel fp limit (pos + b_size b0)) as [ys fin] eqn:Ei.
  simpl in *. destruct i as [|i]; simpl.
  - intros [= ->]. pose proof (box_at_Some _ _ _ _ Hb) as (Hs & _).
    split.
    + intros H0. rewrite Hs in H0 |- *.
      rewrite (box_at_size_zero _ _ _ _ Hb H0). lia.
    + intros Hend. rewrite Hs in Hend.
      destruct fuel as [|fuel]; simpl in Ei; [by injection Ei as <- _|].
      destruct (Z.leb_spec (pos + b_size b + 8) limit); [lia|].
      by injection Ei as <- _.
  - intros Hi. destruct (IH i Hi) as [H1 H2]. split; [done|].
    intros Hend. f_equal. by apply H2.
Qed.

(** X6 ([iter_boxes]): a box whose 32-bit size field is 0 is yielded as
    reaching the end of the range, and a yielded box that ends less than 8
    bytes before the end of the range is the last one: what follows it is
    never read as a box. *)
Theorem iter_boxes_box_to_end_is_last
    (fp : bytes) (start end_ : Z) (i : nat) (b : box) :
  (iter_boxes fp start end_).1.*2 !! i = Some b →
  (read_u32 (read_at fp (b_start b) 16) 0 = Some 0 →
   b_start b + b_size b = end_) ∧
  (end_ < b_start b + b_size b + 8 →
   length (iter_boxes fp start end_).1.*2 = S i).
Proof. apply iter_boxes_from_last. Qed.

Lemma iter_boxes_box_to_end_is_last_witness :
  length (iter_boxes mp4_nested 0 24).1.*2 = 2%nat.
Proof.
  assert (H : (iter_boxes mp4_nested 0 24).1.*2 !! 1%nat
              = Some (Box (Some "mdat") 16 8 8))
    by (vm_compute; reflexivity).
  assert (Hend : 24 < 16 + 8 + 8) by lia.
  exact (proj2 (iter_boxes_box_to_end_is_last mp4_nested 0 24 1 _ H) Hend).
Defined.

End Mp4Last.

(** ** ZIP: the end-of-central-directory record *)

Section ZipEocd.
Import Zip.

Lemma rfind_from_Some (hay needle : bytes) (i : Z) (last : option Z) (r : Z) :
  rfind_from hay needle i last = Some r →
  (last = Some r ∧
   ∀ k : nat, (k < length hay)%nat → startswith (drop k hay) needle = false) ∨
  (∃ k : nat, (k < length hay)%nat ∧ r = i + Z.of_nat k ∧
     startswith (drop k hay) needle = true ∧
     ∀ j : nat, (k < j)%nat → (j < length hay)%nat →
       startswith (drop j hay) needle = false).
Proof.
  revert i last. induction hay as [|x hay IH]; intros i last; simpl.
  { intros ->. left. split; [done|]. intros; lia. }
  intros H. apply IH in H as [[Hl Hno]|(k & Hk & -> & Hs & Hno)].
  - destruct (startswith (x :: hay) needle) eqn:Hs.
    + injection Hl as <-. right. exists 0%nat.
      split; [lia|]. split; [lia|]. split; [done|].
      intros [|j] Hj Hj'; [lia|]. simpl. apply Hno. lia.
    + left. split; [done|]. intros [|k] Hk; [done|]. simpl. apply Hno. lia.
  - right. exists (S k). split; [lia|]. split; [lia|]. split; [done|].
    intros [|j] Hj Hj'; [lia|]. simpl. apply Hno; lia.
Qed.

Lemma read_bytes_full (file : bytes) (pos n : Z) :
  0 ≤ n → n ≤ len (read_bytes file pos n) → 0 < n →
  0 ≤ pos ∧ pos + n ≤ len file ∧ read_bytes file pos n = slice file pos (pos + n).
Proof.
  unfold read_bytes. intros Hn Hlen Hpos.
  destruct (Z.ltb_spec pos 0); simpl in *; [unfold len in Hlen; simpl in Hlen; lia|].
  destruct (Z.leb_spec (len file) pos); [unfold len in Hlen; simpl in Hlen; lia|].
  rewrite len_slice in Hlen by lia.
  split; [done|]. split; [lia|]. f_equal. lia.
Qed.

Lemma drop_last_bytes (n : Z) (file : bytes) (k : nat) :
  drop k (last_bytes n file) = drop (Z.to_nat (len file - n) + k) file.
Proof. unfold last_bytes. by rewrite drop_drop. Qed.

Lemma parse_eocd_signed (eocd : bytes) :
  len eocd = 22 → EOCD_MAGIC `prefix_of` eocd →
  parse_eocd eocd
  = Ret (Some (Eocd (le_value (slice eocd 10 12)) (le_value (slice eocd 12 16))
                    (le_value (slice eocd 16 20)) (le_value (slice eocd 20 22)))).
Proof.
  intros Hlen [rest ->]. unfold parse_eocd, unpack_le. rewrite Hlen. simpl.
  reflexivity.
Qed.

(** Where the record found lies, and that it is the last occurrence. *)
Lemma find_eocd_spec (file : bytes) (pos : Z) (eocd : bytes) :
  find_eocd file (file_size file) = Some (pos, eocd) →
  (0 ≤ pos ∧ pos + 22 ≤ len file ∧ len file - MAX_EOCD_SEARCH ≤ pos) ∧
  eocd = slice file pos (pos + 22) ∧
  EOCD_MAGIC `prefix_of` drop (Z.to_nat pos) file ∧
  (∀ q : nat, (Z.to_nat pos < q)%nat → ¬ EOCD_MAGIC `prefix_of` drop q file).
Proof.
  unfold find_eocd, file_size.
  rewrite read_tail_last_bytes by (unfold MAX_EOCD_SEARCH; lia).
  destruct (rfind _ EOCD_MAGIC) as [idx|] eqn:Hr; [|done].
  apply rfind_from_Some in Hr as [[? _]|(k & Hk & -> & Hs & Hno)]; [done|].
  set (p := len file - Z.min MAX_EOCD_SEARCH (len file) + (0 + Z.of_nat k)).
  destruct (Z.ltb_spec (len (read_bytes file p 22)) 22) as [|Hfull]; [done|].
  intros [= <- <-].
  apply read_bytes_full in Hfull as (Hp0 & Hp22 & Hrb); [|lia..].
  assert (Hoff : Z.to_nat p = (Z.to_nat (len file - MAX_EOCD_SEARCH) + k)%nat).
  { unfold p. unfold last_bytes, len in *. rewrite length_drop in Hk. lia. }
  apply startswith_prefix in Hs. rewrite drop_last_bytes, <- Hoff in Hs.
  split; [unfold p; lia|]. split; [done|]. split; [done|].
  intros q Hq Hpre.
  assert (Hq' : (q < length file)%nat).
  { destruct (decide (q < length file)%nat); [done|].
    rewrite drop_ge in Hpre by lia. by apply prefix_nil_inv in Hpre. }
  specialize (Hno (q - Z.to_nat (len file - MAX_EOCD_SEARCH))%nat).
  rewrite drop_last_bytes in Hno.
  replace (Z.to_nat (len file - MAX_EOCD_SEARCH)
           + (q - Z.to_nat (len file - MAX_EOCD_SEARCH)))%nat with q in Hno by lia.
  apply startswith_prefix in Hpre. rewrite Hno in Hpre; [done|lia|].
  unfold last_bytes. rewrite length_drop. lia.
Qed.

Lemma find_eocd_shape (file : bytes) (pos : Z) (eocd : bytes) :
  find_eocd file (file_size file) = Some (pos, eocd) →
  len eocd = 22 ∧ EOCD_MAGIC `prefix_of` eocd.
Proof.
  intros H. apply find_eocd_spec in H as (Hpos & -> & [rest Hs] & _).
  split; [rewrite len_slice; lia|].
  unfold slice. rewrite Hs.
  replace (Z.to_nat (pos + 22 - pos)) with 22%nat by lia.
  exists (take 18 rest). reflexivity.
Qed.

(** X7 ([find_eocd], [parse_eocd]): the record that [find_eocd] returns is
    the 22 bytes at the last occurrence of the signature [PK\x05\x06] in
    the file, which lies in its last 64 KiB + 22 bytes and at least 22
    bytes before its end; [parse_eocd] accepts every such record, so the
    second [return None] of [parse_zip] is never taken. *)
Theorem find_eocd_returns_last_signature
    (file : bytes) (pos : Z) (eocd : bytes) :
  find_eocd file (file_size file) = Some (pos, eocd) →
  (0 ≤ pos ∧ pos + 22 ≤ len file ∧ len file - MAX_EOCD_SEARCH ≤ pos) ∧
  eocd = slice file pos (pos + 22) ∧
  EOCD_MAGIC `prefix_of` drop (Z.to_nat pos) file ∧
  (∀ q : nat, (Z.to_nat pos < q)%nat → ¬ EOCD_MAGIC `prefix_of` drop q file) ∧
  ∃ e, parse_eocd eocd = Ret (Some e).
Proof.
  intros H. pose proof (find_eocd_shape file pos eocd H) as [Hlen Hpre].
  destruct (find_eocd_spec file pos eocd H) as (H1 & H2 & H3 & H4).
  repeat (split; [done|]). eexists. by apply parse_eocd_signed.
Qed.

Lemma find_eocd_returns_last_signature_witness :
  ∃ e, parse_eocd zip_empty = Ret (Some e).
Proof.
  assert (H : find_eocd zip_empty (file_size zip_empty) = Some (0, zip_empty))
    by (vm_compute; reflexivity).
  exact (proj2 (proj2 (proj2 (proj2
           (find_eocd_returns_last_signature zip_empty 0 zip_empty H))))).
Defined.

End ZipEocd.
Section ZipCounts.
Import Zip.

Lemma run_bind_Ret {A B : Type} (m : run A) (f : A → run B) (b : B) :
  m ≫= f = Ret b → ∃ a, m = Ret a ∧ f a = Ret b.
Proof. destruct m; simpl; [eauto|done|done]. Qed.

Lemma of_option_Ret {A : Type} (o : option A) (a : A) :
  of_option o = Ret a → o = Some a.
Proof. destruct o; simpl; congruence. Qed.

(** Each entry yielded takes at least 46 bytes of the directory, and with
    a declared count the walk stops at that count. *)
Lemma cd_walk_length (fuel : nat) (data : bytes) (expected pos count : Z)
    (es : list cd_entry) :
  cd_walk fuel data expected pos count = Ret es →
  0 ≤ pos →
  46 * Z.of_nat (length es) ≤ Z.max 0 (len data - pos) ∧
  (0 < expected → count < expected →
   count + Z.of_nat (length es) ≤ expected).
Proof.
  revert pos count es. induction fuel as [|fuel IH]; intros pos count es; simpl;
    [done|].
  intros H Hpos.
  destruct (Z.leb_spec (pos + 46) (len data)) as [Hle|];
    [|injection H as <-; simpl; lia].
  apply run_bind_Ret in H as (sig & _ & H).
  destruct (negb (sig =? CDH_SIG)); [injection H as <-; simpl; lia|].
  apply run_bind_Ret in H as (? & _ & H).
  apply run_bind_Ret in H as (gpbf & _ & H).
  apply run_bind_Ret in H as (crc & _ & H).
  apply run_bind_Ret in H as (fl & Hfl & H).
  apply run_bind_Ret in H as (el & Hel & H).
  apply run_bind_Ret in H as (cl & Hcl & H).
  apply of_option_Ret, unpack_le_nonneg in Hfl, Hel, Hcl.
  destruct (Z.ltb_spec (len data) (pos + 46 + fl)); [injection H as <-; simpl; lia|].
  destruct (negb (expected =? 0) && (expected <=? count + 1)) eqn:Hstop.
  - injection H as <-. simpl. lia.
  - apply run_bind_Ret in H as (rest & Hrest & H). injection H as <-.
    apply IH in Hrest as [H1 H2]; [|lia]. simpl length. split; [lia|].
    intros Hexp Hc.
    apply andb_false_iff in Hstop as [Hs|Hs].
    + apply negb_false_iff, Z.eqb_eq in Hs. lia.
    + apply Z.leb_gt in Hs. specialize (H2 Hexp Hs). lia.
Qed.

Lemma foldl_count_entry (es : list cd_entry) (c : zip_counts) :
  entry_count (foldl count_entry c es) = entry_count c + Z.of_nat (length es).
Proof.
  revert c. induction es as [|e es IH]; intros c; simpl; [lia|].
  rewrite IH. simpl. lia.
Qed.

Lemma len_read_bytes (file : bytes) (off n : Z) :
  0 ≤ n → len (read_bytes file off n) ≤ Z.min n (len file).
Proof.
  intros Hn. unfold read_bytes.
  destruct (Z.ltb_spec off 0); simpl; [unfold len; simpl; lia|].
  destruct (Z.leb_spec (len file) off); [unfold len; simpl; lia|].
  rewrite len_slice; lia.
Qed.

Lemma slice_le_value_bound (b : bytes) (lo hi : Z) :
  0 ≤ le_value (slice b lo hi) < 256 ^ Z.max 0 (hi - lo).
Proof.
  unfold slice.
  assert (H : ∀ l : bytes, 0 ≤ le_value l < 256 ^ Z.of_nat (length l)).
  { induction l as [|x l IH]; simpl le_value; [simpl; lia|].
    pose proof (bv_range x).
    replace (Z.of_nat (length (x :: l))) with (Z.succ (Z.of_nat (length l)))
      by (simpl length; lia).
    rewrite Z.pow_succ_r by lia. lia. }
  specialize (H (take (Z.to_nat (hi - lo)) (drop (Z.to_nat lo) b))).
  split; [lia|]. eapply Z.lt_le_trans; [apply H|].
  apply Z.pow_le_mono_r; [lia|]. rewrite length_take. lia.
Qed.

(** X8 ([parse_zip], [iter_central_directory]): every record returned
    carries an entry count that is not negative and fits in the file at 46
    bytes per entry. When [parser_ok] is true the count is the number of
    entries declared in the end-of-central-directory record, which is
    between 1 and 65535, and the directory checks hold; an archive that
    declares zero entries is therefore never [parser_ok]. A true
    [structure_consistent] implies a true [parser_ok]. *)
Theorem parse_zip_entry_count_bounds (file : bytes) (d : gmap string pyval) :
  parse_zip file = PDict d →
  ∃ n,
    d !! "zip_entry_count" = Some (VInt n) ∧
    0 ≤ n ∧ 46 * n ≤ len file ∧
    (d !! "parser_ok" = Some (VBool true) →
     1 ≤ n ≤ 65535 ∧
     d !! "zip_central_dir_ok" = Some (VBool true) ∧
     d !! "zip_cd_offset_ok" = Some (VBool true) ∧
     ∃ pos eocd, find_eocd file (file_size file) = Some (pos, eocd) ∧
                 n = le_value (slice eocd 10 12)) ∧
    (d !! "structure_consistent" = Some (VBool true) →
     d !! "parser_ok" = Some (VBool true)).
Proof.
  unfold parse_zip. intros H.
  destruct (parse_zip_try file) as [r| |] eqn:Htry; [subst r| |done]; cycle 1.
  { injection H as <-. exists 0. pose proof (len_nonneg file).
    split; [done|]. split; [lia|]. split; [lia|]. split; done. }
  unfold parse_zip_try in Htry.
  destruct (find_eocd file (file_size file)) as [[pos eocd]|] eqn:Hfind; [|done].
  destruct (find_eocd_shape file pos eocd Hfind) as (Hlen & Hpre).
  rewrite (parse_eocd_signed eocd Hlen Hpre) in Htry. simpl in Htry.
  set (total := le_value (slice eocd 10 12)) in *.
  set (cdsize := le_value (slice eocd 12 16)) in *.
  set (cdoff := le_value (slice eocd 16 20)) in *.
  apply run_bind_Ret in Htry as (okoff & _ & Htry).
  apply run_bind_Ret in Htry as (es & Hes & Htry).
  injection Htry as <-.
  unfold iter_central_directory in Hes.
  apply cd_walk_length in Hes as [Hfit Hexp]; [|lia].
  rewrite foldl_count_entry. simpl entry_count. rewrite Z.add_0_l.
  set (n := Z.of_nat (length es)) in *.
  assert (Hdata : len (read_bytes file cdoff cdsize) ≤ len file).
  { pose proof (len_read_bytes file cdoff cdsize
                  (proj1 (slice_le_value_bound eocd 12 16))). lia. }
  assert (Htot : 0 ≤ total < 65536).
  { pose proof (slice_le_value_bound eocd 10 12) as Hb.
    change (256 ^ Z.max 0 (12 - 10)) with 65536 in Hb. done. }
  assert (Hn0 : 0 ≤ n) by (unfold n; lia).
  pose proof (len_nonneg file).
  exists n. split; [done|]. split; [lia|]. split; [lia|]. split.
  - rewrite !lookup_insert_ne by done. rewrite lookup_insert.
    intros [= Hok]. apply andb_true_iff in Hok as [Hok Hn].
    apply andb_true_iff in Hok as [Hcd Hoff]. apply Z.leb_le in Hn.
    assert (n = total) as Hnt.
    { apply orb_true_iff in Hcd as [Hz|He]; [|by apply Z.eqb_eq in He].
      apply andb_true_iff in Hz as [_ Hz]. apply Z.eqb_eq in Hz. lia. }
    split; [lia|]. rewrite Hcd, Hoff. split; [done|]. split; [done|].
    by exists pos, eocd.
  - rewrite !lookup_insert_ne by done. rewrite lookup_insert.
    intros [= Hsc]. apply andb_true_iff in Hsc as [-> _]. done.
Qed.

Lemma parse_zip_entry_count_bounds_witness :
  ∃ d n, parse_zip zip_empty = PDict d ∧
         d !! "zip_entry_count" = Some (VInt n) ∧ 46 * n ≤ len zip_empty.
Proof.
  assert (H : ∃ d, parse_zip zip_empty = PDict d)
    by (eexists; vm_compute; reflexivity).
  destruct H as [d H].
  destruct (parse_zip_entry_count_bounds zip_empty d H)
    as (n & Hn & _ & Hfit & _).
  by exists d, n.
Defined.

End ZipCounts.

(** ** OLE2: sector chains and the directory stream *)

Section Ole2Chains.
Import Ole2.


(** What the loop of [follow_chain] appends: whole sectors, each read
    once, along the chain of the FAT. *)
Lemma chain_walk_out (fuel : nat) (data : bytes) (ss : Z) (fat : list Z)
    (st st' : chain_state) :
  chain_walk fuel data ss fat st = Ret st' →
  ∃ secs,
    out st' = out st ++ mjoin (read_sector data ss <$> secs) ∧
    hops st' = hops st + Z.of_nat (length secs) ∧
    (hops st ≤ MAX_SECTORS_READ → hops st' ≤ MAX_SECTORS_READ) ∧
    (∀ s, s ∈ secs → s ∉ seen st) ∧ NoDup secs ∧
    Forall (λ s, len (read_sector data ss s) = ss ∧ s < Z.of_nat (length fat))
           secs ∧
    chain_from fat (cur st) secs.
Proof.
  revert st. induction fuel as [|fuel IH]; intros st; simpl; [done|].
  assert (Hstop : ∀ st0, out st0 = out st → hops st0 = hops st → ∃ secs,
      out st0 = out st ++ mjoin (read_sector data ss <$> secs) ∧
      hops st0 = hops st + Z.of_nat (length secs) ∧
      (hops st ≤ MAX_SECTORS_READ → hops st0 ≤ MAX_SECTORS_READ) ∧
      (∀ s, s ∈ secs → s ∉ seen st) ∧ NoDup secs ∧
      Forall (λ s, len (read_sector data ss s) = ss ∧ s < Z.of_nat (length fat))
             secs ∧
      chain_from fat (cur st) secs).
  { intros st0 Ho Hh. exists []. simpl. rewrite app_nil_r.
    split; [done|]. split; [lia|]. split; [lia|].
    split; [by intros s Hs%not_elem_of_nil|].
    split; [constructor|]. split; [constructor|done]. }
  destruct (negb _ && (hops st <? MAX_SECTORS_READ)) eqn:Hloop;
    [|intros [= <-]; by apply Hstop].
  apply andb_true_iff in Hloop as [_ Hhops%Z.ltb_lt].
  destruct (bool_decide (cur st ∈ seen st)) eqn:Hseen;
    [intros [= <-]; by apply Hstop|].
  apply bool_decide_eq_false in Hseen.
  destruct (Z.leb_spec (Z.of_nat (length fat)) (cur st)) as [|Hfat];
    [intros [= <-]; by apply Hstop|]. simpl.
  destruct (Z.eqb_spec (len (read_sector data ss (cur st))) ss) as [Hsec|];
    simpl; [|intros [= <-]; by apply Hstop].
  destruct (fat !! Z.to_nat (cur st)) as [nxt|] eqn:Hnxt; simpl; [|done].
  intros H. apply IH in H as (secs & Ho & Hh & Hb & Hns & Hnd & Hall & Hc).
  simpl in *. exists (cur st :: secs).
  split; [by rewrite Ho, fmap_cons, mjoin_cons, <- app_assoc|].
  split; [simpl length; lia|]. split; [lia|]. split; [|split; [|split]].
  - intros s [->|Hs]%elem_of_cons; [done|].
    intros Hin. apply (Hns s Hs). apply elem_of_app. by left.
  - constructor; [|done]. intros Hin. apply (Hns _ Hin).
    apply elem_of_app. right. apply elem_of_cons. by left.
  - constructor; [done|done].
  - simpl. split; [done|]. by exists nxt.
Qed.


End Ole2Chains.
Section Ole2Theorems.
Import Ole2.

Lemma len_mjoin_sectors (data : bytes) (ss : Z) (n : Z) (secs : list Z) :
  Forall (λ s, len (read_sector data ss s) = ss ∧ s < n) secs →
  len (mjoin (read_sector data ss <$> secs)) = ss * Z.of_nat (length secs).
Proof.
  induction 1 as [|s secs [Hs _] _ IH]; [unfold len; simpl; lia|].
  rewrite fmap_cons, mjoin_cons. unfold len in *. rewrite length_app.
  simpl length. lia.
Qed.

(** X9 ([follow_chain]): the bytes returned are the concatenation of whole
    sectors, at most [MAX_SECTORS_READ] of them, no sector twice, each
    within the FAT, taken along the FAT chain from [start]; their length is
    the sector size times the number of sectors. *)
Theorem follow_chain_whole_sectors
    (data : bytes) (ss : Z) (fat : list Z) (start : Z) (out : bytes) :
  follow_chain data ss fat start = Ret out →
  ∃ secs,
    out = mjoin (read_sector data ss <$> secs) ∧
    chain_from fat start secs ∧ NoDup secs ∧
    Z.of_nat (length secs) ≤ MAX_SECTORS_READ ∧
    Forall (λ s, len (read_sector data ss s) = ss ∧ s < Z.of_nat (length fat))
           secs ∧
    len out = ss * Z.of_nat (length secs).
Proof.
  unfold follow_chain, follow_chain_state. intros H.
  apply run_bind_Ret in H as (st & Hst & [= <-]).
  destruct (bool_decide (start = FREESECT ∨ start = ENDOFCHAIN)).
  { injection Hst as <-. exists []. simpl.
    repeat (split; [done || constructor || (unfold MAX_SECTORS_READ; lia)|]).
    unfold len. simpl. lia. }
  apply chain_walk_out in Hst as (secs & Ho & Hh & Hb & _ & Hnd & Hall & Hc).
  simpl in *. exists secs. split; [done|]. split; [done|]. split; [done|].
  split; [unfold MAX_SECTORS_READ in *; lia|]. split; [done|].
  rewrite Ho. by eapply len_mjoin_sectors.
Qed.

Lemma follow_chain_whole_sectors_witness :
  ∃ secs,
    zeros 512 = mjoin (read_sector (zeros 1024) 512 <$> secs) ∧
    chain_from [ENDOFCHAIN] 0 secs ∧ NoDup secs ∧
    Z.of_nat (length secs) ≤ MAX_SECTORS_READ ∧
    Forall (λ s, len (read_sector (zeros 1024) 512 s) = 512 ∧
                 s < Z.of_nat (length [ENDOFCHAIN])) secs ∧
    len (zeros 512) = 512 * Z.of_nat (length secs).
Proof.
  assert (H : follow_chain (zeros 1024) 512 [ENDOFCHAIN] 0 = Ret (zeros 512))
    by (vm_compute; reflexivity).
  exact (follow_chain_whole_sectors (zeros 1024) 512 [ENDOFCHAIN] 0
           (zeros 512) H).
Defined.

(** The entries cut from a directory stream are complete. *)
Lemma dir_entries_complete (n : nat) (dir_bytes : bytes) :
  Z.of_nat n * DIR_ENTRY_SIZE ≤ len dir_bytes →
  Forall (λ e, len e = DIR_ENTRY_SIZE) (dir_entries n dir_bytes).
Proof.
  revert dir_bytes. induction n as [|n IH]; intros b Hb; simpl; [constructor|].
  unfold DIR_ENTRY_SIZE, len in *. constructor.
  - rewrite length_take. lia.
  - apply IH. rewrite length_drop. lia.
Qed.

Lemma length_dir_entries (n : nat) (dir_bytes : bytes) :
  length (dir_entries n dir_bytes) = n.
Proof.
  revert dir_bytes. induction n as [|n IH]; intros b; simpl; [done|].
  by rewrite IH.
Qed.

Lemma scan_entries_spec (entries : list bytes) (acc : dir_info) :
  Forall (λ e, len e = DIR_ENTRY_SIZE) entries →
  let types := omap (λ e, index e 0x42) entries in
  ∃ d, scan_entries entries acc = Ret d ∧
    (ole_dir_ok d = true ↔ Forall type_ok types) ∧
    (Forall type_ok types →
     ole_stream_count d
     = ole_stream_count acc + Z.of_nat (length (filter (λ t, t = 2) types)) ∧
     (ole_root_entry_present d = true ↔
      ole_root_entry_present acc = true ∨ 5 ∈ types)) ∧
    ole_stream_count acc ≤ ole_stream_count d
      ≤ ole_stream_count acc + Z.of_nat (length entries).
Proof.
  cbv zeta. intros Hall. revert acc.
  induction Hall as [|e entries He _ IH]; intros acc.
  { simpl. eexists. split; [done|]. simpl.
    split; [split; [intros; constructor|done]|]. split; [|lia]. intros _.
    split; [lia|]. split; [by left|]. intros [?|?%not_elem_of_nil]; done. }
  destruct (index_in_range e 0x42) as [t Ht];
    [rewrite He; unfold DIR_ENTRY_SIZE; lia|].
  assert (Htypes : omap (λ e, index e 0x42) (e :: entries)
                   = t :: omap (λ e, index e 0x42) entries).
  { change (omap (λ e, index e 0x42) (e :: entries))
      with (match index e 0x42 with
            | Some y => y :: omap (λ e, index e 0x42) entries
            | None => omap (λ e, index e 0x42) entries
            end).
    by rewrite Ht. }
  rewrite Htypes. clear Htypes.
  simpl scan_entries. rewrite He, Z.eqb_refl. simpl.
  assert (Hu : is_Some (unpack_le 2 e 64)).
  { unfold unpack_le. rewrite He. unfold DIR_ENTRY_SIZE. simpl. by eexists. }
  destruct Hu as [nl Hu]. unfold u16. rewrite Hu. simpl.
  rewrite Ht. simpl.
  destruct (bool_decide (t ∈ [0; 1; 2; 5])) eqn:Hok; simpl.
  - apply bool_decide_eq_true in Hok.
    match goal with |- context [scan_entries entries ?a] =>
      destruct (IH a) as (d & -> & Hd & Hcnt & Hrange) end.
    simpl in *. exists d. split; [done|]. split; [|split].
    + rewrite Hd, Forall_cons. unfold type_ok at 2. naive_solver.
    + intros [_ Hts]%Forall_cons. destruct (Hcnt Hts) as [-> Hroot].
      rewrite filter_cons. split.
      * destruct (Z.eqb_spec t 2); case_decide; simpl length; lia.
      * rewrite Hroot, elem_of_cons.
        destruct (Z.eqb_spec t 5); [naive_solver|]. naive_solver.
    + destruct (Z.eqb_spec t 2); lia.
  - apply bool_decide_eq_false in Hok. eexists. split; [done|]. simpl.
    split; [|split; [|lia]].
    + split; [done|]. by intros [? _]%Forall_cons.
    + by intros [? _]%Forall_cons.
Qed.

(** X10 ([parse_directory_stream]): the function never raises. The
    directory is reported valid exactly when the stream holds at least one
    entry and every complete 128-byte entry has an object type among 0, 1,
    2 and 5; for a valid directory the stream count is the number of
    entries of type 2 and the root entry is reported present exactly when
    some entry has type 5. The stream count never exceeds the number of
    complete entries. *)
Theorem parse_directory_stream_reports (dir_bytes : bytes) :
  ∃ d, parse_directory_stream dir_bytes = Ret d ∧
    (ole_dir_ok d = true ↔
     DIR_ENTRY_SIZE ≤ len dir_bytes ∧
     Forall (λ t, t ∈ [0; 1; 2; 5]) (entry_types dir_bytes)) ∧
    (ole_dir_ok d = true →
     ole_stream_count d
     = Z.of_nat (length (filter (λ t, t = 2) (entry_types dir_bytes))) ∧
     (ole_root_entry_present d = true ↔ 5 ∈ entry_types dir_bytes)) ∧
    0 ≤ ole_stream_count d ≤ len dir_bytes `div` DIR_ENTRY_SIZE.
Proof.
  unfold parse_directory_stream.
  pose proof (len_nonneg dir_bytes) as Hl.
  destruct (Z.ltb_spec (len dir_bytes) DIR_ENTRY_SIZE) as [Hs|Hs].
  { eexists. split; [done|]. simpl. split; [split; [done|lia]|].
    split; [done|]. split; [lia|]. apply Z.div_pos; unfold DIR_ENTRY_SIZE; lia. }
  set (n := Z.to_nat (len dir_bytes `div` DIR_ENTRY_SIZE)).
  assert (Hn : Z.of_nat n * DIR_ENTRY_SIZE ≤ len dir_bytes).
  { unfold n. rewrite Z2Nat.id by (apply Z.div_pos; unfold DIR_ENTRY_SIZE; lia).
    rewrite Z.mul_comm. apply Z.mul_div_le. unfold DIR_ENTRY_SIZE. lia. }
  destruct (scan_entries_spec (dir_entries n dir_bytes)
              (DirInfo false 0 false false false)
              (dir_entries_complete n dir_bytes Hn))
    as (d & Hd & Hok & Hcnt & Hrange).
  exists d. split; [done|]. unfold entry_types. fold n.
  simpl in Hcnt, Hrange. rewrite length_dir_entries in Hrange.
  split; [rewrite Hok; unfold type_ok; naive_solver|]. split.
  - intros Hd1. apply Hok in Hd1. destruct (Hcnt Hd1) as [-> Hroot].
    split; [lia|]. rewrite Hroot. naive_solver.
  - unfold n in Hrange.
    rewrite Z2Nat.id in Hrange by (apply Z.div_pos; unfold DIR_ENTRY_SIZE; lia).
    lia.
Qed.

End Ole2Theorems.

(** ** PNG *)

Section PngFacts.
Import Png.

Lemma be_value_nonneg (b : bytes) : 0 ≤ be_value b.
Proof. unfold be_value. apply le_value_nonneg. Qed.

Lemma unpack_u32_be_slice (data : bytes) (pos : Z) :
  0 ≤ pos → pos + 4 ≤ len data →
  ∃ v, unpack_u32_be (slice data pos (pos + 4)) = Some v ∧ 0 ≤ v.
Proof.
  intros Hp Hl. unfold unpack_u32_be. rewrite len_slice by lia.
  replace (pos + 4 - pos) with 4 by lia. simpl. eexists. split; [done|].
  apply be_value_nonneg.
Qed.

Lemma unpack_u32_be_nonneg (b : bytes) (v : Z) :
  unpack_u32_be b = Some v → 0 ≤ v.
Proof.
  unfold unpack_u32_be. destruct (len b =? 4); [|done].
  intros [= <-]. apply be_value_nonneg.
Qed.

(** The chunk loop: each chunk counted lies inside the data with its 12
    bytes of length, type and CRC; an IDAT or the IEND chunk is a chunk
    counted. *)
Lemma chunk_loop_inv (fuel : nat) (data : bytes) (s : chunks) :
  let s' := chunk_loop fuel data s in
  let k := chunks_count s' - chunks_count s in
  0 ≤ k ≤ Z.of_nat fuel ∧
  12 * k ≤ Z.max 0 (len data - pos s) ∧
  idat_count s ≤ idat_count s' ∧
  (iend_ok s = false →
   (idat_count s' - idat_count s) + (if iend_ok s' then 1 else 0) ≤ k).
Proof.
  cbv zeta. revert s. induction fuel as [|fuel IH]; intros s.
  { simpl. repeat split; try lia. intros ->. lia. }
  assert (Hstay : 0 ≤ chunks_count s - chunks_count s ≤ Z.of_nat (S fuel) ∧
            12 * (chunks_count s - chunks_count s) ≤ Z.max 0 (len data - pos s) ∧
            idat_count s ≤ idat_count s ∧
            (iend_ok s = false →
             (idat_count s - idat_count s) + (if iend_ok s then 1 else 0)
             ≤ chunks_count s - chunks_count s)).
  { repeat split; try lia. intros ->. lia. }
  simpl chunk_loop.
  destruct (Z.leb_spec (pos s + 8) (len data)); [|done].
  destruct (unpack_u32_be _) as [length|] eqn:Hu; [|done].
  apply unpack_u32_be_nonneg in Hu.
  destruct (Z.ltb_spec (len data) (pos s + 8 + length + 4)); [done|].
  destruct (bytes_eqb _ (lit "IDAT")).
  { match goal with |- context [chunk_loop fuel data ?a] =>
      specialize (IH a); destruct (chunk_loop fuel data a) as [p' c' i' e'] end.
    simpl in *. destruct IH as (H1 & H2 & H3 & H4).
    split; [lia|]. split; [lia|]. split; [lia|].
    intros He. specialize (H4 He). lia. }
  destruct (bytes_eqb _ (lit "IEND")).
  { simpl. split; [lia|]. split; [lia|]. split; [lia|]. intros _. lia. }
  match goal with |- context [chunk_loop fuel data ?a] =>
    specialize (IH a); destruct (chunk_loop fuel data a) as [p' c' i' e'] end.
  simpl in *. destruct IH as (H1 & H2 & H3 & H4).
  split; [lia|]. split; [lia|]. split; [lia|].
  intros He. specialize (H4 He). lia.
Qed.

(** The record of a file that starts with the signature and is at least
    20 bytes long. *)
Lemma parse_png_try_signed (data : bytes) :
  startswith data PNG_SIG = true → HEADER_LEN + 12 ≤ len data →
  ∃ ihdr_ok n i e,
    parse_png_try data
    = {[ "png_header_ok" := VBool true;
         "png_ihdr_ok" := VBool ihdr_ok;
         "png_chunks_count" := VInt n;
         "png_idat_count" := VInt i;
         "png_end_iend_ok" := VBool e;
         "parser_ok" := VBool (ihdr_ok && (2 <=? n));
         "structure_consistent"
           := VBool (ihdr_ok && (2 <=? n) && (1 <=? i) && e) ]} ∧
    1 ≤ n ≤ MAX_CHUNKS + 1 ∧ 8 + 12 * n ≤ len data ∧
    0 ≤ i ∧ i + (if e then 1 else 0) < n.
Proof.
  intros Hsig Hlen. unfold parse_png_try, HEADER_LEN in *. rewrite Hsig.
  cbv zeta. cbn [negb orb].
  destruct (Z.ltb_spec (len data) (8 + 12)); [lia|].
  destruct (Z.leb_spec (8 + 8) (len data)); [|lia].
  destruct (unpack_u32_be_slice data 8) as (ihdr_len & Hu & Hnn); [lia..|].
  rewrite Hu.
  match goal with |- context [chunk_loop ?f data ?a] =>
    pose proof (chunk_loop_inv f data a) as Hinv;
    destruct (chunk_loop f data a) as [p' c' i' e'] end.
  cbv zeta in Hinv. cbn [chunks_count idat_count iend_ok pos] in *.
  destruct Hinv as (H1 & H2 & H3 & H4).
  specialize (H4 eq_refl).
  eexists _, c', i', e'. split.
  - rewrite andb_diag. reflexivity.
  - unfold MAX_CHUNKS in *. lia.
Qed.

(** X11 ([parse_png]): every record returned has the seven keys of the
    default record: the two early returns of five keys, without
    [parser_ok] and [structure_consistent], are never taken. A file that
    does not start with the PNG signature, or is shorter than 20 bytes,
    gives the default record itself. *)
Theorem parse_png_record_has_seven_keys (data : bytes) :
  dom (parse_png_try data) = dom DEF_RETURN ∧
  (startswith data PNG_SIG = false ∨ len data < HEADER_LEN + 12 →
   parse_png data = PDict DEF_RETURN).
Proof.
  destruct (startswith data PNG_SIG) eqn:Hsig; cycle 1.
  { unfold parse_png, parse_png_try. rewrite Hsig. cbv zeta. cbn [negb orb].
    done. }
  destruct (Z.lt_ge_cases (len data) (HEADER_LEN + 12)) as [Hs|Hl].
  { unfold parse_png, parse_png_try. rewrite Hsig. cbv zeta. cbn [negb orb].
    destruct (Z.ltb_spec (len data) (HEADER_LEN + 12)); [done|lia]. }
  destruct (parse_png_try_signed data Hsig Hl) as (ok & n & i & e & -> & _).
  split; [|intros [?|?]; [done|lia]].
  unfold DEF_RETURN. rewrite !dom_insert_L. done.
Qed.

(** X12 ([parse_png], chunk loop): for a file that starts with the
    signature and has at least 20 bytes, the chunk count is between 1 and
    [MAX_CHUNKS + 1] and every chunk counted takes at least 12 bytes of the
    file after the signature; the IDAT chunks and the IEND chunk are among
    the chunks counted after the first. [parser_ok] is true exactly when
    the first chunk is a valid IHDR and a second chunk was counted;
    [structure_consistent] requires in addition an IDAT chunk and the IEND
    chunk, hence at least three chunks. *)
Theorem parse_png_counts (data : bytes) :
  startswith data PNG_SIG = true → HEADER_LEN + 12 ≤ len data →
  ∃ ihdr_ok n i e,
    parse_png_try data !! "png_ihdr_ok" = Some (VBool ihdr_ok) ∧
    parse_png_try data !! "png_chunks_count" = Some (VInt n) ∧
    parse_png_try data !! "png_idat_count" = Some (VInt i) ∧
    parse_png_try data !! "png_end_iend_ok" = Some (VBool e) ∧
    parse_png_try data !! "parser_ok" = Some (VBool (ihdr_ok && (2 <=? n))) ∧
    parse_png_try data !! "structure_consistent"
      = Some (VBool (ihdr_ok && (1 <=? i) && e)) ∧
    1 ≤ n ≤ MAX_CHUNKS + 1 ∧ 8 + 12 * n ≤ len data ∧
    0 ≤ i ∧ i + (if e then 1 else 0) < n ∧
    (ihdr_ok && (1 <=? i) && e = true → 3 ≤ n).
Proof.
  intros Hsig Hl.
  destruct (parse_png_try_signed data Hsig Hl)
    as (ok & n & i & e & -> & Hn & Hfit & Hi & Hin).
  exists ok, n, i, e. repeat (split; [done|]).
  split.
  { transitivity (Some (VBool (ok && (2 <=? n) && (1 <=? i) && e))); [done|].
    do 2 f_equal.
    destruct ok, e; simpl; try done;
      destruct (Z.leb_spec 1 i), (Z.leb_spec 2 n); simpl; try done; lia. }
  repeat (split; [done|]).
  intros H. destruct ok, e; simpl in *; try done.
  - destruct (Z.leb_spec 1 i); [lia|done].
  - by rewrite andb_false_r in H.
Qed.

Lemma parse_png_counts_witness :
  ∃ n, parse_png_try png_minimal !! "png_chunks_count" = Some (VInt n) ∧
       8 + 12 * n ≤ len png_minimal.
Proof.
  assert (H1 : startswith png_minimal PNG_SIG = true)
    by (vm_compute; reflexivity).
  assert (H2 : HEADER_LEN + 12 ≤ len png_minimal)
    by (vm_compute; discriminate).
  destruct (parse_png_counts png_minimal H1 H2)
    as (ok & n & i & e & _ & Hn & _ & _ & _ & _ & _ & Hfit & _).
  by exists n.
Defined.

End PngFacts.

(** ** JPEG *)

Section JpegFacts.
Import Jpeg.

Lemma find_ff_spec (rest : bytes) (i : Z) :
  0 ≤ i →
  find_ff rest i = -1 ∨
  (i ≤ find_ff rest i < i + len rest ∧
   ∃ b, rest !! Z.to_nat (find_ff rest i - i) = Some b ∧ bv b = 0xFF).
Proof.
  revert i. induction rest as [|x rest IH]; intros i Hi; simpl; [by left|].
  destruct (Z.eqb_spec (bv x) 255) as [Hx|Hx].
  - right. unfold len. simpl length. split; [lia|]. exists x.
    by rewrite Z.sub_diag.
  - destruct (IH (i + 1)) as [->|(Hr & b & Hb & Hb255)]; [lia|by left|].
    right. unfold len in *. simpl length. split; [lia|]. exists b.
    replace (Z.to_nat (find_ff rest (i + 1) - i))
      with (S (Z.to_nat (find_ff rest (i + 1) - (i + 1)))) by lia.
    done.
Qed.

Lemma skip_ff_spec (rest : bytes) (pos : Z) :
  pos ≤ skip_ff rest pos ≤ pos + len rest ∧
  (∀ b, rest !! 0%nat = Some b → bv b = 0xFF → pos + 1 ≤ skip_ff rest pos).
Proof.
  revert pos. induction rest as [|x rest IH]; intros pos; simpl.
  { unfold len. simpl. split; [lia|]. done. }
  destruct (IH (pos + 1)) as [Hr _]. unfold len in *. simpl length.
  destruct (Z.eqb_spec (bv x) 255) as [Hx|Hx].
  - split; [lia|]. intros; lia.
  - split; [lia|]. intros b [= <-] Hb. done.
Qed.

Lemma index_drop (data : bytes) (p : Z) (k : nat) :
  0 ≤ p → drop (Z.to_nat p) data !! k = data !! (Z.to_nat (p + Z.of_nat k)).
Proof. intros Hp. rewrite lookup_drop. f_equal. lia. Qed.

Lemma unpack_be_in_range (w : Z) (data : bytes) (p : Z) :
  0 ≤ p → p + w ≤ len data → is_Some (unpack_be w data p).
Proof.
  intros Hp Hl. unfold unpack_be.
  destruct (Z.ltb_spec p 0); [lia|].
  destruct (Z.ltb_spec (len data) (p + w)); [lia|]. by eexists.
Qed.

(** What one pass of the segment loop does to the position and the count:
    it never raises; a pass that goes on has counted one segment and moved
    at least two bytes forward, staying inside the data and before any SOS
    segment; a pass that ends the loop has counted at most one segment. *)
Lemma segment_step_inv (data : bytes) (s : segments) :
  0 ≤ pos s < len data →
  ∃ r, segment_step data s = Some r ∧
    match r with
    | inl s' =>
      pos s + 2 ≤ pos s' ≤ len data ∧
      segments_count s' = segments_count s + 1 ∧
      sos_present s' = sos_present s
    | inr s' =>
      segments_count s' = segments_count s ∨
      (segments_count s' = segments_count s + 1 ∧ pos s + 2 ≤ len data)
    end.
Proof.
  intros Hpos. unfold segment_step.
  destruct (index_in_range data (pos s) Hpos) as [b Hb]. rewrite Hb. simpl.
  (* the position of the marker prefix *)
  assert (Hloc : ∀ p, pos s ≤ p < len data → index data p = Some 255 →
    ∃ r, (let p := skip_ff (drop (Z.to_nat p) data) p in
          if len data <=? p then
            Some (inr (Segments p (segments_count s) (sof_present s)
                         (sos_present s) (exif_present s)))
          else
            marker ← index data p;
            let p := p + 1 in
            let at_ (p : Z) (count : Z) (sof sos exif : bool) :=
              Segments p count sof sos exif in
            if ((RST0 <=? marker) && (marker <=? RST7)) || (marker =? TEM) then
              Some (inl (at_ p (segments_count s + 1) (sof_present s)
                           (sos_present s) (exif_present s)))
            else if marker =? SOI then
              Some (inl (at_ p (segments_count s + 1) (sof_present s)
                           (sos_present s) (exif_present s)))
            else if marker =? EOI then
              Some (inr (at_ p (segments_count s + 1) (sof_present s)
                           (sos_present s) (exif_present s)))
            else if len data <? p + 2 then
              Some (inr (at_ p (segments_count s) (sof_present s)
                           (sos_present s) (exif_present s)))
            else
              seg_len ← unpack_be 2 data p;
              let seg_data_start := p + 2 in
              let seg_data_end := seg_data_start + (seg_len - 2) in
              if (seg_len <? 2) || (len data <? seg_data_end) then
                Some (inr (at_ p (segments_count s) (sof_present s)
                             (sos_present s) (exif_present s)))
              else
                let sof := if bool_decide (marker ∈ SOF_MARKERS) then true
                           else sof_present s in
                let sos := if marker =? SOS then true else sos_present s in
                let exif :=
                  if (marker =? 0xE1) && (seg_data_start + 6 <=? len data)
                     && bytes_eqb (slice data seg_data_start
                                     (seg_data_start + 6)) EXIF
                  then true else exif_present s in
                let count := segments_count s + 1 in
                if marker =? SOS then Some (inr (at_ p count sof sos exif))
                else Some (inl (at_ seg_data_end count sof sos exif))) = Some r ∧
      match r with
      | inl s' =>
        pos s + 2 ≤ pos s' ≤ len data ∧
        segments_count s' = segments_count s + 1 ∧
        sos_present s' = sos_present s
      | inr s' =>
        segments_count s' = segments_count s ∨
        (segments_count s' = segments_count s + 1 ∧ pos s + 2 ≤ len data)
      end).
  { intros p Hp Hff. cbv zeta.
    destruct (skip_ff_spec (drop (Z.to_nat p) data) p) as [Hq Hq1].
    assert (Hq2 : p + 1 ≤ skip_ff (drop (Z.to_nat p) data) p).
    { unfold index in Hff. destruct (Z.ltb_spec p 0); [lia|].
      destruct (data !! Z.to_nat p) as [x|] eqn:Hx; [|done].
      injection Hff as Hff. apply (Hq1 x); [|done].
      rewrite index_drop by lia. rewrite <- Hx. f_equal. lia. }
    set (q := skip_ff (drop (Z.to_nat p) data) p) in *.
    destruct (Z.leb_spec (len data) q); [eexists; split; [done|]; by left|].
    destruct (index_in_range data q) as [marker Hm]; [lia|].
    rewrite Hm. simpl.
    destruct (_ || (marker =? TEM));
      [eexists; split; [done|]; simpl; repeat split; (done || lia)|].
    destruct (marker =? SOI);
      [eexists; split; [done|]; simpl; repeat split; (done || lia)|].
    destruct (marker =? EOI); [eexists; split; [done|]; simpl; right; lia|].
    destruct (Z.ltb_spec (len data) (q + 1 + 2));
      [eexists; split; [done|]; by left|].
    destruct (unpack_be_in_range 2 data (q + 1)) as [seg_len Hsl]; [lia..|].
    rewrite Hsl. simpl.
    destruct (Z.ltb_spec seg_len 2); simpl;
      [eexists; split; [done|]; by left|].
    destruct (Z.ltb_spec (len data) (q + 1 + 2 + (seg_len - 2)));
      [eexists; split; [done|]; by left|].
    destruct (Z.eqb_spec marker SOS).
    - eexists; split; [done|]. simpl. right. lia.
    - eexists; split; [done|]. simpl. repeat split; lia. }
  destruct (Z.eqb_spec b 255) as [->|Hne]; simpl.
  { apply Hloc; [lia|done]. }
  destruct (sos_present s); [eexists; split; [done|]; by left|].
  unfold find_next_marker. destruct (Z.leb_spec (len data) (pos s)); [lia|].
  destruct (find_ff_spec (drop (Z.to_nat (pos s)) data) (pos s))
    as [->|(Hr & x & Hx & Hx255)]; [lia| |].
  { simpl. eexists; split; [done|]; by left. }
  set (r := find_ff (drop (Z.to_nat (pos s)) data) (pos s)) in *.
  destruct (Z.eqb_spec r (-1)); [lia|].
  assert (Hlen : pos s + len (drop (Z.to_nat (pos s)) data) = len data)
    by (unfold len in *; rewrite length_drop; lia).
  apply Hloc; [lia|].
  unfold index. destruct (Z.ltb_spec r 0); [lia|].
  rewrite index_drop in Hx by lia.
  replace (Z.to_nat (pos s + Z.of_nat (Z.to_nat (r - pos s))))
    with (Z.to_nat r) in Hx by lia.
  by rewrite Hx, <- Hx255.
Qed.

Lemma segment_loop_inv (fuel : nat) (data : bytes) (s : segments) :
  0 ≤ pos s →
  ∃ s', segment_loop fuel data s = Some s' ∧
    0 ≤ segments_count s' - segments_count s ≤ Z.of_nat fuel ∧
    2 * (segments_count s' - segments_count s) ≤ Z.max 0 (len data - pos s).
Proof.
  revert s. induction fuel as [|fuel IH]; intros s Hpos; simpl.
  { eexists. split; [done|]. lia. }
  destruct (Z.ltb_spec (pos s) (len data)); [|eexists; split; [done|]; lia].
  destruct (segment_step_inv data s) as (r & -> & Hr); [lia|]. simpl.
  destruct r as [s'|s'].
  - destruct Hr as (Hp & Hc & _).
    destruct (IH s') as (s'' & -> & Hk & Hfit); [lia|].
    eexists. split; [done|]. lia.
  - eexists. split; [done|]. lia.
Qed.

(** X13 ([parse_jpeg]): the segment scan never raises, so the [except]
    clause is not reached; the record returned has the seven keys of the
    default record. The header is accepted exactly when the file starts
    with [FF D8]. The segment count is at most [MAX_SEGMENTS], and every
    segment counted accounts for at least two bytes after the first two. *)
Theorem parse_jpeg_never_raises (data : bytes) :
  ∃ d n,
    parse_jpeg_try data = Some d ∧
    dom d = dom DEF_RETURN ∧
    (d !! "jpeg_header_ok" = Some (VBool true) ↔ take 2 data = [xff; xd8]) ∧
    d !! "jpeg_segments_count" = Some (VInt n) ∧
    0 ≤ n ≤ MAX_SEGMENTS ∧ 2 * n ≤ len data.
Proof.
  unfold parse_jpeg_try.
  assert (Hhdr : (2 <=? len data) && bool_decide (index data 0 = Some 255)
                 && bool_decide (index data 1 = Some SOI) = true
                 ↔ take 2 data = [xff; xd8]).
  { rewrite !andb_true_iff, !bool_decide_eq_true, Z.leb_le.
    destruct data as [|b0 [|b1 data]]; unfold len, index; simpl.
    - split; [lia|done].
    - split; [lia|done].
    - split.
      + intros [[_ [= H0]] [= H1]].
        by rewrite (bv_inj b0 xff H0), (bv_inj b1 xd8 H1).
      + intros [= -> ->]. split; [split; [lia|done]|done]. }
  destruct ((2 <=? len data) && _ && _) eqn:Hok; cbn [negb].
  - destruct (segment_loop_inv (Z.to_nat MAX_SEGMENTS) data
                (Segments 2 0 false false false)) as (s' & -> & Hk & Hfit);
      [simpl; lia|].
    cbn [pos segments_count] in Hk, Hfit. simpl mbind.
    eexists _, (segments_count s'). split; [done|].
    split; [unfold DEF_RETURN; by rewrite !dom_insert_L|].
    split; [rewrite lookup_insert; split; [intros _; by apply Hhdr|done]|].
    split; [done|].
    apply andb_true_iff in Hok as [[Hlen%Z.leb_le _]%andb_true_iff _].
    unfold MAX_SEGMENTS in *. lia.
  - exists DEF_RETURN, 0. split; [done|]. split; [done|].
    split; [split; [done|]; intros H%Hhdr; done|].
    split; [done|]. pose proof (len_nonneg data). unfold MAX_SEGMENTS. lia.
Qed.

End JpegFacts.

(** ** RAR *)

Section RarFacts.
Import Rar.

Lemma unpack_le_in_range (w : Z) (data : bytes) (p : Z) :
  0 ≤ p → p + w ≤ len data →
  unpack_le w data p = Some (le_value (slice data p (p + w))).
Proof.
  intros Hp Hl. unfold unpack_le.
  destruct (Z.ltb_spec p 0); [lia|].
  destruct (Z.ltb_spec (len data) (p + w)); [lia|]. done.
Qed.

Lemma rar_read_at_full (fp : bytes) (off n : Z) :
  0 ≤ off → 0 ≤ n → off + n ≤ len fp → 0 < n → len (read_at fp off n) = n.
Proof.
  intros Ho Hn Hl Hpos. unfold read_at.
  destruct (Z.ltb_spec off 0); [lia|].
  destruct (Z.leb_spec (len fp) off); [lia|]. simpl.
  rewrite len_slice; lia.
Qed.

(** The block loop ends for every file, without raising; each block walked
    is at least 7 bytes long and lies inside the file; the MAIN flags are
    set together, and only with [header_ok]. *)
Lemma block_loop_inv (fuel : nat) (file : bytes) (s : blocks) :
  0 ≤ pos s → Z.max 0 (len file - pos s) < Z.of_nat fuel →
  ∃ s', block_loop fuel file s = Ret s' ∧
    0 ≤ file_count s' - file_count s ∧
    7 * (file_count s' - file_count s) ≤ Z.max 0 (len file - pos s) ∧
    (main_flags_ok s = seen_main s → main_flags_ok s' = seen_main s') ∧
    ((main_flags_ok s = true → header_ok s = true) →
     main_flags_ok s' = true → header_ok s' = true).
Proof.
  revert s. induction fuel as [|fuel IH]; intros s Hpos Hfuel; [lia|].
  assert (Hstay : ∃ s', Ret s = Ret s' ∧
    0 ≤ file_count s' - file_count s ∧
    7 * (file_count s' - file_count s) ≤ Z.max 0 (len file - pos s) ∧
    (main_flags_ok s = seen_main s → main_flags_ok s' = seen_main s') ∧
    ((main_flags_ok s = true → header_ok s = true) →
     main_flags_ok s' = true → header_ok s' = true)).
  { exists s. split; [done|]. repeat split; (lia || done || auto). }
  simpl block_loop. cbv zeta.
  destruct (Z.ltb_spec (len file) (pos s + 7)); [done|].
  set (hdr := slice file (pos s) (pos s + 7)).
  assert (Hhdr : len hdr = 7) by (unfold hdr; rewrite len_slice; lia).
  rewrite Hhdr. change (7 <? 7) with false. cbv iota.
  rewrite (unpack_le_in_range 2 hdr 0) by lia. simpl mbind at 1.
  destruct (index_in_range hdr 2) as [ht ->]; [lia|].
  rewrite (unpack_le_in_range 2 hdr 3) by lia.
  rewrite (unpack_le_in_range 2 hdr 5) by lia.
  cbn [of_option mbind run_bind].
  set (hs := le_value (slice hdr 5 (5 + 2))).
  set (hf := le_value (slice hdr 3 (3 + 2))).
  destruct (Z.ltb_spec hs 7); [done|].
  assert (Hadd : ∀ add_size, 0 ≤ add_size →
    ∃ s',
      (if len file <? pos s + (hs + add_size) then Ret s
       else
         if ht =? RAR4_BLOCK_ENDARC
         then Ret (Blocks (pos s + (hs + add_size))
                     (if ht =? RAR4_BLOCK_FILE then file_count s + 1
                      else file_count s) true
                     (if ht =? RAR4_BLOCK_MAIN then true else main_flags_ok s)
                     (if ht =? RAR4_BLOCK_MAIN then true else seen_main s))
         else block_loop fuel file
                (Blocks (pos s + (hs + add_size))
                   (if ht =? RAR4_BLOCK_FILE then file_count s + 1
                    else file_count s) true
                   (if ht =? RAR4_BLOCK_MAIN then true else main_flags_ok s)
                   (if ht =? RAR4_BLOCK_MAIN then true else seen_main s)))
      = Ret s' ∧
      0 ≤ file_count s' - file_count s ∧
      7 * (file_count s' - file_count s) ≤ Z.max 0 (len file - pos s) ∧
      (main_flags_ok s = seen_main s → main_flags_ok s' = seen_main s') ∧
      ((main_flags_ok s = true → header_ok s = true) →
       main_flags_ok s' = true → header_ok s' = true)).
  { intros add_size Hadd.
    destruct (Z.ltb_spec (len file) (pos s + (hs + add_size))); [done|].
    destruct (ht =? RAR4_BLOCK_ENDARC).
    - eexists. split; [done|]. simpl.
      split; [destruct (ht =? RAR4_BLOCK_FILE); lia|].
      split; [destruct (ht =? RAR4_BLOCK_FILE); lia|].
      split; [destruct (ht =? RAR4_BLOCK_MAIN); done|done].
    - match goal with |- context [block_loop fuel file ?a] =>
        destruct (IH a) as (s' & -> & Hc1 & Hc2 & Hc3 & Hc4) end;
        [simpl; lia|simpl; lia|].
      simpl in *. exists s'. split; [done|].
      split; [destruct (ht =? RAR4_BLOCK_FILE); lia|].
      split; [destruct (ht =? RAR4_BLOCK_FILE); lia|].
      split; [intros He; apply Hc3; destruct (ht =? RAR4_BLOCK_MAIN); done|].
      intros _. by apply Hc4. }
  destruct (negb _).
  - destruct (Z.ltb_spec (len file) (pos s + 7 + 4)); [done|].
    rewrite (unpack_le_in_range 4 (read_at file (pos s + 7) 4) 0);
      [|lia|rewrite rar_read_at_full; lia].
    cbn [of_option mbind run_bind]. apply Hadd. apply le_value_nonneg.
  - apply Hadd. lia.
Qed.

End RarFacts.
Section RarTheorems.
Import Rar.

Lemma parse_rar4_returns (file : bytes) :
  ∃ h m n,
    parse_rar4 file
    = Ret {[ "rar_header_ok" := VBool (h && m);
             "rar_main_header_flags_ok" := VBool m;
             "rar_file_records_count" := VInt n;
             "rar_version_5" := VBool false;
             "parser_ok" := VBool (h && m);
             "structure_consistent" := VBool (h && m && (0 <? n)) ]} ∧
    0 ≤ n ∧ 7 * n ≤ len file ∧ (m = true → h = true).
Proof.
  unfold parse_rar4. cbv zeta.
  set (start := if bytes_eqb (take 7 file) RAR4_SIG then len (take 7 file) else 0).
  assert (Hstart : 0 ≤ start).
  { unfold start. destruct (bytes_eqb _ _); [apply len_nonneg|lia]. }
  destruct (block_loop_inv (S (length file)) file
              (Blocks start 0 false false false))
    as (s' & -> & Hc1 & Hc2 & Hc3 & Hc4).
  { done. }
  { simpl pos. unfold len. lia. }
  simpl in Hc1, Hc2, Hc3, Hc4. specialize (Hc3 eq_refl).
  cbn [mbind run_bind]. rewrite <- Hc3.
  exists (header_ok s'), (main_flags_ok s'), (file_count s').
  split; [done|]. pose proof (len_nonneg file).
  split; [lia|]. split; [lia|]. by apply Hc4.
Qed.

Lemma parse_rar5_returns (file : bytes) :
  ∃ sc,
    parse_rar5 file
    = Ret {[ "rar_header_ok" := VBool true;
             "rar_main_header_flags_ok" := VBool true;
             "rar_file_records_count" := VInt 0;
             "rar_version_5" := VBool true;
             "parser_ok" := VBool true;
             "structure_consistent" := VBool sc ]} ∧
    (sc = true ↔
     15 ≤ len file ∧ (∃ t, index file 12 = Some t ∧ 1 ≤ t ≤ 0x7f) ∧
     0 < le_value (slice file 8 12) < 65536).
Proof.
  unfold parse_rar5. cbv zeta.
  set (data := take 64 (drop 8 file)).
  assert (Hlen : len data = Z.min 64 (Z.max 0 (len file - 8))).
  { unfold data, len. rewrite length_take, length_drop. lia. }
  destruct (Z.leb_spec 7 (len data)) as [H7|H7].
  - assert (Hix : index data 4 = index file 12).
    { unfold data, index. simpl. rewrite lookup_take_lt by lia.
      by rewrite lookup_drop. }
    assert (Hsl : slice data 0 4 = slice file 8 12).
    { unfold data, slice. rewrite drop_0. simpl.
      rewrite take_take. done. }
    destruct (index_in_range data 4) as [t Ht]; [lia|].
    rewrite Ht. cbn [of_option mbind run_bind]. eexists. split; [done|].
    rewrite Hsl. rewrite Hix in Ht. rewrite Ht.
    rewrite !andb_true_iff, !Z.leb_le, !Z.ltb_lt.
    split; [intros [[[? ?] ?] ?]; split; [lia|]; split; [eauto|lia]|].
    intros (_ & (t' & [= <-] & ?) & ?). lia.
  - cbn [mbind run_bind]. exists false. split; [done|].
    split; [done|]. intros [? _]. lia.
Qed.

(** X14 ([parse_rar], [parse_rar4], [parse_rar5]): the block loop of
    [parse_rar4], which has no step limit, ends for every file, and
    nothing in [parse_rar] raises. In every record returned the flags
    [rar_header_ok], [rar_main_header_flags_ok] and [parser_ok] have the
    same value, the file count is not negative and every file block
    counted takes at least 7 bytes of the file. The record of a file with
    a RAR signature carries the key [rar_version_5]; the default record,
    returned for the other files, does not. *)
Theorem parse_rar_returns_record (file : bytes) :
  ∃ d ok n,
    parse_rar_try file = Ret d ∧
    d !! "parser_ok" = Some (VBool ok) ∧
    d !! "rar_header_ok" = Some (VBool ok) ∧
    d !! "rar_main_header_flags_ok" = Some (VBool ok) ∧
    d !! "rar_file_records_count" = Some (VInt n) ∧
    0 ≤ n ∧ 7 * n ≤ len file ∧
    (d !! "structure_consistent" = Some (VBool true) → ok = true) ∧
    (is_Some (d !! "rar_version_5") ↔ detect_rar_version file ≠ None) ∧
    (detect_rar_version file = None → d = DEF_RETURN).
Proof.
  unfold parse_rar_try. pose proof (len_nonneg file).
  destruct (detect_rar_version file) as [[|]|].
  - destruct (parse_rar4_returns file) as (h & m & n & -> & Hn & Hfit & Hm).
    eexists _, (h && m), n. split; [done|].
    assert (Hmm : m = h && m).
    { destruct m, h; try done. by specialize (Hm eq_refl). }
    split; [done|]. split; [done|].
    split; [rewrite !lookup_insert_ne by done; rewrite lookup_insert;
            by rewrite <- Hmm|].
    split; [done|]. split; [done|]. split; [done|].
    split; [|split; [|done]].
    + intros [= Hsc]. by apply andb_true_iff in Hsc as [-> _].
    + split; [done|]. intros _. by eexists.
  - destruct (parse_rar5_returns file) as (sc & -> & _).
    eexists _, true, 0. do 6 (split; [done|]).
    split; [lia|]. split; [done|]. split; [|done].
    split; [done|]. intros _. by eexists.
  - exists DEF_RETURN, false, 0. do 6 (split; [done|]).
    split; [lia|]. split; [done|]. split; [|done].
    split; [intros [? ?]; done|done].
Qed.

(** X15 ([parse_rar5] through [parse_rar]): a file that starts with the
    8-byte RAR5 signature is reported [parser_ok] with [rar_header_ok] and
    [rar_main_header_flags_ok] true and a file count of 0, whatever
    follows the signature. [structure_consistent] is true exactly when the
    file has at least 15 bytes, the byte at offset 12 is between 1 and
    0x7F, and the little-endian value of the bytes 8 to 11 is between 1
    and 65535. *)
Theorem parse_rar5_accepts_signature (file : bytes) :
  detect_rar_version file = Some V5 →
  ∃ sc,
    parse_rar file
    = PDict {[ "rar_header_ok" := VBool true;
               "rar_main_header_flags_ok" := VBool true;
               "rar_file_records_count" := VInt 0;
               "rar_version_5" := VBool true;
               "parser_ok" := VBool true;
               "structure_consistent" := VBool sc ]} ∧
    (sc = true ↔
     15 ≤ len file ∧ (∃ t, index file 12 = Some t ∧ 1 ≤ t ≤ 0x7f) ∧
     0 < le_value (slice file 8 12) < 65536).
Proof.
  intros Hv. unfold parse_rar, parse_rar_try. rewrite Hv.
  destruct (parse_rar5_returns file) as (sc & -> & Hsc). by exists sc.
Qed.

Lemma parse_rar5_accepts_signature_witness :
  ∃ sc,
    parse_rar rar5_sample
    = PDict {[ "rar_header_ok" := VBool true;
               "rar_main_header_flags_ok" := VBool true;
               "rar_file_records_count" := VInt 0;
               "rar_version_5" := VBool true;
               "parser_ok" := VBool true;
               "structure_consistent" := VBool sc ]} ∧
    (sc = true ↔
     15 ≤ len rar5_sample ∧
     (∃ t, index rar5_sample 12 = Some t ∧ 1 ≤ t ≤ 0x7f) ∧
     0 < le_value (slice rar5_sample 8 12) < 65536).
Proof.
  apply (parse_rar5_accepts_signature rar5_sample).
  vm_compute. reflexivity.
Defined.

End RarTheorems.

(** ** OOXML *)

Section OoxmlFacts.
Import Ooxml.

Local Ltac str_cases n :=
  destruct n as [|?a [|?b [|?c [|?d [|?e ?n]]]]].

(** The loop of [fast_detect_ooxml] never counts a name under [xl/]: the
    comparison of four characters with the two characters of
    ["xl/_"[:2]] fails. *)
Lemma dir_hit_word_ppt (n : string) :
  dir_hit n = Sniff.str_startswith n "word/" || Sniff.str_startswith n "ppt/".
Proof.
  unfold dir_hit, in_ooxml_dir, Sniff.str_startswith.
  apply eq_true_iff_eq.
  rewrite !andb_true_iff, !orb_true_iff, !bool_decide_eq_true, Nat.leb_le.
  assert (H00 : ∀ s, substring 0 0 s = "") by (by intros [|? ?]).
  str_cases n; simpl; rewrite ?H00;
    (split;
     [intros [[Hlen Hp] Hd]; try lia;
      destruct Hp as [[?|?]|?], Hd as [[?|?]|?]; simplify_eq; auto
     |intros [?|?]; simplify_eq;
      (split; [split; [lia|]|]); auto]).
Qed.

Lemma existsb_ext_eq {A : Type} (f g : A → bool) (l : list A) :
  (∀ x, f x = g x) → existsb f l = existsb g l.
Proof. intros H. induction l as [|x l IH]; simpl; [done|]. by rewrite H, IH. Qed.

Lemma fast_detect_ooxml_dirs (names : list string) :
  fast_detect_ooxml names
  = (bool_decide (CONTENT_TYPES ∈ names)
     && (bool_decide (CORE_DOCX ∈ names) || bool_decide (CORE_XLSX ∈ names)
         || bool_decide (CORE_PPTX ∈ names)
         || existsb (λ n, Sniff.str_startswith n "word/"
                          || Sniff.str_startswith n "ppt/") names),
     bool_decide (CORE_DOCX ∈ names) || bool_decide (CORE_XLSX ∈ names)
     || bool_decide (CORE_PPTX ∈ names),
     bool_decide (CONTENT_TYPES ∈ names)).
Proof.
  unfold fast_detect_ooxml. cbv zeta.
  by rewrite (existsb_ext_eq dir_hit _ names dir_hit_word_ppt).
Qed.

Lemma existsb_false {A : Type} (f : A → bool) (l : list A) :
  (∀ x, x ∈ l → f x = false) → existsb f l = false.
Proof.
  induction l as [|x l IH]; intros H; simpl; [done|].
  rewrite H by (by left). rewrite IH; [done|]. intros y Hy. apply H. by right.
Qed.

Lemma existsb_true {A : Type} (f : A → bool) (l : list A) (x : A) :
  x ∈ l → f x = true → existsb f l = true.
Proof.
  intros Hx Hf. induction Hx as [x l|x y l _ IH]; simpl.
  - by rewrite Hf.
  - by rewrite IH, orb_true_r.
Qed.

(** X16 ([fast_detect_ooxml], [parse_ooxml], [_zip_looks_like_ooxml]): a
    package that holds [[Content_Types].xml] and parts under [xl/] only,
    without [xl/workbook.xml], passes the OOXML probe of the sniffer but is
    not detected by the parser: [ooxml_detected] and [parser_ok] are false
    whatever [[Content_Types].xml] holds. *)
Theorem parse_ooxml_misses_xl_directory
    (names : list string) (part : string) (data : bytes)
    (ct_head : option bytes) :
  CONTENT_TYPES ∈ names → part ∈ names →
  Sniff.str_startswith part "xl/" = true →
  CORE_XLSX ∉ names →
  (∀ n, n ∈ names → Sniff.str_startswith n "word/" = false ∧
                    Sniff.str_startswith n "ppt/" = false) →
  Sniff._zip_looks_like_ooxml (File data (Some names)) = true ∧
  parse_ooxml_on (Some names) ct_head !! "ooxml_detected" = Some (VBool false) ∧
  parse_ooxml_on (Some names) ct_head !! "parser_ok" = Some (VBool false).
Proof.
  intros Hct Hpart Hxl Hcore Hno. split.
  - unfold Sniff._zip_looks_like_ooxml. simpl.
    rewrite bool_decide_eq_true_2 by done.
    apply (existsb_true _ _ part Hpart). by rewrite Hxl, orb_true_r.
  - unfold parse_ooxml_on. rewrite fast_detect_ooxml_dirs.
    assert (Hd : bool_decide (CORE_DOCX ∈ names) = false).
    { apply bool_decide_eq_false. intros H. by destruct (Hno _ H). }
    assert (Hp : bool_decide (CORE_PPTX ∈ names) = false).
    { apply bool_decide_eq_false. intros H. by destruct (Hno _ H). }
    assert (Hx : bool_decide (CORE_XLSX ∈ names) = false)
      by (by apply bool_decide_eq_false).
    assert (He : existsb (λ n, Sniff.str_startswith n "word/"
                               || Sniff.str_startswith n "ppt/") names = false).
    { apply existsb_false. intros n Hn. by destruct (Hno n Hn) as [-> ->]. }
    rewrite Hd, Hp, Hx, He. rewrite andb_false_r. done.
Qed.

Lemma parse_ooxml_misses_xl_directory_witness :
  Sniff._zip_looks_like_ooxml
    (File [] (Some ["[Content_Types].xml"; "xl/styles.xml"])) = true ∧
  parse_ooxml_on (Some ["[Content_Types].xml"; "xl/styles.xml"]) None
    !! "ooxml_detected" = Some (VBool false) ∧
  parse_ooxml_on (Some ["[Content_Types].xml"; "xl/styles.xml"]) None
    !! "parser_ok" = Some (VBool false).
Proof.
  apply (parse_ooxml_misses_xl_directory
           ["[Content_Types].xml"; "xl/styles.xml"] "xl/styles.xml" [] None).
  - apply (bool_decide_unpack _); vm_compute; exact I.
  - apply (bool_decide_unpack _); vm_compute; exact I.
  - reflexivity.
  - apply (bool_decide_unpack _); vm_compute; exact I.
  - intros n Hn.
    repeat (apply elem_of_cons in Hn as [->|Hn]); [by vm_compute..|].
    by apply not_elem_of_nil in Hn.
Defined.

(** X17 ([fast_rel_count]): the count of relationship parts is the number
    of names that end in [.rels] or [.RELS], capped at
    [RELS_EARLY_STOP + 1]. *)
Theorem fast_rel_count_capped (names : list string) :
  fast_rel_count names
  = Z.min (Z.of_nat (length (filter
                               (λ n, str_endswith n ".rels" = true
                                     ∨ str_endswith n ".RELS" = true) names)))
          (RELS_EARLY_STOP + 1).
Proof.
  unfold fast_rel_count.
  assert (H : ∀ cnt, 0 ≤ cnt ≤ RELS_EARLY_STOP →
    rel_count_from names cnt
    = Z.min (cnt + Z.of_nat (length (filter
                               (λ n, str_endswith n ".rels" = true
                                     ∨ str_endswith n ".RELS" = true) names)))
            (RELS_EARLY_STOP + 1)).
  { induction names as [|n names IH]; intros cnt Hc; simpl rel_count_from.
    { rewrite filter_nil. simpl length. unfold RELS_EARLY_STOP in *. lia. }
    rewrite filter_cons.
    destruct (str_endswith n ".rels" || str_endswith n ".RELS") eqn:Hr.
    - rewrite decide_True by (by apply orb_true_iff in Hr).
      simpl length. destruct (Z.ltb_spec RELS_EARLY_STOP (cnt + 1)).
      + unfold RELS_EARLY_STOP in *. lia.
      + rewrite IH by lia. lia.
    - rewrite decide_False; [by apply IH|].
      apply orb_false_iff in Hr as [-> ->]. intros [?|?]; done. }
  rewrite H by (unfold RELS_EARLY_STOP; lia). f_equal.
Qed.

End OoxmlFacts.

(** ** ZIP encryption summary *)

Section ZipEncFacts.
Import ZipEnc.

(** The scan of an extra field ends without raising. *)
Lemma aes_scan_returns (fuel : nat) (data : bytes) (i : Z) :
  0 ≤ i → Z.max 0 (len data - i) < Z.of_nat fuel →
  ∃ b, aes_scan fuel data i = Ret b.
Proof.
  revert i. induction fuel as [|fuel IH]; intros i Hi Hfuel; [lia|].
  simpl aes_scan. cbv zeta.
  destruct (Z.leb_spec (i + 4) (len data)); [|by eexists].
  rewrite (unpack_le_in_range 2 data i) by lia.
  rewrite (unpack_le_in_range 2 data (i + 2)) by lia.
  cbn [of_option mbind run_bind].
  set (sz := le_value (slice data (i + 2) (i + 2 + 2))).
  assert (0 ≤ sz) by apply le_value_nonneg.
  destruct (Z.ltb_spec (len data) (i + 4 + sz)); [by eexists|].
  destruct (_ =? 39169); [by eexists|].
  apply IH; lia.
Qed.

Lemma has_aes_extra_returns (info : zipinfo) :
  has_aes_extra info = Ret (aes_entry info).
Proof.
  unfold aes_entry.
  destruct (aes_scan_returns (S (length (extra info))) (extra info) 0)
    as [b Hb]; [lia|unfold len; lia|].
  unfold has_aes_extra in *. by rewrite Hb.
Qed.

Lemma entry_enc_method_returns (info : zipinfo) :
  entry_enc_method info
  = Ret (if is_encrypted info
         then Some (if aes_entry info then AES else ZipCrypto)
         else None).
Proof.
  unfold entry_enc_method. destruct (is_encrypted info); [|done].
  simpl. by rewrite has_aes_extra_returns.
Qed.

Lemma scan_infos_returns (infos : list zipinfo) (s : summary) :
  scan_infos infos s
  = Ret (Summary
           (any_enc s || existsb is_encrypted infos)
           (all_enc s && forallb is_encrypted infos)
           (seen_aes s
            || existsb (λ i, is_encrypted i && aes_entry i) infos)
           (seen_zipcrypto s
            || existsb (λ i, is_encrypted i && negb (aes_entry i)) infos)).
Proof.
  revert s. induction infos as [|info infos IH]; intros s.
  { simpl. rewrite !orb_false_r, andb_true_r. by destruct s. }
  simpl scan_infos. rewrite entry_enc_method_returns.
  cbn [mbind run_bind]. rewrite IH. simpl. do 2 f_equal.
  - by rewrite orb_assoc.
  - by rewrite andb_assoc.
  - rewrite orb_assoc. do 2 f_equal.
    destruct (is_encrypted info), (aes_entry info); done.
  - rewrite orb_assoc. do 2 f_equal.
    destruct (is_encrypted info), (aes_entry info); done.
Qed.

(** X18 ([parse_zip_enc] with [entry_enc_method], [has_aes_extra]): for
    an archive that lists at least one entry nothing raises, and the
    record says whether some entry is encrypted and whether all are. The
    method is null when no entry is encrypted (not the empty string of the
    default record); otherwise it is [AES] when every encrypted entry has
    an AES extra record, [ZipCrypto] when none has, and [Mixed] when both
    kinds occur. *)
Theorem parse_zip_enc_summary (infos : list zipinfo) :
  infos ≠ [] →
  let encrypted := filter (λ i, is_encrypted i = true) infos in
  parse_zip_enc_on (Some infos)
  = {[ "zip_any_entry_encrypted" := VBool (bool_decide (encrypted ≠ []));
       "zip_encryption_method" :=
         (if bool_decide (encrypted = []) then VNone
          else if forallb aes_entry encrypted then VStr "AES"
          else if forallb (λ i, negb (aes_entry i)) encrypted
               then VStr "ZipCrypto"
          else VStr "Mixed");
       "zip_all_headers_encrypted" := VBool (forallb is_encrypted infos) ]}.
Proof.
  intros Hne. cbv zeta. unfold parse_zip_enc_on, summarize.
  destruct infos as [|i0 infos0] eqn:Hinfos; [done|]. rewrite <- Hinfos.
  rewrite scan_infos_returns. cbn [mbind run_bind any_enc all_enc seen_aes
    seen_zipcrypto orb andb].
  assert (Hany : existsb is_encrypted infos
                 = bool_decide (filter (λ i, is_encrypted i = true) infos ≠ [])).
  { clear. induction infos as [|i infos IH]; [done|].
    simpl. rewrite filter_cons.
    destruct (decide (is_encrypted i = true)) as [E|E%not_true_is_false];
      rewrite E; simpl; done. }
  assert (Haes : existsb (λ i, is_encrypted i && aes_entry i) infos
                 = negb (forallb (λ i, negb (aes_entry i))
                           (filter (λ i, is_encrypted i = true) infos))).
  { clear. induction infos as [|i infos IH]; [done|].
    simpl. rewrite filter_cons.
    destruct (decide (is_encrypted i = true)) as [E|E%not_true_is_false];
      rewrite E; simpl; [|done].
    rewrite IH. by destruct (aes_entry i). }
  assert (Hzc : existsb (λ i, is_encrypted i && negb (aes_entry i)) infos
                = negb (forallb aes_entry
                          (filter (λ i, is_encrypted i = true) infos))).
  { clear. induction infos as [|i infos IH]; [done|].
    simpl. rewrite filter_cons.
    destruct (decide (is_encrypted i = true)) as [E|E%not_true_is_false];
      rewrite E; simpl; [|done].
    rewrite IH. by destruct (aes_entry i). }
  assert (Hall : forallb is_encrypted infos = true →
                 filter (λ i, is_encrypted i = true) infos ≠ []).
  { rewrite Hinfos. simpl. intros [H0 _]%andb_true_iff.
    rewrite filter_cons, decide_True by done. done. }
  rewrite Hany, Haes, Hzc.
  set (enc := filter (λ i, is_encrypted i = true) infos) in *.
  destruct (decide (enc = [])) as [He|He].
  - rewrite (bool_decide_eq_false_2 (enc ≠ [])) by (intros ?; done).
    rewrite (bool_decide_eq_true_2 (enc = [])) by done. simpl.
    destruct (forallb is_encrypted infos); [by destruct Hall|done].
  - rewrite (bool_decide_eq_true_2 (enc ≠ [])) by done.
    rewrite (bool_decide_eq_false_2 (enc = [])) by done. simpl.
    destruct (forallb aes_entry enc) eqn:Ha,
             (forallb (λ i, negb (aes_entry i)) enc) eqn:Hz; simpl; try done.
    exfalso. destruct enc as [|i enc']; [done|]. simpl in Ha, Hz.
    by destruct (aes_entry i).
Qed.

Lemma parse_zip_enc_summary_witness :
  parse_zip_enc_on (Some [ZipInfo 1 []]) !! "zip_encryption_method"
  = Some (VStr "ZipCrypto").
Proof.
  rewrite (parse_zip_enc_summary [ZipInfo 1 []]) by done.
  vm_compute. reflexivity.
Defined.

End ZipEncFacts.
Section ZipEncRecords.
Import ZipEnc.

Lemma bv_byte_of (z : Z) : 0 ≤ z < 256 → bv (byte_of z) = z.
Proof.
  intros Hz. unfold byte_of, bv.
  destruct (Byte.of_N (Z.to_N z)) as [b|] eqn:Hb; simpl.
  - apply Byte.to_of_N in Hb. rewrite Hb. lia.
  - apply Byte.of_N_None_iff in Hb. lia.
Qed.

Lemma le_value_le_bytes (w : nat) (v : Z) :
  0 ≤ v < 256 ^ Z.of_nat w → le_value (le_bytes w v) = v.
Proof.
  revert v. induction w as [|w IH]; intros v Hv; simpl.
  { change (256 ^ Z.of_nat 0) with 1 in Hv. lia. }
  rewrite bv_byte_of by (apply Z.mod_pos_bound; lia).
  rewrite IH.
  - pose proof (Z.div_mod v 256). lia.
  - replace (Z.of_nat (S w)) with (Z.succ (Z.of_nat w)) in Hv by lia.
    rewrite Z.pow_succ_r in Hv by lia.
    split; [apply Z.div_pos; lia|]. apply Z.div_lt_upper_bound; lia.
Qed.

Lemma length_le_bytes (w : nat) (v : Z) : length (le_bytes w v) = w.
Proof. revert v. induction w as [|w IH]; intros v; simpl; [done|]. by rewrite IH. Qed.

Lemma slice_app_mid (pre mid post : bytes) (lo hi : Z) :
  lo = len pre → hi = len pre + len mid →
  slice (pre ++ mid ++ post) lo hi = mid.
Proof.
  intros -> ->. unfold slice, len.
  rewrite Nat2Z.id, drop_app_length.
  replace (Z.to_nat (Z.of_nat (length pre) + Z.of_nat (length mid)
                     - Z.of_nat (length pre))) with (length mid) by lia.
  by rewrite take_app_length.
Qed.

Lemma aes_scan_S (fuel : nat) (data : bytes) (i : Z) :
  aes_scan (S fuel) data i
  = if i + 4 <=? len data then
      header_id ← of_option (unpack_le 2 data i);
      sz ← of_option (unpack_le 2 data (i + 2));
      if len data <? i + 4 + sz then Ret false
      else if header_id =? 0x9901 then Ret true
      else aes_scan fuel data (i + 4 + sz)
    else Ret false.
Proof. reflexivity. Qed.

Lemma aes_scan_records (fuel : nat) (pre : bytes) (records : list (Z * bytes))
    (junk : bytes) :
  Forall record_wf records → len junk < 4 →
  len (mjoin (extra_record <$> records) ++ junk) < Z.of_nat fuel →
  aes_scan fuel (pre ++ mjoin (extra_record <$> records) ++ junk) (len pre)
  = Ret (bool_decide (0x9901 ∈ records.*1)).
Proof.
  intros Hwf Hjunk. revert fuel pre.
  induction Hwf as [|[id payload] records [Hid Hsz] _ IH]; intros fuel pre Hfuel.
  { destruct fuel as [|fuel]; [unfold len in Hfuel; lia|].
    simpl. unfold len in *. rewrite length_app.
    destruct (Z.leb_spec (Z.of_nat (length pre) + 4)
                (Z.of_nat (length pre + length junk))); [lia|done]. }
  assert (Hcons : mjoin (extra_record <$> (id, payload) :: records) ++ junk
                  = le_bytes 2 id ++ le_bytes 2 (len payload) ++ payload
                    ++ mjoin (extra_record <$> records) ++ junk).
  { rewrite fmap_cons, mjoin_cons. unfold extra_record at 1. simpl.
    by rewrite <- !app_assoc. }
  rewrite Hcons in *. simpl in Hid, Hsz.
  set (rest := mjoin (extra_record <$> records) ++ junk) in *.
  destruct fuel as [|fuel]; [unfold len in Hfuel; lia|].
  assert (Hlen : len (pre ++ le_bytes 2 id
                      ++ le_bytes 2 (len payload) ++ payload ++ rest)
                 = len pre + 4 + len payload + len rest).
  { unfold len. rewrite !length_app, !length_le_bytes. lia. }
  pose proof (len_nonneg payload) as Hp0. pose proof (len_nonneg rest) as Hr0.
  pose proof (len_nonneg pre) as Hpre0.
  rewrite aes_scan_S, Hlen.
  destruct (Z.leb_spec (len pre + 4) (len pre + 4 + len payload + len rest));
    [|lia].
  rewrite (unpack_le_in_range 2 _ (len pre)) by lia.
  rewrite (unpack_le_in_range 2 _ (len pre + 2)) by lia.
  rewrite (slice_app_mid pre (le_bytes 2 id) _ (len pre) (len pre + 2))
    by (done || (unfold len; rewrite length_le_bytes; lia)).
  rewrite (app_assoc pre (le_bytes 2 id)).
  rewrite (slice_app_mid (pre ++ le_bytes 2 id) (le_bytes 2 (len payload)) _
             (len pre + 2) (len pre + 2 + 2))
    by (unfold len; rewrite ?length_app, !length_le_bytes; lia).
  rewrite !le_value_le_bytes by (change (256 ^ Z.of_nat 2) with 65536; lia).
  cbn [of_option mbind run_bind].
  destruct (Z.ltb_spec (len pre + 4 + len payload + len rest)
              (len pre + 4 + len payload)); [lia|].
  rewrite fmap_cons. simpl fst.
  destruct (Z.eqb_spec id 39169) as [->|Hne].
  { rewrite bool_decide_eq_true_2; [done|]. by left. }
  assert (Hpre' : pre ++ le_bytes 2 id ++ le_bytes 2 (len payload)
                      ++ payload ++ rest
                  = (pre ++ le_bytes 2 id ++ le_bytes 2 (len payload) ++ payload)
                    ++ rest) by (by rewrite <- !app_assoc).
  rewrite <- app_assoc, Hpre'.
  replace (len pre + 4 + len payload)
    with (len (pre ++ le_bytes 2 id ++ le_bytes 2 (len payload) ++ payload))
    by (unfold len; rewrite !length_app, !length_le_bytes; lia).
  unfold rest. rewrite IH.
  - f_equal. apply bool_decide_ext. rewrite elem_of_cons. naive_solver.
  - fold rest. unfold len in *.
    rewrite !length_app, !length_le_bytes in Hfuel. lia.
Qed.

(** X19 ([has_aes_extra]): on an extra field that is a sequence of
    records, each a header id and a payload length in two little-endian
    bytes followed by the payload, with fewer than four bytes after the
    last record, the scan reports an AES record exactly when some record
    has the header id 0x9901. *)
Theorem has_aes_extra_finds_aes_record
    (flags : Z) (records : list (Z * bytes)) (junk : bytes) :
  Forall record_wf records → len junk < 4 →
  has_aes_extra (ZipInfo flags (mjoin (extra_record <$> records) ++ junk))
  = Ret (bool_decide (0x9901 ∈ records.*1)).
Proof.
  intros Hwf Hjunk. unfold has_aes_extra. simpl extra.
  apply (aes_scan_records _ [] records junk Hwf Hjunk).
  unfold len. lia.
Qed.

Lemma has_aes_extra_finds_aes_record_witness :
  has_aes_extra
    (ZipInfo 1 (mjoin (extra_record <$> [(0x000a, [x01]); (0x9901, [])]) ++ []))
  = Ret (bool_decide (0x9901 ∈ [(0x000a, [x01]); (0x9901, [])].*1)).
Proof.
  apply (has_aes_extra_finds_aes_record 1 [(0x000a, [x01]); (0x9901, [])] []).
  - repeat constructor; vm_compute; congruence.
  - vm_compute. reflexivity.
Defined.

End ZipEncRecords.

(** ** Sniffer *)

Section SniffFacts.
Import Sniff.

Lemma sniff_lookups (f : file) (cfg : config) :
  let head := sniff_head cfg f in
  let tail :=
    if default 16384 (tail_bytes cfg) <=? len (content f)
    then read_n (drop (Z.to_nat (len (content f)
                                 - default 16384 (tail_bytes cfg)))
                   (content f))
                (default 16384 (tail_bytes cfg))
    else head in
  sniff f cfg !! "format_family"
    = Some (VStr (family (enabled_families cfg) head f)) ∧
  sniff f cfg !! "magic_ok" = Some (VBool (magic head tail f).1) ∧
  sniff f cfg !! "magic_family" = Some (VStr (magic head tail f).2).
Proof.
  cbv zeta. unfold sniff, sniff_head.
  destruct (magic _ _ f) as [ok fam]. done.
Qed.

(** The family is one whose signature test holds and which is enabled. *)
Lemma family_sound (enabled : list string) (head : bytes) (f : file) :
  let fam := family enabled head f in
  fam = "other" ∨
  (fam ∈ enabled ∧ fam ∈ HANDLED_FAMILIES ∧ signature_of fam head f = true).
Proof.
  cbv zeta. unfold family.
  assert (Hleaf : ∀ fam : string,
            fam ∈ HANDLED_FAMILIES → fam ∈ enabled →
            signature_of fam head f = true →
            fam = "other" ∨
            (fam ∈ enabled ∧ fam ∈ HANDLED_FAMILIES
             ∧ signature_of fam head f = true)) by (intros; right; done).
  assert (Hin : ∀ fam : string, bool_decide (fam ∈ HANDLED_FAMILIES) = true →
                fam ∈ HANDLED_FAMILIES) by (intros ?; apply bool_decide_eq_true).
  repeat match goal with
  | |- context [if bool_decide (?x ∈ enabled) && ?c then _ else _] =>
    let Hb := fresh "Hb" in
    destruct (bool_decide (x ∈ enabled) && c) eqn:Hb;
    [apply andb_true_iff in Hb as [?%bool_decide_eq_true ?];
     apply Hleaf; [by apply Hin|done|done]|]
  end.
  destruct ((bool_decide ("zip" ∈ enabled) || bool_decide ("ooxml" ∈ enabled))
            && _is_zip head) eqn:Hz; [|by left].
  apply andb_true_iff in Hz as [_ Hzip].
  destruct (bool_decide ("ooxml" ∈ enabled) && _zip_looks_like_ooxml f) eqn:Ho.
  { apply andb_true_iff in Ho as [?%bool_decide_eq_true Hl].
    apply Hleaf; [by apply Hin|done|]. unfold signature_of. simpl.
    by rewrite Hzip, Hl. }
  destruct (bool_decide ("zip" ∈ enabled)) eqn:Hzp; [|by left].
  apply bool_decide_eq_true in Hzp. apply Hleaf; [by apply Hin|done|done].
Qed.

End SniffFacts.
Section SniffTheorems.
Import Sniff.

Lemma magic_ok_of_signature (fam : string) (head tail : bytes) (f : file) :
  signature_of fam head f = true → (magic head tail f).1 = true.
Proof.
  unfold signature_of, magic. intros Hsig.
  destruct (_is_pdf head); [done|]. destruct (_is_png head); [done|].
  destruct (_is_jpeg head); [done|]. destruct (_is_gzip head); [done|].
  destruct (_is_ole2 head); [done|]. destruct (_is_rar head); [done|].
  destruct (_is_mp4 head); [done|]. destruct (_is_zip head); [done|].
  exfalso. repeat case_bool_decide; done.
Qed.

Lemma family_is_magic_family (enabled : list string) (head tail : bytes)
    (f : file) :
  (∀ fam, fam ∈ HANDLED_FAMILIES → fam ∈ enabled) →
  family enabled head f
  = if bool_decide ((magic head tail f).2 ∈ HANDLED_FAMILIES)
    then (magic head tail f).2 else "other".
Proof.
  intros Hall. unfold family, magic.
  assert (Hon : ∀ fam : string, bool_decide (fam ∈ HANDLED_FAMILIES) = true →
                bool_decide (fam ∈ enabled) = true).
  { intros fam Hf. apply bool_decide_eq_true_2, Hall.
    by apply bool_decide_eq_true_1 in Hf. }
  rewrite !Hon by done. cbn [andb orb].
  destruct (_is_pdf head); [done|]. destruct (_is_png head); [done|].
  destruct (_is_jpeg head); [done|]. destruct (_is_gzip head); [done|].
  destruct (_is_ole2 head); [done|]. destruct (_is_rar head); [done|].
  destruct (_is_mp4 head); [done|].
  destruct (_is_zip head); [by destruct (_zip_looks_like_ooxml f)|].
  cbv zeta.
  destruct (_is_gif head), (_is_webp head), (_is_mp3 head), (_is_wav head),
    (_is_flac head), (_is_bzip2 head), (_is_lz4 head), (_is_zstd head),
    (_is_sqlite head), (_is_tar head _), (_is_pe head), (_is_elf head),
    (_is_7z head); done.
Qed.

(** X20 ([sniff]): the family reported is [other] or one of the nine
    families with a parser; in the second case the family is enabled in the
    configuration, its signature test holds on the bytes read from the
    start of the file, and [magic_ok] is true. *)
Theorem sniff_family_is_enabled_and_signed (f : file) (cfg : config) :
  let fam := sniffed_family cfg f in
  fam = "other" ∨
  (fam ∈ enabled_families cfg ∧ fam ∈ HANDLED_FAMILIES ∧
   signature_of fam (sniff_head cfg f) f = true ∧
   Sniff.sniff f cfg !! "magic_ok" = Some (VBool true)).
Proof.
  cbv zeta. unfold sniffed_family.
  destruct (sniff_lookups f cfg) as (-> & -> & _).
  destruct (family_sound (enabled_families cfg) (sniff_head cfg f) f)
    as [?|(? & ? & Hsig)]; [by left|right].
  repeat (split; [done|]).
  by rewrite (magic_ok_of_signature _ _ _ _ Hsig).
Qed.

(** X21 ([sniff]): when all nine families are enabled, the family is the
    magic family whenever that is one of the nine, and [other] for every
    other magic family (the thirteen formats without a parser, and
    [unknown]). *)
Theorem sniff_family_follows_magic_family (f : file) (cfg : config) :
  (∀ fam, fam ∈ HANDLED_FAMILIES → fam ∈ enabled_families cfg) →
  sniffed_family cfg f
  = if bool_decide (sniffed_magic_family cfg f ∈ HANDLED_FAMILIES)
    then sniffed_magic_family cfg f else "other".
Proof.
  intros Hall. unfold sniffed_family, sniffed_magic_family.
  destruct (sniff_lookups f cfg) as (-> & _ & ->).
  by apply family_is_magic_family.
Qed.

Lemma sniff_family_follows_magic_family_witness :
  sniffed_family config_all_families file_gzip_magic_only
  = if bool_decide (sniffed_magic_family config_all_families
                      file_gzip_magic_only ∈ HANDLED_FAMILIES)
    then sniffed_magic_family config_all_families file_gzip_magic_only
    else "other".
Proof.
  apply (sniff_family_follows_magic_family file_gzip_magic_only
           config_all_families).
  intros fam Hfam. exact Hfam.
Defined.

End SniffTheorems.

(** ** Schema collection: order, repeats and types *)

Section SchemaOrder.

Lemma collect_item_inv (acc : schema_acc) (it : yitem) :
  schema_inv acc → schema_inv (collect_item acc it).
Proof.
  intros [Hnd Hty]. destruct it as [n t|]; simpl; [|done].
  destruct (truthy n) as [name|]; [|done].
  case_bool_decide as Hin; [done|]. split; simpl.
  - apply NoDup_app. split; [done|]. split; [|apply NoDup_singleton].
    intros x Hx ->%list_elem_of_singleton. done.
  - intros m Hm. apply elem_of_app.
    destruct (truthy t) as [ty|]; [|left; by apply Hty].
    destruct (decide (name = m)) as [->|Hne].
    + right. by apply list_elem_of_singleton.
    + rewrite lookup_insert_ne in Hm by done. left. by apply Hty.
Qed.

Lemma collect_items_inv (items : list yitem) (acc : schema_acc) :
  schema_inv acc → schema_inv (foldl collect_item acc items).
Proof.
  revert acc. induction items as [|it items IH]; intros acc H; simpl; [done|].
  by apply IH, collect_item_inv.
Qed.

Lemma collect_section_inv (acc : schema_acc) (sec : string * ysection) :
  schema_inv acc → schema_inv (collect_section acc sec).
Proof.
  unfold collect_section. destruct sec.2; [apply collect_items_inv|done|done].
Qed.

Lemma collect_sections_inv (secs : list (string * ysection)) (acc : schema_acc) :
  schema_inv acc → schema_inv (foldl collect_section acc secs).
Proof.
  revert acc. induction secs as [|s secs IH]; intros acc H; simpl; [done|].
  by apply IH, collect_section_inv.
Qed.

(** Once a column is there, later entries leave its place and its type. *)
Lemma collect_item_stable (acc : schema_acc) (it : yitem) (name : string) :
  name ∈ acc.1 →
  name ∈ (collect_item acc it).1 ∧
  (collect_item acc it).2 !! name = acc.2 !! name ∧
  ∃ more, (collect_item acc it).1 = acc.1 ++ more.
Proof.
  intros Hin. destruct it as [n t|]; simpl;
    [|split; [done|]; split; [done|]; exists []; by rewrite app_nil_r].
  destruct (truthy n) as [n'|];
    [|split; [done|]; split; [done|]; exists []; by rewrite app_nil_r].
  case_bool_decide as Hn';
    [split; [done|]; split; [done|]; exists []; by rewrite app_nil_r|].
  simpl. split; [apply elem_of_app; by left|]. split; [|by eexists].
  destruct (truthy t); [|done]. rewrite lookup_insert_ne; [done|].
  intros ->. done.
Qed.

Lemma collect_items_stable (items : list yitem) (acc : schema_acc)
    (name : string) :
  name ∈ acc.1 →
  (foldl collect_item acc items).2 !! name = acc.2 !! name ∧
  ∃ more, (foldl collect_item acc items).1 = acc.1 ++ more.
Proof.
  revert acc. induction items as [|it items IH]; intros acc Hin; simpl.
  { split; [done|]. exists []. by rewrite app_nil_r. }
  destruct (collect_item_stable acc it name Hin) as (Hin' & Hty & m1 & Hm1).
  destruct (IH _ Hin') as (Hty' & m2 & Hm2).
  split; [by rewrite Hty', Hty|]. exists (m1 ++ m2).
  by rewrite Hm2, Hm1, app_assoc.
Qed.

Lemma collect_sections_stable (secs : list (string * ysection))
    (acc : schema_acc) (name : string) :
  name ∈ acc.1 →
  (foldl collect_section acc secs).2 !! name = acc.2 !! name ∧
  ∃ more, (foldl collect_section acc secs).1 = acc.1 ++ more.
Proof.
  revert acc. induction secs as [|s secs IH]; intros acc Hin; simpl.
  { split; [done|]. exists []. by rewrite app_nil_r. }
  assert (Hs : name ∈ (collect_section acc s).1 ∧
               (collect_section acc s).2 !! name = acc.2 !! name ∧
               ∃ more, (collect_section acc s).1 = acc.1 ++ more).
  { unfold collect_section. destruct s.2 as [items| |];
      [|split; [done|]; split; [done|]; exists []; by rewrite app_nil_r..].
    destruct (collect_items_stable items acc name Hin) as (Hty & m & Hm).
    split; [rewrite Hm; apply elem_of_app; by left|]. split; [done|by eexists]. }
  destruct Hs as (Hin' & Hty & m1 & Hm1).
  destruct (IH _ Hin') as (Hty' & m2 & Hm2).
  split; [by rewrite Hty', Hty|]. exists (m1 ++ m2).
  by rewrite Hm2, Hm1, app_assoc.
Qed.

(** An entry for a name that is not yet a column adds it with its type. *)
Lemma collect_item_first (acc : schema_acc) (name : string)
    (typ : option string) :
  schema_inv acc → name ≠ "" → name ∉ acc.1 →
  (collect_item acc (YItem (Some name) typ)).1 = acc.1 ++ [name] ∧
  (collect_item acc (YItem (Some name) typ)).2 !! name = truthy typ.
Proof.
  intros [_ Hty] Hne Hnin.
  assert (Ht : truthy (Some name) = Some name) by (by apply truthy_Some).
  unfold collect_item. rewrite Ht. rewrite bool_decide_eq_false_2 by done.
  cbn [fst snd].
  split; [done|]. destruct (truthy typ) as [t|].
  - by rewrite lookup_insert_eq.
  - destruct (acc.2 !! name) eqn:E; [|done]. exfalso. apply Hnin, Hty. eauto.
Qed.

End SchemaOrder.
Section SchemaTheorems.

Lemma foldl_cons_eq {A B : Type} (f : A → B → A) (a : A) (x : B) (l : list B) :
  foldl f a (x :: l) = foldl f (f a x) l.
Proof. reflexivity. Qed.

Lemma schema_inv_empty : schema_inv ([], ∅).
Proof.
  split; [constructor|]. intros n [? H]. simpl in H.
  by rewrite lookup_empty in H.
Qed.

(** X22 ([collect_schema] of extract.py, [_collect_schema] of
    features_a.py): no column is listed twice, and the type of a column is
    the type of its first declaration: a later entry with the same name
    changes neither the list of columns nor the type, and a first
    declaration without type leaves the column untyped. *)
Theorem collect_schema_first_declaration_wins
    (cfg : config) (secs1 secs2 : list (string * ysection)) (sec : string)
    (its1 its2 : list yitem) (name : string) (typ : option string) :
  features cfg
  = secs1 ++ (sec, SecList (its1 ++ YItem (Some name) typ :: its2)) :: secs2 →
  name ≠ "" →
  (∀ s items t, (s, SecList items) ∈ secs1 → YItem (Some name) t ∉ items) →
  (∀ t, YItem (Some name) t ∉ its1) →
  NoDup (collect_schema cfg).1 ∧
  name ∈ (collect_schema cfg).1 ∧
  (collect_schema cfg).2 !! name = truthy typ ∧
  AggregatorA._collect_schema cfg = collect_schema cfg.
Proof.
  intros Hf Hne Hsecs Hits.
  assert (HA : AggregatorA._collect_schema cfg = collect_schema cfg)
    by reflexivity.
  rewrite HA. clear HA. unfold collect_schema.
  split; [apply collect_sections_inv, schema_inv_empty|].
  rewrite Hf, foldl_app, foldl_cons_eq.
  set (acc1 := foldl collect_section ([], ∅) secs1).
  assert (Hinv1 : schema_inv acc1)
    by apply collect_sections_inv, schema_inv_empty.
  assert (Hn1 : name ∉ acc1.1).
  { unfold acc1. rewrite collect_sections_elem.
    intros [H|(_ & s & items & t & Hs & Hi)]; [by apply not_elem_of_nil in H|].
    by apply (Hsecs s items t). }
  change (collect_section acc1
            (sec, SecList (its1 ++ YItem (Some name) typ :: its2)))
    with (foldl collect_item acc1 (its1 ++ YItem (Some name) typ :: its2)).
  rewrite (foldl_app collect_item), foldl_cons_eq.
  set (acc2 := foldl collect_item acc1 its1).
  assert (Hinv2 : schema_inv acc2) by (by apply collect_items_inv).
  assert (Hn2 : name ∉ acc2.1).
  { unfold acc2. rewrite collect_items_elem.
    intros [H|(_ & t & Hi)]; [done|]. by apply (Hits t). }
  destruct (collect_item_first acc2 name typ Hinv2 Hne Hn2) as [Hcols Hty].
  set (acc3 := collect_item acc2 (YItem (Some name) typ)) in *.
  assert (Hin3 : name ∈ acc3.1).
  { rewrite Hcols. apply elem_of_app. right. by apply list_elem_of_singleton. }
  destruct (collect_items_stable its2 acc3 name Hin3) as (Hty4 & m4 & Hm4).
  set (acc4 := foldl collect_item acc3 its2) in *.
  assert (Hin4 : name ∈ acc4.1) by (rewrite Hm4; apply elem_of_app; by left).
  destruct (collect_sections_stable secs2 acc4 name Hin4) as (Hty5 & m5 & Hm5).
  split; [rewrite Hm5; apply elem_of_app; by left|].
  split; [by rewrite Hty5, Hty4|done].
Qed.

Lemma collect_schema_first_declaration_wins_witness :
  (collect_schema
     (Config None None [] None
        [("gzip", SecList [col "parser_ok" "bool"]);
         ("zip", SecList [col "parser_ok" "int"])])).2 !! "parser_ok"
  = truthy (Some "bool").
Proof.
  apply (collect_schema_first_declaration_wins
           (Config None None [] None
              [("gzip", SecList [col "parser_ok" "bool"]);
               ("zip", SecList [col "parser_ok" "int"])])
           [] [("zip", SecList [col "parser_ok" "int"])] "gzip" [] []
           "parser_ok" (Some "bool")).
  - reflexivity.
  - done.
  - intros s items t Hs. by apply not_elem_of_nil in Hs.
  - intros t Ht. by apply not_elem_of_nil in Ht.
Defined.

End SchemaTheorems.

(** ** Aggregators A and B: the values *)

Section AggregatorValues.

Lemma lookup_setdefault_none (k : string) (d : gmap string pyval) (n : string) :
  AggregatorA.setdefault_none k d !! n
  = match d !! n with
    | Some v => Some v
    | None => if bool_decide (n = k) then Some VNone else None
    end.
Proof.
  unfold AggregatorA.setdefault_none.
  destruct (d !! k) eqn:Hk.
  - destruct (d !! n) eqn:Hn; [done|]. case_bool_decide; [|done].
    subst. congruence.
  - destruct (decide (k = n)) as [->|Hne].
    + by rewrite lookup_insert_eq, Hk, bool_decide_eq_true_2.
    + rewrite lookup_insert_ne by done.
      destruct (d !! n); [done|]. by rewrite bool_decide_eq_false_2.
Qed.

Lemma merged_get (snf pf : gmap string pyval) (name : string) :
  AggregatorA.get (AggregatorA.merged snf pf) name
  = structural_value snf pf name.
Proof.
  unfold AggregatorA.merged, structural_value, AggregatorA.get at 1.
  rewrite lookup_union, !lookup_setdefault_none.
  rewrite (lookup_list_to_map_fun (λ k, AggregatorA.get snf k)).
  destruct (pf !! name) as [v|] eqn:Hpf; simpl.
  { by destruct (bool_decide (name ∈ AggregatorA._COMMON_KEYS)). }
  destruct (decide (name = "parser_ok")) as [->|H1]; [done|].
  destruct (decide (name = "structure_consistent")) as [->|H2]; [done|].
  rewrite !bool_decide_eq_false_2 by done. simpl.
  by destruct (bool_decide (name ∈ AggregatorA._COMMON_KEYS)).
Qed.

(** X23 ([AggregatorA.collect]): under a declared name Aggregator A stores
    the value the structural parser gave for that key, a null of the
    parser included; when the parser gave no such key, the value of the
    sniffer for one of the five common keys, and null for every other
    name. A key of the sniffer outside the five is never copied. *)
Theorem aggregator_a_parser_overrides_sniffer
    (cfg : config) (snf pf : gmap string pyval) (name : string) :
  declared cfg name →
  AggregatorA.collect cfg snf pf !! name
  = Some (match pf !! name with
          | Some v => v
          | None =>
            if bool_decide (name ∈ AggregatorA._COMMON_KEYS)
            then default VNone (snf !! name) else VNone
          end).
Proof.
  intros Hd. rewrite AggregatorA_collect_lookup.
  rewrite bool_decide_eq_true_2 by (by apply collect_schema_declared).
  by rewrite merged_get.
Qed.

Lemma aggregator_a_parser_overrides_sniffer_witness :
  AggregatorA.collect example_config
    {[ "size_bytes" := VInt 3; "fallback_max_attempts" := VInt 0 ]}
    {[ "size_bytes" := VNone ]} !! "size_bytes"
  = Some VNone.
Proof.
  assert (Hd : declared example_config "size_bytes").
  { split; [done|]. eexists "common", _, (Some "int").
    split; [by left|by left]. }
  rewrite (aggregator_a_parser_overrides_sniffer example_config _ _ _ Hd).
  reflexivity.
Defined.

End AggregatorValues.
Section AggregatorBFamily.

Lemma collectB_items_cols (items : list yitem) (acc : list string * schema_acc) :
  (foldl AggregatorB.collect_item acc items).1 = acc.1 ++ item_names items.
Proof.
  revert acc. induction items as [|it items IH]; intros acc.
  { simpl. by rewrite app_nil_r. }
  rewrite foldl_cons_eq, IH. unfold item_names at 2.
  destruct it as [n t|]; simpl; [|done].
  destruct (truthy n) as [name|]; [|done]. simpl.
  case_bool_decide; simpl; by rewrite <- app_assoc.
Qed.

Lemma collectB_section_other (acc : AggregatorB.schema)
    (s : string * ysection) (fam : string) :
  s.1 ≠ fam →
  AggregatorB.family_columns (AggregatorB.collect_section acc s) !! fam
  = AggregatorB.family_columns acc !! fam.
Proof.
  intros Hne. unfold AggregatorB.collect_section.
  destruct s.2 as [items| |]; [|done|done].
  destruct (AggregatorB.ends_with_enc s.1); [|done].
  destruct (foldl AggregatorB.collect_item _ items) as [cols [all types]].
  simpl. by rewrite lookup_insert_ne.
Qed.

Lemma collectB_sections_other (secs : list (string * ysection))
    (acc : AggregatorB.schema) (fam : string) :
  fam ∉ secs.*1 →
  AggregatorB.family_columns (foldl AggregatorB.collect_section acc secs) !! fam
  = AggregatorB.family_columns acc !! fam.
Proof.
  revert acc. induction secs as [|s secs IH]; intros acc Hn; [done|].
  rewrite foldl_cons_eq, IH.
  - apply collectB_section_other. intros <-. apply Hn. rewrite fmap_cons. by left.
  - intros H. apply Hn. rewrite fmap_cons. by right.
Qed.

Lemma collectB_sections_family (secs : list (string * ysection))
    (acc : AggregatorB.schema) (sec : string) (items : list yitem) :
  NoDup secs.*1 → (sec, SecList items) ∈ secs →
  AggregatorB.ends_with_enc sec = true →
  AggregatorB.family_columns (foldl AggregatorB.collect_section acc secs) !! sec
  = Some (item_names items).
Proof.
  revert acc. induction secs as [|s secs IH]; intros acc Hnd Hin Henc.
  { by apply not_elem_of_nil in Hin. }
  rewrite fmap_cons in Hnd. apply NoDup_cons in Hnd as [Hs Hnd].
  rewrite foldl_cons_eq. apply elem_of_cons in Hin as [<-|Hin].
  - rewrite collectB_sections_other by done.
    unfold AggregatorB.collect_section. simpl. rewrite Henc.
    pose proof (collectB_items_cols items
      ([], (AggregatorB.columns acc, AggregatorB.column_types acc))) as Hc.
    destruct (foldl AggregatorB.collect_item _ items) as [cols [all types]].
    simpl in *. by rewrite lookup_insert_eq, Hc.
  - by apply IH.
Qed.

(** X24 ([AggregatorB._collect_schema], [AggregatorB.collect]): for a
    family whose section name ends in [_enc], Aggregator B returns the
    names of the entries of that section, each with the value of the
    encryption parser for it, or null when the parser gave none; it
    returns nothing for a name outside the section. For a family without
    a section it returns the empty dict. *)
Theorem aggregator_b_returns_family_section
    (cfg : config) (sec : string) (items : list yitem)
    (enc : gmap string pyval) :
  NoDup (features cfg).*1 → (sec, SecList items) ∈ features cfg →
  AggregatorB.ends_with_enc sec = true →
  (∀ name,
     AggregatorB.collect (AggregatorB._collect_schema cfg) sec enc !! name
     = if bool_decide (name ∈ item_names items)
       then Some (default VNone (enc !! name)) else None) ∧
  (∀ fam, fam ∉ (features cfg).*1 →
          AggregatorB.collect (AggregatorB._collect_schema cfg) fam enc = ∅).
Proof.
  intros Hnd Hin Henc. split.
  - intros name. rewrite AggregatorB_collect_lookup.
    unfold AggregatorB._collect_schema.
    by rewrite (collectB_sections_family _ _ sec items Hnd Hin Henc).
  - intros fam Hfam. unfold AggregatorB.collect, AggregatorB._collect_schema.
    rewrite collectB_sections_other by done. simpl.
    by rewrite lookup_empty.
Qed.

Lemma aggregator_b_returns_family_section_witness :
  AggregatorB.collect (AggregatorB._collect_schema example_config) "zip_enc"
    {[ "zip_encryption_method" := VStr "AES" ]} !! "zip_any_entry_encrypted"
  = Some VNone.
Proof.
  assert (Hnd : NoDup (features example_config).*1)
    by (apply (bool_decide_unpack _); vm_compute; exact I).
  assert (Hin : ("zip_enc", SecList [col "zip_any_entry_encrypted" "bool"])
                ∈ features example_config)
    by (apply (bool_decide_unpack _); vm_compute; exact I).
  assert (Henc : AggregatorB.ends_with_enc "zip_enc" = true) by reflexivity.
  rewrite (proj1 (aggregator_b_returns_family_section example_config "zip_enc"
                    _ {[ "zip_encryption_method" := VStr "AES" ]}
                    Hnd Hin Henc)).
  reflexivity.
Defined.

End AggregatorBFamily.

(** ** Extraction: what reaches the record *)

Section ExtractValues.
Import Extract.

Lemma ExtractContext_fields (cfg : config) (ctx : context) :
  ExtractContext cfg = Some ctx →
  columns ctx = (collect_schema cfg).1 ∧
  column_types ctx = (collect_schema cfg).2 ∧
  agg_c_columns ctx = statistic_columns cfg.
Proof.
  unfold ExtractContext, statistic_columns.
  destruct (AggregatorC.collect_schema cfg); [|done].
  simpl. by intros [= <-].
Qed.

Lemma normalize_value_null (v : pyval) (typ : string) :
  normalize_value v typ = VNone ↔ v = VNone.
Proof.
  split; [|by intros ->].
  unfold normalize_value. destruct v; try done;
    repeat case_bool_decide; simpl; try done;
    repeat case_match; done.
Qed.

(** The value of a declared column in the record. *)
Lemma record_value (reg : registry) (cfg : config) (ctx : context) (f : file)
    (name : string) :
  ExtractContext cfg = Some ctx → declared cfg name →
  ∃ record, (extract_feats reg cfg f).2 = Ok record ∧
    record !! name
    = Some (normalize_value (AggregatorA.get (merge_feats reg ctx f).2 name)
              (default "" ((collect_schema cfg).2 !! name))).
Proof.
  intros Hctx Hdecl. eexists. split; [by apply extract_feats_ok|].
  destruct (ExtractContext_fields cfg ctx Hctx) as (Hcols & Htypes & _).
  rewrite (lookup_list_to_map_fun
             (λ name, normalize_value
                        (AggregatorA.get (merge_feats reg ctx f).2 name)
                        (default "" (column_types ctx !! name)))).
  rewrite bool_decide_eq_true_2, Htypes; [done|].
  rewrite Hcols. by apply collect_schema_declared.
Qed.

Lemma merged_statistic_value (reg : registry) (cfg : config) (ctx : context)
    (f : file) (name : string) (v : pyval) :
  ExtractContext cfg = Some ctx →
  AggregatorC.collect (statistic_columns cfg) f !! name = Some v →
  AggregatorA.get (merge_feats reg ctx f).2 name = v.
Proof.
  intros Hctx Hv.
  destruct (ExtractContext_fields cfg ctx Hctx) as (_ & _ & Hc).
  rewrite (merge_feats_stages reg cfg ctx f Hctx). simpl.
  rewrite get_setdefaults, Hc. by apply get_union_l.
Qed.

Lemma merged_structural_value (reg : registry) (cfg : config) (ctx : context)
    (f : file) (name : string) :
  ExtractContext cfg = Some ctx → declared cfg name →
  name ∉ statistic_columns cfg →
  name ∉ family_enc_columns cfg (sniffed_family cfg f) →
  AggregatorA.get (merge_feats reg ctx f).2 name
  = structural_value (Sniff.sniff f cfg)
      (structural_feats reg (sniffed_family cfg f) f).2 name.
Proof.
  intros Hctx Hdecl Hstat Henc.
  destruct (ExtractContext_fields cfg ctx Hctx) as (_ & _ & Hc).
  rewrite (merge_feats_stages reg cfg ctx f Hctx). simpl.
  rewrite get_setdefaults, Hc.
  rewrite get_union_r; cycle 1.
  { apply not_elem_of_dom. rewrite AggregatorC_collect_dom.
    by rewrite elem_of_list_to_set. }
  rewrite get_setdefaults. rewrite get_union_r; cycle 1.
  { rewrite AggregatorB_collect_lookup. by rewrite bool_decide_eq_false_2. }
  unfold structural_features. rewrite AggregatorA_collect_get.
  rewrite bool_decide_eq_true_2 by (by apply collect_schema_declared).
  apply merged_get.
Qed.

(** X25 ([extract_feats] with Aggregator C): in the record a metric
    declared in the [statistic] section is the value computed from the
    bytes of the file, whatever the parsers returned under that name. It
    is null exactly when the file is empty (for the entropies and the
    chi-square statistic) or has at most one byte (for the index of
    coincidence), and a float otherwise. *)
Theorem extract_feats_statistic_columns
    (reg : registry) (cfg : config) (f : file) (name : string) :
  is_Some (ExtractContext cfg) → declared cfg name →
  name ∈ statistic_columns cfg →
  name ∈ METRIC_NAMES →
  ∃ record v,
    (extract_feats reg cfg f).2 = Ok record ∧
    AggregatorC.collect (statistic_columns cfg) f !! name = Some v ∧
    record !! name
    = Some (normalize_value v (default "" ((collect_schema cfg).2 !! name))) ∧
    (record !! name = Some VNone ↔
     if bool_decide (name = "ic_index") then len (content f) ≤ 1
     else content f = []).
Proof.
  intros [ctx Hctx] Hdecl Hstat Hmetric.
  destruct (record_value reg cfg ctx f name Hctx Hdecl) as (record & Hrec & Hl).
  assert (Hv : ∃ v, AggregatorC.collect (statistic_columns cfg) f !! name
                    = Some v).
  { apply elem_of_dom. rewrite AggregatorC_collect_dom.
    by apply elem_of_list_to_set. }
  destruct Hv as [v Hv].
  rewrite (merged_statistic_value reg cfg ctx f name v Hctx Hv) in Hl.
  exists record, v. split; [done|]. split; [done|]. split; [done|].
  rewrite Hl.
  assert (Hn : Some (normalize_value v (default "" ((collect_schema cfg).2 !! name)))
               = Some VNone ↔
               AggregatorC.collect (statistic_columns cfg) f !! name = Some VNone).
  { rewrite Hv. split; intros [= H]; f_equal.
    - by apply normalize_value_null in H.
    - by apply normalize_value_null. }
  rewrite Hn.
  destruct (collect_metric_null_iff (statistic_columns cfg) f name Hstat)
    as [H5 H1].
  case_bool_decide as Hic; [by apply H1|]. apply H5.
  unfold METRIC_NAMES in Hmetric.
  repeat (apply elem_of_cons in Hmetric as [->|Hmetric]);
    try (apply (bool_decide_unpack _); vm_compute; exact I); [done|].
  by apply not_elem_of_nil in Hmetric.
Qed.

Lemma extract_feats_statistic_columns_witness :
  ∃ record,
    (extract_feats example_registry example_config file_one_byte).2
      = Ok record ∧
    (record !! "entropy_global" = Some VNone ↔
     if bool_decide ("entropy_global" = "ic_index")
     then len (content file_one_byte) ≤ 1
     else content file_one_byte = []).
Proof.
  destruct (extract_feats_statistic_columns example_registry example_config
              file_one_byte "entropy_global")
    as (record & v & Hrec & _ & _ & Hnull).
  - exact example_config_context.
  - apply collect_schema_declared.
    apply (bool_decide_unpack _); vm_compute; exact I.
  - apply (bool_decide_unpack _); vm_compute; exact I.
  - apply (bool_decide_unpack _); vm_compute; exact I.
  - exists record. split; [exact Hrec|exact Hnull].
Defined.

(** X26 ([extract_feats], steps 1 to 6): a declared column that is
    neither a column of the [statistic] section nor a column of the
    [_enc] section of the sniffed family holds in the record the
    normalised structural value: the value of the structural parser for
    that key when it gave one, else the value of the sniffer when the
    name is one of its five common keys, else null. The encryption
    features and the statistics leave such a column alone. *)
Theorem extract_feats_structural_columns
    (reg : registry) (cfg : config) (f : file) (name : string) :
  is_Some (ExtractContext cfg) → declared cfg name →
  name ∉ statistic_columns cfg →
  name ∉ family_enc_columns cfg (sniffed_family cfg f) →
  ∃ record,
    (extract_feats reg cfg f).2 = Ok record ∧
    record !! name
    = Some (normalize_value
              (structural_value (Sniff.sniff f cfg)
                 (structural_feats reg (sniffed_family cfg f) f).2 name)
              (default "" ((collect_schema cfg).2 !! name))).
Proof.
  intros [ctx Hctx] Hdecl Hstat Henc.
  destruct (record_value reg cfg ctx f name Hctx Hdecl) as (record & Hrec & Hl).
  exists record. split; [done|].
  by rewrite Hl, (merged_structural_value reg cfg ctx f name Hctx Hdecl Hstat Henc).
Qed.

Lemma extract_feats_structural_columns_witness :
  ∃ record,
    (extract_feats example_registry example_config file_gzip_magic_only).2
      = Ok record ∧
    record !! "size_bytes"
    = Some (normalize_value
              (structural_value (Sniff.sniff file_gzip_magic_only example_config)
                 (structural_feats example_registry
                    (sniffed_family example_config file_gzip_magic_only)
                    file_gzip_magic_only).2 "size_bytes")
              (default "" ((collect_schema example_config).2 !! "size_bytes"))).
Proof.
  apply (extract_feats_structural_columns example_registry example_config
           file_gzip_magic_only "size_bytes").
  - exact example_config_context.
  - apply collect_schema_declared.
    apply (bool_decide_unpack _); vm_compute; exact I.
  - apply (bool_decide_unpack _); vm_compute; exact I.
  - apply (bool_decide_unpack _); vm_compute; exact I.
Defined.



End ExtractValues.

(** ** The two verdicts of the structural parsers *)

Section Verdicts.

Lemma gzip_verdicts (file : bytes) (d : gmap string pyval) :
  Gzip.parse_gzip file = PDict d →
  d !! "structure_consistent" = Some (VBool true) →
  d !! "parser_ok" = Some (VBool true).
Proof.
  unfold Gzip.parse_gzip.
  destruct (Z.lt_ge_cases (len file) Gzip._BASE_HDR_LEN) as [Hs|Hl].
  - assert (Gzip.parse_gzip_try file = Some Gzip.DEF_RETURN) as ->.
    { unfold Gzip.parse_gzip_try.
      assert (len (take (Z.to_nat Gzip._MAX_READ) file) < Gzip._BASE_HDR_LEN)
        by (unfold len in *; rewrite length_take; lia).
      destruct (Z.ltb_spec (len (take (Z.to_nat Gzip._MAX_READ) file))
                  Gzip._BASE_HDR_LEN); [done|lia]. }
    by intros [= <-].
  - destruct (parse_gzip_try_past_header file Hl)
      as (id1 & id2 & cm & m & nm & _ & _ & _ & ->).
    intros [= <-].
    destruct (gzip_record_lookup (Gzip.header_valid id1 id2 cm) m nm)
      as (_ & _ & _ & -> & ->). done.
Qed.

Lemma mp4_verdicts (fp : bytes) (d : gmap string pyval) :
  Mp4.parse_mp4 fp = PDict d →
  d !! "structure_consistent" = Some (VBool true) →
  d !! "parser_ok" = Some (VBool true).
Proof.
  unfold Mp4.parse_mp4, Mp4.parse_mp4_io.
  destruct (Mp4.fsize fp <? 8); [by intros [= <-]|].
  destruct (Mp4.validate_box_range fp 0 _) as [log0 ok].
  destruct (Mp4.iter_boxes fp 0 _) as [ys fin].
  destruct (Mp4.scan_boxes fp ys fin _) as [log1 [f m dd br t]].
  simpl. intros [= <-] [= Hsc]. do 2 f_equal.
  destruct f, t, m, dd; done.
Qed.

Lemma ole2_verdicts (data : bytes) (d : gmap string pyval) :
  Ole2.parse_ole2 data = PDict d →
  d !! "structure_consistent" = Some (VBool true) →
  d !! "parser_ok" = Some (VBool true).
Proof.
  unfold Ole2.parse_ole2.
  destruct (Ole2.parse_ole2_try data) as [r| |] eqn:Htry;
    [|by intros [= <-]|done].
  intros ->. unfold Ole2.parse_ole2_try in Htry.
  apply run_bind_Ret in Htry as ([H|] & _ & Htry); [|done].
  apply run_bind_Ret in Htry as ([fat fat_ok] & _ & Htry).
  apply run_bind_Ret in Htry as (dir_stream & _ & Htry).
  apply run_bind_Ret in Htry as (di & _ & Htry).
  injection Htry as <-. intros [= Hsc].
  apply andb_true_iff in Hsc as [Hsc _].
  apply andb_true_iff in Hsc as [Hok _].
  transitivity (Some (VBool
    (Ole2.ole_dir_ok di && Ole2.ole_root_entry_present di && fat_ok
     && (1 <=? Ole2.ole_stream_count di)))); [done|].
  by rewrite Hok.
Qed.

Lemma zip_verdicts (file : bytes) (d : gmap string pyval) :
  Zip.parse_zip file = PDict d →
  d !! "structure_consistent" = Some (VBool true) →
  d !! "parser_ok" = Some (VBool true).
Proof.
  unfold Zip.parse_zip.
  destruct (Zip.parse_zip_try file) as [r| |] eqn:Htry;
    [|by intros [= <-]|done].
  intros ->. unfold Zip.parse_zip_try in Htry.
  destruct (Zip.find_eocd file _) as [[pos eocd]|]; [|done].
  apply run_bind_Ret in Htry as ([e|] & _ & Htry); [|done].
  apply run_bind_Ret in Htry as (okoff & _ & Htry).
  apply run_bind_Ret in Htry as (es & _ & Htry).
  injection Htry as <-. intros [= Hsc].
  apply andb_true_iff in Hsc as [Hok _].
  match type of Hok with ?b = true =>
    transitivity (Some (VBool b)); [done|by rewrite Hok] end.
Qed.

Lemma png_verdicts (data : bytes) (d : gmap string pyval) :
  Png.parse_png data = PDict d →
  d !! "structure_consistent" = Some (VBool true) →
  d !! "parser_ok" = Some (VBool true).
Proof.
  unfold Png.parse_png, Png.parse_png_try. cbv zeta.
  destruct (negb _ || _); [by intros [= <-]|].
  destruct (_ <=? _); [|by intros [= <-]].
  destruct (Png.unpack_u32_be _) as [ihdr_len|]; [|by intros [= <-]].
  destruct (Png.chunk_loop _ data _) as [p c i e].
  cbn [Png.chunks_count Png.idat_count Png.iend_ok].
  intros [= <-] [= Hsc].
  apply andb_true_iff in Hsc as [Hsc _].
  apply andb_true_iff in Hsc as [Hok _].
  match type of Hok with ?b = true =>
    transitivity (Some (VBool b)); [done|by rewrite Hok] end.
Qed.

Lemma jpeg_verdicts (data : bytes) (d : gmap string pyval) :
  Jpeg.parse_jpeg data = PDict d →
  d !! "structure_consistent" = Some (VBool true) →
  d !! "parser_ok" = Some (VBool true).
Proof.
  unfold Jpeg.parse_jpeg, Jpeg.parse_jpeg_try. cbv zeta.
  destruct (negb _); [by intros [= <-]|].
  destruct (Jpeg.segment_loop _ data _) as [[p n sof sos exif]|];
    [|by intros [= <-]].
  cbn [mbind option_bind Jpeg.segments_count Jpeg.sof_present
       Jpeg.sos_present].
  intros [= <-] [= Hsc].
  apply andb_true_iff in Hsc as [Hsc Hn%Z.leb_le].
  apply andb_true_iff in Hsc as [Hsc ->].
  apply andb_true_iff in Hsc as [Hh ->].
  match type of Hh with ?b = true =>
    transitivity (Some (VBool (b && (true || true) && (3 <=? n)))); [done|]
  end.
  rewrite Hh. simpl. destruct (Z.leb_spec 3 n); [done|lia].
Qed.

Lemma rar_verdicts (file : bytes) (d : gmap string pyval) :
  Rar.parse_rar file = PDict d →
  d !! "structure_consistent" = Some (VBool true) →
  d !! "parser_ok" = Some (VBool true).
Proof.
  unfold Rar.parse_rar, Rar.parse_rar_try.
  destruct (Rar.detect_rar_version file) as [[|]|].
  - destruct (parse_rar4_returns file) as (h & m & n & -> & _).
    intros [= <-] [= Hsc]. apply andb_true_iff in Hsc as [Hok _].
    transitivity (Some (VBool (h && m))); [done|by rewrite Hok].
  - destruct (parse_rar5_returns file) as (sc & -> & _).
    by intros [= <-].
  - by intros [= <-].
Qed.

(** X28 (the structural parsers of parsers_A/): in every record that a
    structural parser returns, a true [structure_consistent] comes with a
    true [parser_ok]; this holds for the parsers that read the file
    themselves and for [parse_ooxml] on any listing of the archive. *)
Theorem structure_consistent_implies_parser_ok (d : gmap string pyval) :
  (∃ (p : parser) (file : bytes),
     p ∈ structural_parsers ∧ p file = PDict d) ∨
  (∃ listing ct_head, Ooxml.parse_ooxml_on listing ct_head = d) →
  d !! "structure_consistent" = Some (VBool true) →
  d !! "parser_ok" = Some (VBool true).
Proof.
  intros [(p & file & Hp & Hd)|(listing & ct & Hd)].
  - unfold structural_parsers in Hp.
    repeat (apply elem_of_cons in Hp as [->|Hp]).
    + by apply (gzip_verdicts file).
    + by apply (mp4_verdicts file).
    + by apply (ole2_verdicts file).
    + by apply (zip_verdicts file).
    + by apply (png_verdicts file).
    + by apply (jpeg_verdicts file).
    + by apply (rar_verdicts file).
    + by apply not_elem_of_nil in Hp.
  - subst d. unfold Ooxml.parse_ooxml_on.
    destruct listing as [names|]; [|done].
    destruct (Ooxml.fast_detect_ooxml names) as [[sd core] ct'].
    intros [= Hsc]. apply andb_true_iff in Hsc as [Hsc _].
    apply andb_true_iff in Hsc as [Hok _].
    match type of Hok with ?b = true =>
      transitivity (Some (VBool b)); [done|by rewrite Hok] end.
Qed.

Lemma structure_consistent_implies_parser_ok_witness :
  ∃ d, Png.parse_png png_minimal = PDict d ∧
       d !! "parser_ok" = Some (VBool true).
Proof.
  assert (H : ∃ d, Png.parse_png png_minimal = PDict d ∧
                   d !! "structure_consistent" = Some (VBool true)).
  { eexists. split; vm_compute; reflexivity. }
  destruct H as (d & Hd & Hsc). exists d. split; [exact Hd|].
  apply (structure_consistent_implies_parser_ok d); [|exact Hsc].
  left. exists Png.parse_png, png_minimal. split; [|exact Hd].
  unfold structural_parsers. do 4 right. left.
Defined.

End Verdicts.

